(** * SpectreProxy: a shallow embedding of the transport engine

    The development follows the source layout, one module per class:
    [ShadowProxy] (main.js), [BaseProxy] (proxies/base.js), [FetchProxy]
    (proxies/fetch.js), [Socks5Proxy] (proxies/socks5.js), [SocketProxy]
    (proxies/socket.js), [DoTProxy] (proxies/dot.js).  They are preceded
    by the pieces of the JavaScript runtime the code relies on: string and
    number functions ([JS]), [Headers], requests with single-read body
    streams ([Streams]) and sockets ([Net]).

    Conventions.
    - A JavaScript string is a [string]; the code only inspects ASCII
      characters (separators, hex digits, header names), so a character is
      an [ascii], case folding is the ASCII one and the white space that
      [parseInt] and [Number] skip is the ASCII one.
    - A [Uint8Array] is a [list Z] whose elements lie in [0, 256); a store
      into it wraps modulo 256 ([JS.u8]).
    - A JavaScript number that the code uses as an integer is a [Z]: array
      lengths, indices and ports are below [2 ^ 53], where numbers are
      exact.  [NaN] is [None] of an [option Z].
    - [undefined] and [null] are [None].
    - What the outside world does (what a peer sends back, which write is
      rejected, what [fetch] returns) is a parameter of the functions that
      depend on it. *)

From Stdlib Require Import List String Ascii ZArith Lia Bool Arith.
From Stdlib Require DecimalString.
Import ListNotations.

Local Open Scope string_scope.
Local Open Scope list_scope.

(* ================================================================== *)
(** ** The JavaScript string methods used by the source *)
(* ================================================================== *)

Module JS.

(** [s.split(sep)] for a one-character separator: the pieces between the
    separators, empty pieces included; never the empty list. *)
Fixpoint split (sep : ascii) (s : string) : list string :=
  match s with
  | EmptyString => [EmptyString]
  | String c rest =>
      if Ascii.eqb c sep then EmptyString :: split sep rest
      else match split sep rest with
           | [] => [String c EmptyString]
           | piece :: pieces => String c piece :: pieces
           end
  end.

(** [Boolean(s)] on a string: the empty string is the only falsy one. *)
Definition truthy (s : string) : bool :=
  match s with EmptyString => false | String _ _ => true end.

(** [xs.filter(Boolean)]. *)
Definition filter_Boolean (xs : list string) : list string :=
  filter truthy xs.

(** [xs.join(sep)]. *)
Fixpoint join (sep : string) (xs : list string) : string :=
  match xs with
  | [] => EmptyString
  | [x] => x
  | x :: rest => x ++ sep ++ join sep rest
  end.

(** [s.startsWith(p)]. *)
Fixpoint startsWith (s p : string) : bool :=
  match p, s with
  | EmptyString, _ => true
  | String _ _, EmptyString => false
  | String a p', String b s' => Ascii.eqb a b && startsWith s' p'
  end.

(** [s.includes(sub)]: [sub] occurs at some offset of [s]. *)
Fixpoint includes (s sub : string) : bool :=
  startsWith s sub ||
  match s with
  | EmptyString => false
  | String _ rest => includes rest sub
  end.

(** [s.endsWith(":")] and the like, for a one-character suffix. *)
Fixpoint endsWithChar (s : string) (c : ascii) : bool :=
  match s with
  | EmptyString => false
  | String a EmptyString => Ascii.eqb a c
  | String _ rest => endsWithChar rest c
  end.

(** ASCII case folding of one character. *)
Definition lower_ascii (c : ascii) : ascii :=
  let n := nat_of_ascii c in
  if (65 <=? n)%nat && (n <=? 90)%nat then ascii_of_nat (n + 32) else c.

(** [s.toLowerCase()] on the ASCII range. *)
Fixpoint toLowerCase (s : string) : string :=
  match s with
  | EmptyString => EmptyString
  | String c rest => String (lower_ascii c) (toLowerCase rest)
  end.


(** *** Numbers and typed arrays *)

(** A [Uint8Array]: bytes in [0, 256). *)
Definition Uint8Array : Type := list Z.

(** Storing a number into a [Uint8Array] element wraps modulo 256. *)
Definition u8 (x : Z) : Z := x mod 256.

(** [encoder.encode(s)] and [decoder.decode(bytes)] on ASCII text, where
    UTF-8 is the identity on code points.  One character is one byte
    here, so these two, [s.length] and the white space of [parseInt] are
    those of the source on ASCII text only ([isASCII]). *)
Definition encode (s : string) : Uint8Array :=
  map (fun c => Z.of_nat (nat_of_ascii c)) (list_ascii_of_string s).

Definition decode (bytes : Uint8Array) : string :=
  string_of_list_ascii (map (fun b => ascii_of_nat (Z.to_nat b)) bytes).

(** Every character of [s] is below 128. *)
Definition isASCII (s : string) : bool :=
  forallb (fun c => (nat_of_ascii c <? 128)%nat) (list_ascii_of_string s).

(** Relative index of [TypedArray.prototype.slice]: a negative index
    counts from the end, and the result is clamped to [0, len]. *)
Definition relativeIndex (len i : Z) : Z :=
  if (i <? 0)%Z then Z.max (len + i) 0 else Z.min i len.

(** [a.slice(start)] ([stop = None]) and [a.slice(start, stop)]. *)
Definition slice (a : Uint8Array) (start : Z) (stop : option Z) : Uint8Array :=
  let len := Z.of_nat (List.length a) in
  let k := relativeIndex len start in
  let final := match stop with
               | None => len
               | Some e => relativeIndex len e
               end in
  firstn (Z.to_nat (final - k)) (skipn (Z.to_nat k) a).

(** Value of a character as a digit, letters counting from 10. *)
Definition digit_value (c : ascii) : option Z :=
  let n := Z.of_nat (nat_of_ascii c) in
  if ((48 <=? n) && (n <=? 57))%Z then Some (n - 48)%Z
  else if ((97 <=? n) && (n <=? 122))%Z then Some (n - 87)%Z
  else if ((65 <=? n) && (n <=? 90))%Z then Some (n - 55)%Z
  else None.

Definition radix_digit (R : Z) (c : ascii) : option Z :=
  match digit_value c with
  | Some d => if (d <? R)%Z then Some d else None
  | None => None
  end.

(** The longest prefix of radix-[R] digits, read as a number; [acc] is
    [None] as long as no digit was seen. *)
Fixpoint digits_value (R : Z) (acc : option Z) (s : string) : option Z :=
  match s with
  | EmptyString => acc
  | String c rest =>
      match radix_digit R c with
      | Some d =>
          digits_value R
            (Some (match acc with Some a => a * R + d | None => d end)%Z) rest
      | None => acc
      end
  end.

(** ASCII white space and line terminators, skipped by [parseInt]: of
    the white space of the language, the characters below 128. *)
Definition isWhiteSpace (c : ascii) : bool :=
  let n := nat_of_ascii c in
  ((9 <=? n)%nat && (n <=? 13)%nat) || (n =? 32)%nat.

Fixpoint trimStart (s : string) : string :=
  match s with
  | EmptyString => EmptyString
  | String c rest => if isWhiteSpace c then trimStart rest else s
  end.

(** [parseInt(s, R)] for the two radixes the source uses, 10 and 16:
    leading white space and a sign are skipped, with radix 16 a [0x]
    prefix too; then the longest run of digits is read.  [None] is [NaN]. *)
Definition parseInt (s : string) (R : Z) : option Z :=
  let str := trimStart s in
  let '(sign, str) :=
    match str with
    | String "-" rest => ((-1)%Z, rest)
    | String "+" rest => (1%Z, rest)
    | _ => (1%Z, str)
    end in
  let str :=
    if (R =? 16)%Z then
      match str with
      | String "0" (String "x" rest) => rest
      | String "0" (String "X" rest) => rest
      | _ => str
      end
    else str in
  match digits_value R None str with
  | Some v => Some (sign * v)%Z
  | None => None
  end.

(** Truthiness of a number: [NaN] and zero are falsy. *)
Definition truthy_number (n : option Z) : bool :=
  match n with
  | None => false
  | Some v => negb (v =? 0)%Z
  end.

(** A number shown in a template literal. *)
Definition showZ (z : Z) : string := DecimalString.NilZero.string_of_int (Z.to_int z).

(** [s.slice(start)] and [s.slice(start, stop)] on a string, for
    non-negative indices. *)
Fixpoint dropString (n : nat) (s : string) : string :=
  match n, s with
  | O, _ => s
  | S n', String _ rest => dropString n' rest
  | S _, EmptyString => EmptyString
  end.

Fixpoint takeString (n : nat) (s : string) : string :=
  match n, s with
  | S n', String c rest => String c (takeString n' rest)
  | _, _ => EmptyString
  end.

(** *** [Number(s)] *)

(** The result of converting a string to a number: [NaN], an infinity, or
    the decimal value [mantissa * 10 ^ exponent]. *)
Inductive JSNumber : Type :=
| NaN
| Infinity (negative : bool)
| Finite (mantissa exponent : Z).

Definition isNaN (n : JSNumber) : bool :=
  match n with NaN => true | _ => false end.

(** The longest prefix of radix-[R] digits and what follows it. *)
Fixpoint spanDigits (R : Z) (s : string) : string * string :=
  match s with
  | EmptyString => (EmptyString, EmptyString)
  | String c rest =>
      match radix_digit R c with
      | Some _ => let '(ds, tl) := spanDigits R rest in (String c ds, tl)
      | None => (EmptyString, s)
      end
  end.

Definition reverseString (s : string) : string :=
  string_of_list_ascii (List.rev (list_ascii_of_string s)).

Definition trim (s : string) : string :=
  reverseString (trimStart (reverseString (trimStart s))).

Definition digitsOrZero (R : Z) (ds : string) : Z :=
  match digits_value R None ds with Some v => v | None => 0%Z end.

(** A string made of radix-[R] digits only, at least one. *)
Definition wholeNumber (R : Z) (s : string) : JSNumber :=
  match spanDigits R s with
  | (String _ _ as ds, EmptyString) => Finite (digitsOrZero R ds) 0
  | _ => NaN
  end.

(** The optional exponent part that must end the literal. *)
Definition exponentPart (s : string) : option Z :=
  match s with
  | EmptyString => Some 0%Z
  | String c rest =>
      if Ascii.eqb c "e" || Ascii.eqb c "E" then
        let '(sign, ds) :=
          match rest with
          | String "-" r => ((-1)%Z, r)
          | String "+" r => (1%Z, r)
          | _ => (1%Z, rest)
          end in
        match spanDigits 10 ds with
        | (String _ _ as e, EmptyString) => Some (sign * digitsOrZero 10 e)%Z
        | _ => None
        end
      else None
  end.

(** An unsigned decimal literal: [Infinity], or digits with an optional
    fraction and an optional exponent. *)
Definition unsignedDecimal (s : string) : JSNumber :=
  if String.eqb s "Infinity" then Infinity false
  else
    let '(ip, r1) := spanDigits 10 s in
    let '(fp, r2, dotted) :=
      match r1 with
      | String "." r => let '(fp, r2) := spanDigits 10 r in (fp, r2, true)
      | _ => (EmptyString, r1, false)
      end in
    if truthy ip || (dotted && truthy fp) then
      match exponentPart r2 with
      | Some e =>
          Finite (digitsOrZero 10 (ip ++ fp)) (e - Z.of_nat (String.length fp))
      | None => NaN
      end
    else NaN.

Definition negate (n : JSNumber) : JSNumber :=
  match n with
  | NaN => NaN
  | Infinity b => Infinity (negb b)
  | Finite m e => Finite (- m) e
  end.

(** [Number(s)] on a string: surrounding white space is dropped, the
    empty string is zero, then a signed decimal literal or an unsigned
    binary, octal or hexadecimal integer is read; anything else is [NaN].
    The value is exact: rounding to a double is not applied. *)
Definition Number (s : string) : JSNumber :=
  match trim s with
  | EmptyString => Finite 0 0
  | String "0" (String "x" ds) | String "0" (String "X" ds) => wholeNumber 16 ds
  | String "0" (String "o" ds) | String "0" (String "O" ds) => wholeNumber 8 ds
  | String "0" (String "b" ds) | String "0" (String "B" ds) => wholeNumber 2 ds
  | String "-" rest => negate (unsignedDecimal rest)
  | String "+" rest => unsignedDecimal rest
  | t => unsignedDecimal t
  end.

(** A number stored into a [Uint8Array] element: [NaN] and the infinities
    become 0, other values are truncated and wrap. *)
Definition toUint8 (n : JSNumber) : Z :=
  match n with
  | Finite m e =>
      if (0 <=? e)%Z then u8 (m * 10 ^ e) else u8 (Z.quot m (10 ^ (- e)))
  | _ => 0%Z
  end.

(** Truthiness of a number: [NaN] and zero are falsy. *)
Definition truthyJSNumber (n : JSNumber) : bool :=
  match n with
  | NaN => false
  | Infinity _ => true
  | Finite m _ => negb (m =? 0)%Z
  end.

Definition toUint8_int (n : option Z) : Z :=
  match n with Some v => u8 v | None => 0%Z end.

End JS.

(* ================================================================== *)
(** ** config.js: the configuration bag *)
(* ================================================================== *)

Module ConfigManager.

(** The keys of [DEFAULT_CONFIG].  [updateConfigFromEnv] always starts
    from a copy of [DEFAULT_CONFIG], so every key is present. *)
Record Config : Type := mkConfig {
  AUTH_TOKEN : string;
  DEFAULT_DST_URL : string;
  DEBUG_MODE : bool;
  PROXY_STRATEGY : string;
  FALLBACK_PROXY_STRATEGY : string;
  SOCKS5_ADDRESS : string;
  THIRD_PARTY_PROXY_URL : string;
  CLOUD_PROVIDER_URL : string;
  DOH_SERVER_HOSTNAME : string;
  DOH_SERVER_PORT : Z;
  DOH_SERVER_PATH : string;
  DOT_SERVER_HOSTNAME : string;
  DOT_SERVER_PORT : Z
}.

Definition DEFAULT_CONFIG : Config := {|
  AUTH_TOKEN := "your_auth_token_here";
  DEFAULT_DST_URL := "https://httpbin.org/get";
  DEBUG_MODE := false;
  PROXY_STRATEGY := "socket";
  FALLBACK_PROXY_STRATEGY := "fetch";
  SOCKS5_ADDRESS := "";
  THIRD_PARTY_PROXY_URL := "";
  CLOUD_PROVIDER_URL := "";
  DOH_SERVER_HOSTNAME := "dns.google";
  DOH_SERVER_PORT := 443;
  DOH_SERVER_PATH := "/dns-query";
  DOT_SERVER_HOSTNAME := "dns.google";
  DOT_SERVER_PORT := 853
|}.

End ConfigManager.
Export ConfigManager.

(** The fields of a parsed [URL] object that the source reads.  [port] is
    the empty string when the URL carries no explicit port (or the default
    port of its scheme), [protocol] ends with a colon. *)
Record URL : Type := mkURL {
  protocol : string;
  hostname : string;
  port : string;
  pathname : string;
  search : string
}.

(* ================================================================== *)
(** ** The runtime's [Headers], [Error], [Response] and stream readers *)
(* ================================================================== *)

Module Headers.

(** A header list in insertion order, names as they were given. *)
Definition t : Type := list (string * string).

(** Header names are compared without regard to case. *)
Definition same_name (a b : string) : bool :=
  String.eqb (JS.toLowerCase a) (JS.toLowerCase b).

(** [headers.has(name)]. *)
Definition has (h : t) (name : string) : bool :=
  existsb (fun kv => same_name (fst kv) name) h.

Definition values (h : t) (name : string) : list string :=
  map snd (filter (fun kv => same_name (fst kv) name) h).

(** [headers.get(name)]: the values of that name joined by a comma and a
    space, [null] when there is none. *)
Definition get (h : t) (name : string) : option string :=
  match values h name with
  | [] => None
  | vs => Some (JS.join ", " vs)
  end.

(** [headers.append(name, value)]. *)
Definition append (h : t) (name value : string) : t :=
  h ++ [(name, value)].

(** [headers.set(name, value)]: the first header of that name takes the
    value and the others are removed; a new name is appended. *)
Fixpoint set (h : t) (name value : string) : t :=
  match h with
  | [] => [(name, value)]
  | (k, v) :: rest =>
      if same_name k name
      then (k, value) :: filter (fun kv => negb (same_name (fst kv) name)) rest
      else (k, v) :: set rest name value
  end.

Fixpoint insert_sorted (x : string) (xs : list string) : list string :=
  match xs with
  | [] => [x]
  | y :: ys => if String.leb x y then x :: xs else y :: insert_sorted x ys
  end.

Definition sort (xs : list string) : list string :=
  fold_right insert_sorted [] xs.

(** The lower-cased names of a header list, each once, sorted. *)
Definition names (h : t) : list string :=
  sort (nodup string_dec (map (fun kv => JS.toLowerCase (fst kv)) h)).

(** Iteration ([for (const [k, v] of headers)], [headers.entries()]):
    sorted lower-cased names with combined values; [set-cookie] values are
    delivered one by one. *)
Definition entries (h : t) : list (string * string) :=
  flat_map
    (fun n =>
       if String.eqb n "set-cookie" then map (fun v => (n, v)) (values h n)
       else match get h n with
            | Some v => [(n, v)]
            | None => []
            end)
    (names h).

End Headers.

(** An [Error] object; only its message is inspected. *)
Record Error : Type := mkError { message : string }.

(** How an evaluation ends: with a value, or by throwing. *)
Inductive Completion (A : Type) : Type :=
| Normal (a : A)
| Throw (e : Error).
Arguments Normal {A} a.
Arguments Throw {A} e.

(** What one [reader.read()] delivers: a chunk, or a rejection.  A reader
    is the list of what its successive reads deliver; after the list the
    stream is done. *)
Inductive ReadEvent : Type :=
| Chunk (value : JS.Uint8Array)
| ReadError (e : Error).

Definition Reader : Type := list ReadEvent.

(** How a produced body stream ends: [ctrl.close()] or [ctrl.error(err)]. *)
Inductive StreamEnd : Type :=
| Closed
| Errored (e : Error).

(** A response body. *)
Inductive Body : Type :=
| NoBody
| Text (s : string)
| Bytes (b : JS.Uint8Array)
| Streamed (chunks : list JS.Uint8Array) (fin : StreamEnd).

Record Response : Type := mkResponse {
  status : Z;
  statusText : string;
  headers : Headers.t;
  body : Body
}.

(** [new Response(body, { status, statusText, headers })] with a body
    that is not null: the constructor throws a [RangeError] for a status
    outside 200..599 and a [TypeError] for a null body status. *)
Definition newResponse (st : Z) (reason : string) (hs : Headers.t) (b : Body)
  : Completion Response :=
  if negb ((200 <=? st)%Z && (st <=? 599)%Z) then
    Throw (mkError
      "Responses may only be constructed with status codes in the range 200 to 599, inclusive.")
  else if ((st =? 204) || (st =? 205) || (st =? 304))%Z then
    Throw (mkError
      "Response with null body status (101, 204, 205, or 304) cannot have a body.")
  else
    Normal {| status := st; statusText := reason; headers := hs; body := b |}.

(** [new Response(text, { status })]. *)
Definition textResponse (text : string) (st : Z) : Response :=
  {| status := st;
     statusText := "";
     headers := [("content-type", "text/plain;charset=UTF-8")];
     body := Text text |}.

(* ================================================================== *)
(** ** Requests with single-read bodies, and sockets *)
(* ================================================================== *)

Module Streams.

(** A request body stream: the chunks not read yet, and whether the
    stream was read from or locked ([bodyUsed]). *)
Record BodyStream : Type := mkBodyStream {
  remaining : list JS.Uint8Array;
  bodyUsed : bool
}.

(** The body streams alive during one call, by identity.  Two requests
    holding the same identity share one stream. *)
Definition Store : Type := list BodyStream.

Fixpoint update (st : Store) (id : nat) (s : BodyStream) : Store :=
  match st, id with
  | [], _ => []
  | _ :: rest, O => s :: rest
  | x :: rest, S id' => x :: update rest id' s
  end.

(** A [Request]: [requestBody] is [None] for [req.body === null]. *)
Record Request : Type := mkRequest {
  method : string;
  requestHeaders : Headers.t;
  requestBody : option nat
}.

(** [req.clone()]: the body is teed, the clone reads from a stream of its
    own; a body that was already used makes it throw. *)
Definition clone (st : Store) (req : Request) : Store * Completion Request :=
  match requestBody req with
  | None => (st, Normal req)
  | Some id =>
      match nth_error st id with
      | None => (st, Throw (mkError "Cannot clone a request without its body"))
      | Some s =>
          if bodyUsed s
          then (st, Throw (mkError "Cannot clone a request whose body was used"))
          else (st ++ [s],
                Normal {| method := method req;
                          requestHeaders := requestHeaders req;
                          requestBody := Some (List.length st) |})
      end
  end.

(** The bytes a request would still deliver. *)
Definition content (st : Store) (req : Request) : option JS.Uint8Array :=
  match requestBody req with
  | None => None
  | Some id => option_map (fun s => List.concat (remaining s)) (nth_error st id)
  end.

Definition untouched (st : Store) (req : Request) : bool :=
  match requestBody req with
  | None => true
  | Some id =>
      match nth_error st id with
      | Some s => negb (bodyUsed s)
      | None => false
      end
  end.

(** [await req.arrayBuffer()]: the whole body, which is used up. *)
Definition arrayBuffer (st : Store) (req : Request)
  : Store * Completion JS.Uint8Array :=
  match requestBody req with
  | None => (st, Normal [])
  | Some id =>
      match nth_error st id with
      | None => (st, Throw (mkError "Body is unusable"))
      | Some s =>
          if bodyUsed s then (st, Throw (mkError "Body has already been used"))
          else (update st id (mkBodyStream [] true),
                Normal (List.concat (remaining s)))
      end
  end.

End Streams.

Module Net.

(** The far end of a socket: whether [connect] throws, which write is
    rejected (by the number of writes accepted before it), what it sends
    back, and whether [close] is rejected. *)
Record Peer : Type := mkPeer {
  connect_error : option Error;
  write_error : nat -> option Error;
  incoming : Reader;
  close_error : option Error
}.

(** An open socket: what was written to it so far and what is still to be
    read from it. *)
Record Sock : Type := mkSock {
  peer : Peer;
  written : list JS.Uint8Array;
  pending : Reader
}.

(** Socket code runs in a state and error monad over the socket. *)
Definition IO (A : Type) : Type := Sock -> Sock * Completion A.

Definition ret {A : Type} (a : A) : IO A := fun s => (s, Normal a).

Definition throw {A : Type} (e : Error) : IO A := fun s => (s, Throw e).

Definition bind {A B : Type} (m : IO A) (k : A -> IO B) : IO B :=
  fun s =>
    match m s with
    | (s', Normal a) => k a s'
    | (s', Throw e) => (s', Throw e)
    end.

(** [connect(address, options)]. *)
Definition connect (p : Peer) : Completion Sock :=
  match connect_error p with
  | Some e => Throw e
  | None => Normal (mkSock p [] (incoming p))
  end.

(** [await writer.write(bytes)]. *)
Definition write (bytes : JS.Uint8Array) : IO unit :=
  fun s =>
    match write_error (peer s) (List.length (written s)) with
    | Some e => (s, Throw e)
    | None => (mkSock (peer s) (written s ++ [bytes]) (pending s), Normal tt)
    end.

(** [(await reader.read()).value]: [None] is the [undefined] of a
    finished stream. *)
Definition readValue : IO (option JS.Uint8Array) :=
  fun s =>
    match pending s with
    | [] => (s, Normal None)
    | Chunk value :: rest => (mkSock (peer s) (written s) rest, Normal (Some value))
    | ReadError e :: rest => (mkSock (peer s) (written s) rest, Throw e)
    end.

(** [res[i]] on what a read delivered: indexing [undefined] throws, an
    index past the end is [undefined]. *)
Definition at_index (res : option JS.Uint8Array) (i : nat) : IO (option Z) :=
  match res with
  | None => throw (mkError "Cannot read properties of undefined")
  | Some bytes => ret (nth_error bytes i)
  end.

(** [await socket.close()]. *)
Definition close : IO unit :=
  fun s =>
    match close_error (peer s) with
    | Some e => (s, Throw e)
    | None => (s, Normal tt)
    end.

End Net.

Notation "x <- m ;; k" := (Net.bind m (fun x => k))
  (at level 61, m at next level, right associativity).
Notation "m ;;; k" := (Net.bind m (fun _ => k))
  (at level 61, right associativity).

(** Carriage return and line feed. *)
Definition CRLF : string := String (ascii_of_nat 13) (String (ascii_of_nat 10) "").

(** The request head every socket transport writes:
    [`${method} ${pathname}${search} HTTP/1.1\r\n`], the header entries
    as [k: v] joined by CRLF, and an empty line. *)
Definition requestHead (method : string) (targetUrl : URL)
  (cleanedHeaders : Headers.t) : string :=
  (method ++ " " ++ pathname targetUrl ++ search targetUrl ++ " HTTP/1.1" ++ CRLF
   ++ JS.join CRLF
        (map (fun kv => fst kv ++ ": " ++ snd kv) (Headers.entries cleanedHeaders))
   ++ CRLF ++ CRLF)%string.

(* ================================================================== *)
(** ** proxies/base.js: [BaseProxy] *)
(* ================================================================== *)

Module BaseProxy.

(** [handleError(error, context, status = 500)]; [status] is [None] when
    the caller leaves the third argument out. *)
Definition handleError (error : Error) (context : string) (status : option Z)
  : Response :=
  let status := match status with Some st => st | None => 500%Z end in
  textResponse
    ("Error " ++ JS.toLowerCase context ++ ": " ++ message error) status.

(** The default [isCloudflareNetworkError(error)]. *)
Definition isCloudflareNetworkError (error : Error) : bool := false.

(** *** Header filter *)

(** The alternatives of
    [/^(host|accept-encoding|cf-|cdn-|referer|referrer)/i]. *)
Definition HEADER_FILTER_PREFIXES : list string :=
  ["host"; "accept-encoding"; "cf-"; "cdn-"; "referer"; "referrer"].

(** [HEADER_FILTER_RE.test(k)]: some alternative is a prefix of [k], case
    being ignored. *)
Definition HEADER_FILTER_RE_test (k : string) : bool :=
  existsb (JS.startsWith (JS.toLowerCase k)) HEADER_FILTER_PREFIXES.

(** [filterHeaders(headers)]. *)
Definition filterHeaders (headers : Headers.t) : Headers.t :=
  fold_left
    (fun cleanedHeaders kv =>
       if negb (HEADER_FILTER_RE_test (fst kv))
       then Headers.set cleanedHeaders (fst kv) (snd kv)
       else cleanedHeaders)
    (Headers.entries headers) [].

(** *** WebSocket text frames *)

(** [concatUint8Arrays(...arrays)]. *)
Definition concatUint8Arrays (arrays : list JS.Uint8Array) : JS.Uint8Array :=
  List.concat arrays.

(** The masking loop, from index [i] on:
    [maskedPayload[i] = payload[i] ^ mask[i % 4]]. *)
Fixpoint maskFrom (i : nat) (mask payload : JS.Uint8Array) : JS.Uint8Array :=
  match payload with
  | [] => []
  | p :: rest =>
      JS.u8 (Z.lxor p (nth (i mod 4) mask 0%Z)) :: maskFrom (S i) mask rest
  end.

(** [packTextFrame(payload)]; [mask] is what [crypto.getRandomValues]
    puts into the fresh four-byte array. *)
Definition packTextFrame (mask payload : JS.Uint8Array)
  : Completion JS.Uint8Array :=
  let FIN_AND_OP := 129%Z in
  let maskBit := 128%Z in
  let len := Z.of_nat (List.length payload) in
  let header :=
    if (len <? 126)%Z then
      Normal [JS.u8 FIN_AND_OP; JS.u8 (Z.lor maskBit len)]
    else if (len <? 65536)%Z then
      Normal [JS.u8 FIN_AND_OP; JS.u8 (Z.lor maskBit 126);
              JS.u8 (Z.land (Z.shiftr len 8) 255); JS.u8 (Z.land len 255)]
    else Throw (mkError "Payload too large") in
  match header with
  | Throw e => Throw e
  | Normal header =>
      let maskedPayload := maskFrom 0 mask payload in
      Normal (concatUint8Arrays [header; mask; maskedPayload])
  end.

(** *** Chunked bodies *)

(** The search loop of [readChunks]: the first [i] with [buff[i] = 13] and
    [buff[i + 1] = 10]; [None] is [pos = -1]. *)
Fixpoint findCRLF (buff : JS.Uint8Array) : option nat :=
  match buff with
  | a :: (b :: _) as rest =>
      if ((a =? 13) && (b =? 10))%Z then Some 0%nat
      else option_map S (findCRLF rest)
  | _ => None
  end.

(** The inner loop of [readChunks]:
    [while (buff.length < need) { read; if (done) throw ...; concat }]. *)
Fixpoint fillBuffer (reader : Reader) (buff : JS.Uint8Array) (need : Z)
  : Reader * Completion JS.Uint8Array :=
  if (Z.of_nat (List.length buff) <? need)%Z then
    match reader with
    | [] => ([], Throw (mkError "Unexpected EOF in chunked encoding"))
    | Chunk value :: reader' => fillBuffer reader' (buff ++ value) need
    | ReadError e :: reader' => (reader', Throw e)
    end
  else (reader, Normal buff).

(** One turn of the outer [while (true)] of [readChunks] per unit of
    fuel.  The result is the list of yielded chunks and how the generator
    ends; [None] when the fuel runs out. *)
Fixpoint readChunks_loop (fuel : nat) (reader : Reader) (buff : JS.Uint8Array)
  : option (list JS.Uint8Array * StreamEnd) :=
  match fuel with
  | O => None
  | S fuel =>
      match findCRLF buff with
      | None =>
          match reader with
          | [] => Some ([], Closed)
          | Chunk value :: reader' => readChunks_loop fuel reader' (buff ++ value)
          | ReadError e :: _ => Some ([], Errored e)
          end
      | Some pos =>
          let pos := Z.of_nat pos in
          let sizeStr := JS.decode (JS.slice buff 0 (Some pos)) in
          let size := JS.parseInt sizeStr 16 in
          match size with
          | None => Some ([], Closed)
          | Some size =>
              if (size =? 0)%Z then Some ([], Closed)
              else
                let buff := JS.slice buff (pos + 2) None in
                match fillBuffer reader buff (size + 2) with
                | (_, Throw e) => Some ([], Errored e)
                | (reader, Normal buff) =>
                    match readChunks_loop fuel reader
                            (JS.slice buff (size + 2) None) with
                    | None => None
                    | Some (chunks, fin) =>
                        Some (JS.slice buff 0 (Some size) :: chunks, fin)
                    end
                end
          end
      end
  end.

(** Every turn of the loop consumes a read or at least two buffered
    bytes, so this much fuel is never used up. *)
Fixpoint readerWeight (reader : Reader) : nat :=
  match reader with
  | [] => 0
  | Chunk value :: reader' => S (List.length value + readerWeight reader')
  | ReadError _ :: reader' => S (readerWeight reader')
  end.

(** [readChunks(reader, buff)], run to its end. *)
Definition readChunks (reader : Reader) (buff : JS.Uint8Array)
  : list JS.Uint8Array * StreamEnd :=
  match readChunks_loop (S (List.length buff + readerWeight reader))
          reader buff with
  | Some r => r
  | None => ([], Closed)
  end.

(** *** Response parsing *)

(** [headers.get("transfer-encoding")?.includes("chunked")]. *)
Definition isChunked (headers : Headers.t) : bool :=
  match Headers.get headers "transfer-encoding" with
  | Some v => JS.includes v "chunked"
  | None => false
  end.

(** [parseInt(headers.get("content-length") || "0", 10)]. *)
Definition contentLength (headers : Headers.t) : option Z :=
  let text :=
    match Headers.get headers "content-length" with
    | Some v => if JS.truthy v then v else "0"
    | None => "0"
    end in
  JS.parseInt text 10.

(** [received < contentLength]; a comparison with [NaN] is false. *)
Definition below (received : Z) (contentLength : option Z) : bool :=
  match contentLength with
  | Some n => (received <? n)%Z
  | None => false
  end.

(** The loop of the fixed-length branch:
    [while (received < contentLength) { read; if (done) break; ... }]. *)
Fixpoint readFixed (reader : Reader) (received : Z) (contentLength : option Z)
  : list JS.Uint8Array * StreamEnd :=
  if below received contentLength then
    match reader with
    | [] => ([], Closed)
    | Chunk value :: reader' =>
        let '(chunks, fin) :=
          readFixed reader' (received + Z.of_nat (List.length value))
            contentLength in
        (value :: chunks, fin)
    | ReadError e :: _ => ([], Errored e)
    end
  else ([], Closed).

(** The [start] callback of the body stream built by [parseResponse]:
    what it enqueues and how it ends, given the parsed headers, the reader
    and [data], the bytes already buffered after the header block. *)
Definition responseBody (headers : Headers.t) (reader : Reader)
  (data : JS.Uint8Array) : list JS.Uint8Array * StreamEnd :=
  if isChunked headers then readChunks reader data
  else
    let contentLength := contentLength headers in
    let received := Z.of_nat (List.length data) in
    let '(chunks, fin) := readFixed reader received contentLength in
    ((if (0 <? List.length data)%nat then [data] else []) ++ chunks, fin).

(** The result of [parseHttpHeaders(buff)] when the header block is
    complete. *)
Record ParsedHead : Type := mkParsedHead {
  head_status : Z;
  head_statusText : string;
  head_headers : Headers.t;
  headerEnd : Z
}.

Section ParseResponse.

(** [parseHttpHeaders(buff)]: [Normal None] is the [null] returned while
    the header block is incomplete; an invalid status line throws. *)
Variable parseHttpHeaders : JS.Uint8Array -> Completion (option ParsedHead).

(** [parseResponse(reader)], with [buff] the bytes accumulated so far. *)
Fixpoint parseResponse_from (reader : Reader) (buff : JS.Uint8Array)
  : Completion Response :=
  match reader with
  | [] => Throw (mkError "Unable to parse response headers")
  | ReadError e :: _ => Throw e
  | Chunk value :: reader' =>
      let buff := concatUint8Arrays [buff; value] in
      match parseHttpHeaders buff with
      | Throw e => Throw e
      | Normal None => parseResponse_from reader' buff
      | Normal (Some parsed) =>
          let data := JS.slice buff (headerEnd parsed + 4) None in
          let '(chunks, fin) :=
            responseBody (head_headers parsed) reader' data in
          newResponse (head_status parsed) (head_statusText parsed)
            (head_headers parsed) (Streamed chunks fin)
      end
  end.

Definition parseResponse (reader : Reader) : Completion Response :=
  parseResponse_from reader [].

End ParseResponse.

(** *** Reading until the end of a header block *)

(** [readUntilDoubleCRLF(reader)], with [respText] the text read so far:
    chunks are decoded and appended until the text contains an empty
    line or the stream is done. *)
Fixpoint readUntilDoubleCRLF_from (reader : Reader) (respText : string)
  : Reader * Completion string :=
  match reader with
  | [] => ([], Normal respText)
  | ReadError e :: reader' => (reader', Throw e)
  | Chunk value :: reader' =>
      let respText := (respText ++ JS.decode value)%string in
      if JS.includes respText (CRLF ++ CRLF)%string then (reader', Normal respText)
      else readUntilDoubleCRLF_from reader' respText
  end.

Definition readUntilDoubleCRLF (reader : Reader) : Reader * Completion string :=
  readUntilDoubleCRLF_from reader "".

(** *** The WebSocket frame reader *)

Module SocketFramesReader.

(** The fields of a [SocketFramesReader]. *)
Record State : Type := mkState {
  reader : Reader;
  buffer : JS.Uint8Array;
  fragmentedPayload : option JS.Uint8Array;
  fragmentedOpcode : option Z
}.

(** [new SocketFramesReader(reader, parent)]. *)
Definition create (reader : Reader) : State := mkState reader [] None None.

(** The [fin] field of a returned frame: [true] for a reassembled
    message, the FIN bit itself for a frame returned as it came. *)
Inductive Fin : Type :=
| FinTrue
| FinBit (bit : Z).

(** A frame object returned by [nextFrame]: the opcode of a reassembled
    message is the stored [fragmentedOpcode]. *)
Record Frame : Type := mkFrame {
  fin : Fin;
  opcode : option Z;
  payload : JS.Uint8Array
}.

(** [ensureBuffer(length)]: reads are appended to the buffer until it
    holds [length] bytes ([true]) or the stream is done ([false]). *)
Fixpoint ensureBuffer (reader : Reader) (buffer : JS.Uint8Array) (length : Z)
  : Reader * JS.Uint8Array * Completion bool :=
  if (Z.of_nat (List.length buffer) <? length)%Z then
    match reader with
    | [] => ([], buffer, Normal false)
    | Chunk value :: reader' =>
        ensureBuffer reader' (concatUint8Arrays [buffer; value]) length
    | ReadError e :: reader' => (reader', buffer, Throw e)
    end
  else (reader, buffer, Normal true).

(** The unmasking loop: [payload[i] ^= mask[i % 4]]. *)
Definition unmask (mask payload : JS.Uint8Array) : JS.Uint8Array :=
  maskFrom 0 mask payload.

(** What the first part of the loop body of [nextFrame] reads from the
    stream, in three steps ([readLength], [readMask], [readPayload]): the
    FIN bit, the opcode and the unmasked payload of one frame; [None] when
    the stream is done before the frame is complete.  The bytes of the
    frame are removed from the buffer. *)
Record RawFrame : Type := mkRawFrame {
  raw_fin : Z;
  raw_opcode : Z;
  raw_payload : JS.Uint8Array
}.

(** The extended length: with [payloadLen = 126] the next two bytes give
    the length, high byte first; 127 is refused.  Returns the length and
    the offset after it. *)
Definition readLength (reader : Reader) (buffer : JS.Uint8Array)
  (payloadLen offset : Z) : Reader * JS.Uint8Array * Completion (option (Z * Z)) :=
  if (payloadLen =? 126)%Z then
    match ensureBuffer reader buffer (offset + 2) with
    | (reader, buffer, Throw e) => (reader, buffer, Throw e)
    | (reader, buffer, Normal false) => (reader, buffer, Normal None)
    | (reader, buffer, Normal true) =>
        (reader, buffer,
         Normal (Some (Z.lor (Z.shiftl (nth (Z.to_nat offset) buffer 0%Z) 8)
                         (nth (Z.to_nat (offset + 1)) buffer 0%Z),
                       offset + 2)%Z))
    end
  else if (payloadLen =? 127)%Z then
    (reader, buffer, Throw (mkError "127 length mode is not supported"))
  else (reader, buffer, Normal (Some (payloadLen, offset))).

(** The mask, when the MASK bit is set.  Returns it and the offset after
    it. *)
Definition readMask (reader : Reader) (buffer : JS.Uint8Array)
  (isMasked offset : Z)
  : Reader * JS.Uint8Array * Completion (option (option JS.Uint8Array * Z)) :=
  if negb (isMasked =? 0)%Z then
    match ensureBuffer reader buffer (offset + 4) with
    | (reader, buffer, Throw e) => (reader, buffer, Throw e)
    | (reader, buffer, Normal false) => (reader, buffer, Normal None)
    | (reader, buffer, Normal true) =>
        (reader, buffer,
         Normal (Some (Some (JS.slice buffer offset (Some (offset + 4)%Z)),
                       offset + 4)%Z))
    end
  else (reader, buffer, Normal (Some (None, offset))).

(** The payload, unmasked when there is a mask; its bytes and all before
    them are removed from the buffer. *)
Definition readPayload (reader : Reader) (buffer : JS.Uint8Array)
  (mask : option JS.Uint8Array) (payloadLen offset : Z)
  : Reader * JS.Uint8Array * Completion (option JS.Uint8Array) :=
  match ensureBuffer reader buffer (offset + payloadLen) with
  | (reader, buffer, Throw e) => (reader, buffer, Throw e)
  | (reader, buffer, Normal false) => (reader, buffer, Normal None)
  | (reader, buffer, Normal true) =>
      let payload := JS.slice buffer offset (Some (offset + payloadLen)%Z) in
      let payload :=
        match mask with
        | Some mask => unmask mask payload
        | None => payload
        end in
      (reader, JS.slice buffer (offset + payloadLen) None, Normal (Some payload))
  end.

Definition readFrame (reader : Reader) (buffer : JS.Uint8Array)
  : Reader * JS.Uint8Array * Completion (option RawFrame) :=
  match ensureBuffer reader buffer 2 with
  | (reader, buffer, Throw e) => (reader, buffer, Throw e)
  | (reader, buffer, Normal false) => (reader, buffer, Normal None)
  | (reader, buffer, Normal true) =>
      let first := nth 0 buffer 0%Z in
      let second := nth 1 buffer 0%Z in
      let fin := Z.land (Z.shiftr first 7) 1 in
      let opcode := Z.land first 15 in
      let isMasked := Z.land (Z.shiftr second 7) 1 in
      let payloadLen := Z.land second 127 in
      let offset := 2%Z in
      match readLength reader buffer payloadLen offset with
      | (reader, buffer, Throw e) => (reader, buffer, Throw e)
      | (reader, buffer, Normal None) => (reader, buffer, Normal None)
      | (reader, buffer, Normal (Some (payloadLen, offset))) =>
          match readMask reader buffer isMasked offset with
          | (reader, buffer, Throw e) => (reader, buffer, Throw e)
          | (reader, buffer, Normal None) => (reader, buffer, Normal None)
          | (reader, buffer, Normal (Some (mask, offset))) =>
              match readPayload reader buffer mask payloadLen offset with
              | (reader, buffer, Throw e) => (reader, buffer, Throw e)
              | (reader, buffer, Normal None) => (reader, buffer, Normal None)
              | (reader, buffer, Normal (Some payload)) =>
                  (reader, buffer, Normal (Some (mkRawFrame fin opcode payload)))
              end
          end
      end
  end.

(** One turn of the [while (true)] of [nextFrame] per unit of fuel: a
    frame is read, then fragments are collected until a message is
    complete.  [None] when the fuel runs out. *)
Fixpoint nextFrame_loop (fuel : nat) (s : State)
  : option (State * Completion (option Frame)) :=
  match fuel with
  | O => None
  | S fuel =>
      match readFrame (reader s) (buffer s) with
      | (r, b, Throw e) =>
          Some (mkState r b (fragmentedPayload s) (fragmentedOpcode s), Throw e)
      | (r, b, Normal None) =>
          Some (mkState r b (fragmentedPayload s) (fragmentedOpcode s), Normal None)
      | (r, b, Normal (Some raw)) =>
          if (raw_opcode raw =? 0)%Z then
            match fragmentedPayload s with
            | None =>
                Some (mkState r b None (fragmentedOpcode s),
                      Throw (mkError "Received continuation frame without initiation"))
            | Some fragments =>
                let fragments := concatUint8Arrays [fragments; raw_payload raw] in
                if negb (raw_fin raw =? 0)%Z then
                  Some (mkState r b None None,
                        Normal (Some (mkFrame FinTrue (fragmentedOpcode s) fragments)))
                else
                  nextFrame_loop fuel (mkState r b (Some fragments) (fragmentedOpcode s))
            end
          else if (raw_fin raw =? 0)%Z then
            nextFrame_loop fuel
              (mkState r b (Some (raw_payload raw)) (Some (raw_opcode raw)))
          else
            let '(fp, fo) :=
              match fragmentedPayload s with
              | Some _ => (None, None)
              | None => (None, fragmentedOpcode s)
              end in
            Some (mkState r b fp fo,
                  Normal (Some (mkFrame (FinBit (raw_fin raw)) (Some (raw_opcode raw))
                                  (raw_payload raw))))
      end
  end.

(** Every frame read takes at least two bytes out of the stream. *)
Definition weight (s : State) : nat :=
  (List.length (buffer s) + readerWeight (reader s))%nat.

(** [nextFrame()], run to its end. *)
Definition nextFrame (s : State) : State * Completion (option Frame) :=
  match nextFrame_loop (S (weight s)) s with
  | Some r => r
  | None => (s, Normal None)
  end.

End SocketFramesReader.

(** *** The relay from the remote socket to the client WebSocket *)

(** What the relay does to the client WebSocket, the writer and the
    socket. *)
Inductive RelayAction : Type :=
| WsSend (payload : JS.Uint8Array)
| WsClose (code : option Z)
| WriterReleaseLock
| SocketClose.

(** The [while (true)] of the reading task of [relayWebSocketFrames], one
    frame per unit of fuel: what it does before its [finally] block.  An
    exception of [nextFrame] is caught and logged. *)
Fixpoint relayFrames_loop (fuel : nat) (s : SocketFramesReader.State)
  : option (list RelayAction) :=
  match fuel with
  | O => None
  | S fuel =>
      match SocketFramesReader.nextFrame s with
      | (_, Throw e) => Some []
      | (_, Normal None) => Some []
      | (s, Normal (Some frame)) =>
          let forward :=
            match SocketFramesReader.opcode frame with
            | Some op => (op =? 1)%Z || (op =? 2)%Z
            | None => false
            end in
          let closing :=
            match SocketFramesReader.opcode frame with
            | Some op => (op =? 8)%Z
            | None => false
            end in
          if forward then
            match relayFrames_loop fuel s with
            | Some actions => Some (WsSend (SocketFramesReader.payload frame) :: actions)
            | None => None
            end
          else if closing then Some [WsClose (Some 1000%Z)]
          else relayFrames_loop fuel s
      end
  end.

(** The reading task of [relayWebSocketFrames] on a fresh frame reader:
    the loop, then the [finally] block. *)
Definition relayFrames (reader : Reader) : list RelayAction :=
  let s := SocketFramesReader.create reader in
  match relayFrames_loop (S (SocketFramesReader.weight s)) s with
  | Some actions => actions ++ [WsClose None; WriterReleaseLock; SocketClose]
  | None => [WsClose None; WriterReleaseLock; SocketClose]
  end.

End BaseProxy.

(* ================================================================== *)
(** ** proxies/fetch.js: [FetchProxy] *)
(* ================================================================== *)

(** What is handed to the runtime's [fetch]: [new Request(url, { method,
    headers, body })].  The body is a stream of the store, a buffer, or
    absent. *)
Inductive FetchBody : Type :=
| NoFetchBody
| BufferBody (bytes : JS.Uint8Array)
| StreamBody (id : nat).

Record FetchRequest : Type := mkFetchRequest {
  fetch_url : string;
  fetch_method : string;
  fetch_headers : Headers.t;
  fetch_body : FetchBody
}.

Definition streamBody (b : option nat) : FetchBody :=
  match b with Some id => StreamBody id | None => NoFetchBody end.

Module FetchProxy.

(** The headers [connectHttp] puts on the upstream request:
    [filterHeaders(req.headers)] with [Host] set. *)
Definition upstreamHeaders (inbound : Headers.t) (targetUrl : URL) : Headers.t :=
  let cleanedHeaders := BaseProxy.filterHeaders inbound in
  Headers.set cleanedHeaders "Host" (hostname targetUrl).

(** [new Request(dstUrl, { method: req.method, headers: cleanedHeaders,
    body: req.body })]. *)
Definition fetchRequest (req : Streams.Request) (dstUrl : string)
  (targetUrl : URL) : FetchRequest :=
  let cleanedHeaders := upstreamHeaders (Streams.requestHeaders req) targetUrl in
  mkFetchRequest dstUrl (Streams.method req) cleanedHeaders
    (streamBody (Streams.requestBody req)).

(** [this.UPSTREAM_DNS_SERVER]: host name and path. *)
Definition UPSTREAM_DNS_SERVER (config : Config) : string * string :=
  (if JS.truthy (DOH_SERVER_HOSTNAME config)
   then DOH_SERVER_HOSTNAME config else "dns.google",
   if JS.truthy (DOH_SERVER_PATH config)
   then DOH_SERVER_PATH config else "/dns-query").

(** The request [handleDnsQuery] hands to [fetch]. *)
Definition dnsRequest (config : Config) (req : Streams.Request) : FetchRequest :=
  let '(hostname, path) := UPSTREAM_DNS_SERVER config in
  let upstreamDnsUrl := ("https://" ++ hostname ++ path)%string in
  let cleanedHeaders := BaseProxy.filterHeaders (Streams.requestHeaders req) in
  let cleanedHeaders := Headers.set cleanedHeaders "Host" hostname in
  let cleanedHeaders :=
    Headers.set cleanedHeaders "Content-Type" "application/dns-message" in
  let cleanedHeaders := Headers.set cleanedHeaders "Accept" "application/dns-message" in
  mkFetchRequest upstreamDnsUrl (Streams.method req) cleanedHeaders
    (streamBody (Streams.requestBody req)).

Section Fetch.

(** Building the request and [await fetch(request)]. *)
Variable fetch : FetchRequest -> Completion Response.

(** [connectHttp(req, dstUrl)], with [targetUrl = new URL(dstUrl)]. *)
Definition connectHttp (req : Streams.Request) (dstUrl : string)
  (targetUrl : Completion URL) : Completion Response :=
  match targetUrl with
  | Throw e => Throw e
  | Normal targetUrl =>
      match fetch (fetchRequest req dstUrl targetUrl) with
      | Normal r => Normal r
      | Throw error => Normal (BaseProxy.handleError error "Fetch connection" None)
      end
  end.

(** [handleDnsQuery(req)]: every exception is caught. *)
Definition handleDnsQuery (config : Config) (req : Streams.Request) : Response :=
  match fetch (dnsRequest config req) with
  | Normal r => r
  | Throw error =>
      BaseProxy.handleError error "Fetch DNS query handling" (Some 502%Z)
  end.

End Fetch.

End FetchProxy.

(* ================================================================== *)
(** ** proxies/third-party.js and proxies/cloud-provider.js *)
(* ================================================================== *)

Module ThirdPartyProxy.

(** [connectHttp] builds the proxy request with [headers: req.headers]:
    the inbound headers, not filtered. *)
Definition upstreamHeaders (inbound : Headers.t) (targetUrl : URL) : Headers.t :=
  inbound.

End ThirdPartyProxy.

Module CloudProviderProxy.

Definition upstreamHeaders (inbound : Headers.t) (targetUrl : URL) : Headers.t :=
  inbound.

End CloudProviderProxy.

(* ================================================================== *)
(** ** proxies/socks5.js: [Socks5Proxy] *)
(* ================================================================== *)

Module Socks5Proxy.

(** [this.parsedSocks5Address]. *)
Record Socks5Address : Type := mkSocks5Address {
  username : option string;
  password : option string;
  proxyHostname : string;
  proxyPort : JS.JSNumber
}.

Definition invalidFormat : Error := mkError "Invalid SOCKS address format".

Definition isLineTerminator (c : ascii) : bool :=
  Ascii.eqb c (ascii_of_nat 10) || Ascii.eqb c (ascii_of_nat 13).

(** [/^\[.*\]$/.test(hostname)]. *)
Definition bracketed (hostname : string) : bool :=
  match hostname with
  | String "[" rest =>
      match JS.reverseString rest with
      | String "]" middle =>
          forallb (fun c => negb (isLineTerminator c)) (list_ascii_of_string middle)
      | _ => false
      end
  | _ => false
  end.

(** [parseSocks5Address(address)]. *)
Definition parseSocks5Address (address : string) : Completion Socks5Address :=
  let parts := rev (JS.split "@" address) in
  let latter := nth 0 parts "" in
  let former := nth_error parts 1 in
  let credentials : Completion (option string * option string) :=
    match former with
    | Some former =>
        if JS.truthy former then
          let formers := JS.split ":" former in
          if negb (List.length formers =? 2)%nat then Throw invalidFormat
          else Normal (nth_error formers 0, nth_error formers 1)
        else Normal (None, None)
    | None => Normal (None, None)
    end in
  match credentials with
  | Throw e => Throw e
  | Normal (username, password) =>
      let latters := JS.split ":" latter in
      let port := JS.Number (last latters "") in
      if JS.isNaN port then Throw invalidFormat
      else
        let hostname := JS.join ":" (removelast latters) in
        if JS.includes hostname ":" && negb (bracketed hostname)
        then Throw invalidFormat
        else Normal (mkSocks5Address username password hostname port)
  end.

(** The constructor: [this.parsedSocks5Address =
    this.parseSocks5Address(config.SOCKS5_ADDRESS)]. *)
Definition new (config : Config) : Completion Socks5Address :=
  parseSocks5Address (SOCKS5_ADDRESS config).

(** [!s] on a string that may be undefined. *)
Definition missing (s : option string) : bool :=
  match s with
  | Some s => negb (JS.truthy s)
  | None => true
  end.

(** [res[i] === n]. *)
Definition isByte (x : option Z) (n : Z) : bool :=
  match x with
  | Some v => (v =? n)%Z
  | None => false
  end.

(** [`${res[i]}`]. *)
Definition show (x : option Z) : string :=
  match x with
  | Some v => JS.showZ v
  | None => "undefined"
  end.

Definition socksGreeting : JS.Uint8Array := [5; 2; 0; 2]%Z.

(** The sub-negotiation of the username and password method.
    [username.length] and [encoder.encode(username)] are the length and
    the bytes of an ASCII name; so for the password. *)
Definition authenticate (addr : Socks5Address) : Net.IO unit :=
  match username addr, password addr with
  | Some username, Some password =>
      if negb (JS.truthy username) || negb (JS.truthy password)
      then Net.throw (mkError "please provide username/password")
      else
        let authRequest :=
          [1%Z; JS.u8 (Z.of_nat (String.length username))]
          ++ JS.encode username
          ++ [JS.u8 (Z.of_nat (String.length password))]
          ++ JS.encode password in
        Net.write authRequest ;;;
        res <- Net.readValue ;;
        r0 <- Net.at_index res 0 ;;
        if negb (isByte r0 1) then Net.throw (mkError "fail to auth socks server")
        else
          r1 <- Net.at_index res 1 ;;
          if negb (isByte r1 0) then Net.throw (mkError "fail to auth socks server")
          else Net.ret tt
  | _, _ => Net.throw (mkError "please provide username/password")
  end.

(** [DSTADDR = ATYP + DST.ADDR] by [addressType]. *)
Definition DSTADDR (addressType : Z) (addressRemote : string)
  : Completion JS.Uint8Array :=
  if (addressType =? 1)%Z then
    Normal (1%Z :: map (fun x => JS.toUint8 (JS.Number x)) (JS.split "." addressRemote))
  else if (addressType =? 2)%Z then
    Normal ([3%Z; JS.u8 (Z.of_nat (String.length addressRemote))]
            ++ JS.encode addressRemote)
  else if (addressType =? 3)%Z then
    Normal (4%Z :: flat_map
                     (fun x => [JS.toUint8_int (JS.parseInt (JS.takeString 2 x) 16);
                                JS.toUint8_int (JS.parseInt (JS.dropString 2 x) 16)])
                     (JS.split ":" addressRemote))
  else Throw (mkError ("invalid addressType is " ++ JS.showZ addressType)).

(** The exchange of [socks5Connect] on the socket opened to the SOCKS
    server. *)
Definition negotiate (addr : Socks5Address) (addressType : Z)
  (addressRemote : string) (portRemote : Z) : Net.IO unit :=
  Net.write socksGreeting ;;;
  res <- Net.readValue ;;
  r0 <- Net.at_index res 0 ;;
  if negb (isByte r0 5) then
    Net.throw (mkError ("socks server version error: " ++ show r0 ++ " expected: 5"))
  else
    r1 <- Net.at_index res 1 ;;
    if isByte r1 255 then Net.throw (mkError "no acceptable methods")
    else
      (if isByte r1 2 then authenticate addr else Net.ret tt) ;;;
      match DSTADDR addressType addressRemote with
      | Throw e => Net.throw e
      | Normal dstaddr =>
          let socksRequest :=
            [5; 1; 0]%Z ++ dstaddr
            ++ [JS.u8 (Z.shiftr portRemote 8); JS.u8 (Z.land portRemote 255)] in
          Net.write socksRequest ;;;
          res <- Net.readValue ;;
          r1 <- Net.at_index res 1 ;;
          if isByte r1 0 then Net.ret tt
          else Net.throw (mkError "fail to open socks connection")
      end.

(** [socks5Connect(addressType, addressRemote, portRemote)] against the
    SOCKS server [server]: the socket as it is left, and whether the call
    returned it or threw.  Nothing is written when [connect] throws. *)
Definition socks5Connect (addr : Socks5Address) (server : Net.Peer)
  (addressType : Z) (addressRemote : string) (portRemote : Z)
  : Net.Sock * Completion unit :=
  match Net.connect server with
  | Throw e => (Net.mkSock server [] [], Throw e)
  | Normal socket => negotiate addr addressType addressRemote portRemote socket
  end.

(** The headers [connectHttp] sends: as in the socket transport. *)
Definition upstreamHeaders (inbound : Headers.t) (targetUrl : URL) : Headers.t :=
  let cleanedHeaders := BaseProxy.filterHeaders inbound in
  let cleanedHeaders := Headers.set cleanedHeaders "Host" (hostname targetUrl) in
  Headers.set cleanedHeaders "accept-encoding" "identity".

(** The port [connectHttp] asks the SOCKS server to reach:
    [Number(targetUrl.port) || (targetUrl.protocol === "https:" ? 443 : 80)]. *)
Definition httpPort (targetUrl : URL) : JS.JSNumber :=
  let explicit := JS.Number (port targetUrl) in
  if JS.truthyJSNumber explicit then explicit
  else JS.Finite (if String.eqb (protocol targetUrl) "https:" then 443 else 80) 0.

End Socks5Proxy.

(* ================================================================== *)
(** ** proxies/socket.js: [SocketProxy] *)
(* ================================================================== *)

(** A transport instance built for a fallback. *)
Inductive ProxyInstance : Type :=
| FetchInstance (config : Config)
| Socks5Instance (config : Config) (parsedSocks5Address : Socks5Proxy.Socks5Address)
| ThirdPartyInstance (config : Config)
| CloudProviderInstance (config : Config).

(** How a [connectHttp] call ends: it returns a response, it throws, or
    it returns what [fallbackProxy.connectHttp(req, dstUrl)] returns. *)
Inductive Outcome : Type :=
| Returned (r : Response)
| Thrown (e : Error)
| Fallback (fallbackProxy : ProxyInstance) (req : Streams.Request) (dstUrl : string).

Module SocketProxy.

(** [isCloudflareNetworkError(error)]: [error.message && (...)]. *)
Definition isCloudflareNetworkError (error : Error) : bool :=
  JS.truthy (message error) &&
  (JS.includes (message error) "A network issue was detected" ||
   JS.includes (message error) "Network connection failure" ||
   JS.includes (message error) "connection failed" ||
   JS.includes (message error) "timed out" ||
   JS.includes (message error) "Stream was cancelled" ||
   JS.includes (message error) "proxy request failed" ||
   JS.includes (message error) "cannot connect to the specified address" ||
   JS.includes (message error) "TCP Loop detected" ||
   JS.includes (message error) "Connections to port 25 are prohibited").

(** The headers [connectHttp] sends: [filterHeaders(req.headers)] with
    [Host] and [accept-encoding] set. *)
Definition upstreamHeaders (inbound : Headers.t) (targetUrl : URL) : Headers.t :=
  let cleanedHeaders := BaseProxy.filterHeaders inbound in
  let cleanedHeaders := Headers.set cleanedHeaders "Host" (hostname targetUrl) in
  Headers.set cleanedHeaders "accept-encoding" "identity".

(** The arguments of [connect] in [connectHttp]:
    [const port = targetUrl.protocol === "https:" ? 443 : 80],
    [{ hostname: targetUrl.hostname, port: Number(port) }] and
    [secureTransport: targetUrl.protocol === "https:" ? "on" : "off"]. *)
Record SocketTarget : Type := mkSocketTarget {
  target_hostname : string;
  target_port : JS.JSNumber;
  secureTransport : bool
}.

Definition httpTarget (targetUrl : URL) : SocketTarget :=
  let port := if String.eqb (protocol targetUrl) "https:" then 443%Z else 80%Z in
  {| target_hostname := hostname targetUrl;
     target_port := JS.Finite port 0;
     secureTransport := String.eqb (protocol targetUrl) "https:" |}.

(** The arguments of [connect] in [connectWebSocket]:
    [const port = targetUrl.port || (isSecure ? 443 : 80)], then
    [port: Number(port)]. *)
Definition webSocketTarget (targetUrl : URL) : SocketTarget :=
  let isSecure := String.eqb (protocol targetUrl) "wss:" in
  let port :=
    if JS.truthy (port targetUrl) then JS.Number (port targetUrl)
    else JS.Finite (if isSecure then 443 else 80) 0 in
  {| target_hostname := hostname targetUrl;
     target_port := port;
     secureTransport := isSecure |}.

(** The body loop of [connectHttp]: each chunk read from [req.body] is
    written to the socket.  Returns the chunks left unread. *)
Fixpoint forwardChunks (chunks : list JS.Uint8Array) (socket : Net.Sock)
  : list JS.Uint8Array * Net.Sock * Completion unit :=
  match chunks with
  | [] => ([], socket, Normal tt)
  | value :: rest =>
      match Net.write value socket with
      | (socket, Throw e) => (rest, socket, Throw e)
      | (socket, Normal _) => forwardChunks rest socket
      end
  end.

Definition forwardBody (st : Streams.Store) (req : Streams.Request)
  (socket : Net.Sock) : Streams.Store * Net.Sock * Completion unit :=
  match Streams.requestBody req with
  | None => (st, socket, Normal tt)
  | Some id =>
      match nth_error st id with
      | None => (st, socket, Throw (mkError "Body is unusable"))
      | Some s =>
          let '(unread, socket, c) := forwardChunks (Streams.remaining s) socket in
          (Streams.update st id (Streams.mkBodyStream unread true), socket, c)
      end
  end.

(** The fallback transport: [config.FALLBACK_PROXY_STRATEGY || "fetch"]
    selects the class, whose constructor runs on
    [{ ...this.config, PROXY_STRATEGY: fallbackStrategy }]. *)
Definition fallbackStrategy (config : Config) : string :=
  if JS.truthy (FALLBACK_PROXY_STRATEGY config)
  then FALLBACK_PROXY_STRATEGY config else "fetch".

Definition fallbackConfig (config : Config) : Config :=
  {| AUTH_TOKEN := AUTH_TOKEN config;
     DEFAULT_DST_URL := DEFAULT_DST_URL config;
     DEBUG_MODE := DEBUG_MODE config;
     PROXY_STRATEGY := fallbackStrategy config;
     FALLBACK_PROXY_STRATEGY := FALLBACK_PROXY_STRATEGY config;
     SOCKS5_ADDRESS := SOCKS5_ADDRESS config;
     THIRD_PARTY_PROXY_URL := THIRD_PARTY_PROXY_URL config;
     CLOUD_PROVIDER_URL := CLOUD_PROVIDER_URL config;
     DOH_SERVER_HOSTNAME := DOH_SERVER_HOSTNAME config;
     DOH_SERVER_PORT := DOH_SERVER_PORT config;
     DOH_SERVER_PATH := DOH_SERVER_PATH config;
     DOT_SERVER_HOSTNAME := DOT_SERVER_HOSTNAME config;
     DOT_SERVER_PORT := DOT_SERVER_PORT config |}.

Definition fallbackProxy (config : Config) : Completion ProxyInstance :=
  let strategy := JS.toLowerCase (fallbackStrategy config) in
  let fallbackConfig := fallbackConfig config in
  if String.eqb strategy "fetch" then Normal (FetchInstance fallbackConfig)
  else if String.eqb strategy "socks5" then
    match Socks5Proxy.new fallbackConfig with
    | Normal parsed => Normal (Socks5Instance fallbackConfig parsed)
    | Throw e => Throw e
    end
  else if String.eqb strategy "thirdparty" then Normal (ThirdPartyInstance fallbackConfig)
  else if String.eqb strategy "cloudprovider" then Normal (CloudProviderInstance fallbackConfig)
  else Normal (FetchInstance fallbackConfig).

(** What a [connectHttp] call leaves behind and how it ends. *)
Record Result : Type := mkResult {
  store : Streams.Store;
  socketWrites : list JS.Uint8Array;
  outcome : Outcome
}.

Section ConnectHttp.

Variable parseHttpHeaders : JS.Uint8Array -> Completion (option BaseProxy.ParsedHead).

(** The network: the peer reached by [connect] for a socket target. *)
Variable network : SocketTarget -> Net.Peer.

(** The body of the [try] block of [connectHttp]. *)
Definition attempt (st : Streams.Store) (req : Streams.Request)
  (targetUrl : URL) (cleanedHeaders : Headers.t)
  : Streams.Store * list JS.Uint8Array * Completion Response :=
  match Net.connect (network (httpTarget targetUrl)) with
  | Throw e => (st, [], Throw e)
  | Normal socket =>
      let requestLine := requestHead (Streams.method req) targetUrl cleanedHeaders in
      match Net.write (JS.encode requestLine) socket with
      | (socket, Throw e) => (st, Net.written socket, Throw e)
      | (socket, Normal _) =>
          match forwardBody st req socket with
          | (st, socket, Throw e) => (st, Net.written socket, Throw e)
          | (st, socket, Normal _) =>
              (st, Net.written socket,
               BaseProxy.parseResponse parseHttpHeaders (Net.pending socket))
          end
      end
  end.

(** The fallback branch of the [catch] block: the fallback transport is
    built and its [connectHttp] is called on the clone. *)
Definition reissue (config : Config) (reqForFallback : Streams.Request)
  (dstUrl : string) : Outcome :=
  match fallbackProxy config with
  | Throw e => Thrown e
  | Normal proxy => Fallback proxy reqForFallback dstUrl
  end.

(** [connectHttp(req, dstUrl)], with [targetUrl] the completion of
    [new URL(dstUrl)]. *)
Definition connectHttp (config : Config) (st : Streams.Store)
  (req : Streams.Request) (dstUrl : string) (targetUrl : Completion URL)
  : Result :=
  match Streams.clone st req with
  | (st, Throw e) => mkResult st [] (Thrown e)
  | (st, Normal reqForFallback) =>
      match targetUrl with
      | Throw e => mkResult st [] (Thrown e)
      | Normal targetUrl =>
          let cleanedHeaders := upstreamHeaders (Streams.requestHeaders req) targetUrl in
          match attempt st req targetUrl cleanedHeaders with
          | (st, writes, Normal response) => mkResult st writes (Returned response)
          | (st, writes, Throw error) =>
              if isCloudflareNetworkError error then
                mkResult st writes (reissue config reqForFallback dstUrl)
              else
                mkResult st writes
                  (Returned (BaseProxy.handleError error "Socket connection" None))
          end
      end
  end.

(** [/^wss?:\/\//i.test(dstUrl)]. *)
Definition isWebSocketUrl (dstUrl : string) : bool :=
  let lowered := JS.toLowerCase dstUrl in
  JS.startsWith lowered "ws://" || JS.startsWith lowered "wss://".

(** The headers of the handshake request; [key] is what
    [generateWebSocketKey()] returns. *)
Definition handshakeHeaders (inbound : Headers.t) (targetUrl : URL) (key : string)
  : Headers.t :=
  let cleanedHeaders := BaseProxy.filterHeaders inbound in
  let cleanedHeaders := Headers.set cleanedHeaders "Host" (hostname targetUrl) in
  let cleanedHeaders := Headers.set cleanedHeaders "Connection" "Upgrade" in
  let cleanedHeaders := Headers.set cleanedHeaders "Upgrade" "websocket" in
  let cleanedHeaders := Headers.set cleanedHeaders "Sec-WebSocket-Version" "13" in
  Headers.set cleanedHeaders "Sec-WebSocket-Key" key.

(** How a [connectWebSocket] call ends: it returns a response without
    upgrading, it throws, or it returns the 101 response after starting
    the relay, whose reading task does [relay]. *)
Inductive WebSocketOutcome : Type :=
| WsReturned (r : Response)
| WsThrown (e : Error)
| WsUpgraded (relay : list BaseProxy.RelayAction).

Record WebSocketResult : Type := mkWebSocketResult {
  handshakeWrites : list JS.Uint8Array;
  webSocketOutcome : WebSocketOutcome
}.

(** [connectWebSocket(req, dstUrl)], with [targetUrl] the completion of
    [new URL(dstUrl)].  What the client sends after the upgrade arrives by
    events and is not part of the call. *)
Definition connectWebSocket (key : string) (req : Streams.Request)
  (dstUrl : string) (targetUrl : Completion URL) : WebSocketResult :=
  match targetUrl with
  | Throw e => mkWebSocketResult [] (WsThrown e)
  | Normal targetUrl =>
      if negb (isWebSocketUrl dstUrl) then
        mkWebSocketResult []
          (WsReturned (textResponse "Target does not support WebSocket" 400))
      else
        match Net.connect (network (webSocketTarget targetUrl)) with
        | Throw e => mkWebSocketResult [] (WsThrown e)
        | Normal socket =>
            let cleanedHeaders :=
              handshakeHeaders (Streams.requestHeaders req) targetUrl key in
            let handshakeReq := requestHead "GET" targetUrl cleanedHeaders in
            match Net.write (JS.encode handshakeReq) socket with
            | (socket, Throw e) => mkWebSocketResult (Net.written socket) (WsThrown e)
            | (socket, Normal _) =>
                match BaseProxy.readUntilDoubleCRLF (Net.pending socket) with
                | (_, Throw e) => mkWebSocketResult (Net.written socket) (WsThrown e)
                | (reader, Normal handshakeResp) =>
                    if negb (JS.includes handshakeResp "101")
                       || negb (JS.includes handshakeResp "Switching Protocols")
                    then
                      mkWebSocketResult (Net.written socket)
                        (WsThrown (mkError ("WebSocket handshake failed: "
                                            ++ handshakeResp)))
                    else
                      mkWebSocketResult (Net.written socket)
                        (WsUpgraded (BaseProxy.relayFrames reader))
                end
            end
        end
  end.

End ConnectHttp.

End SocketProxy.

(* ================================================================== *)
(** ** proxies/dot.js: [DoTProxy] *)
(* ================================================================== *)

Module DoTProxy.

(** [this.UPSTREAM_DOT_SERVER]. *)
Definition UPSTREAM_DOT_SERVER (config : Config) : string * Z :=
  (if JS.truthy (DOT_SERVER_HOSTNAME config)
   then DOT_SERVER_HOSTNAME config else "some-niche-dns.com",
   if (DOT_SERVER_PORT config =? 0)%Z then 853%Z else DOT_SERVER_PORT config).

(** The query with its two-byte big-endian length in front
    ([setUint16(0, queryLength, false)]). *)
Definition dotRequest (clientDnsQuery : JS.Uint8Array) : JS.Uint8Array :=
  let queryLength := (Z.of_nat (List.length clientDnsQuery) mod 65536)%Z in
  [JS.u8 (Z.shiftr queryLength 8); JS.u8 queryLength] ++ clientDnsQuery.

(** The read loop: chunks are collected until the stream is done. *)
Fixpoint readAll (reader : Reader) : Completion (list JS.Uint8Array) :=
  match reader with
  | [] => Normal []
  | Chunk value :: rest =>
      match readAll rest with
      | Normal responseChunks => Normal (value :: responseChunks)
      | Throw e => Throw e
      end
  | ReadError e :: _ => Throw e
  end.

(** The part of the [try] block after [req.arrayBuffer()]: the exchange
    over the TLS socket.  What was written to the socket, and how the
    block ends. *)
Definition exchangeOnSocket (server : Net.Peer) (clientDnsQuery : JS.Uint8Array)
  : list JS.Uint8Array * Completion Response :=
  match Net.connect server with
  | Throw e => ([], Throw e)
  | Normal socket =>
      match Net.write (dotRequest clientDnsQuery) socket with
      | (socket, Throw e) => (Net.written socket, Throw e)
      | (socket, Normal _) =>
          match readAll (Net.pending socket) with
          | Throw e => (Net.written socket, Throw e)
          | Normal responseChunks =>
              match Net.close socket with
              | (socket, Throw e) => (Net.written socket, Throw e)
              | (socket, Normal _) =>
                  let fullResponse := List.concat responseChunks in
                  match fullResponse with
                  | hi :: lo :: _ =>
                      let responseLength := (hi * 256 + lo)%Z in
                      let dnsResponse :=
                        JS.slice fullResponse 2 (Some (2 + responseLength)%Z) in
                      (Net.written socket,
                       Normal {| status := 200;
                                 statusText := "";
                                 headers := [("content-type", "application/dns-message")];
                                 body := Bytes dnsResponse |})
                  | _ =>
                      (Net.written socket,
                       Throw (mkError "Offset is outside the bounds of the DataView"))
                  end
              end
          end
      end
  end.

(** How the block ends. *)
Definition exchange (server : Net.Peer) (clientDnsQuery : JS.Uint8Array)
  : Completion Response :=
  snd (exchangeOnSocket server clientDnsQuery).

Section HandleDnsQuery.

Variable fetch : FetchRequest -> Completion Response.

(** The request of the DoH fallback. *)
Definition fallbackRequest (config : Config) (clientDnsQuery : option JS.Uint8Array)
  : FetchRequest :=
  let upstreamDnsUrl :=
    ("https://" ++ DOH_SERVER_HOSTNAME config
     ++ (if JS.truthy (DOH_SERVER_PATH config)
         then DOH_SERVER_PATH config else "/dns-query"))%string in
  let dohHeaders := Headers.set [] "Host" (DOH_SERVER_HOSTNAME config) in
  let dohHeaders := Headers.set dohHeaders "Content-Type" "application/dns-message" in
  let dohHeaders := Headers.set dohHeaders "Accept" "application/dns-message" in
  mkFetchRequest upstreamDnsUrl "POST" dohHeaders
    (match clientDnsQuery with
     | Some bytes => BufferBody bytes
     | None => NoFetchBody
     end).

(** [handleDnsQuery(req)], against the DoT server [server]. *)
Definition handleDnsQuery (config : Config) (server : Net.Peer)
  (st : Streams.Store) (req : Streams.Request) : Streams.Store * Response :=
  if negb (String.eqb (Streams.method req) "POST")
     || negb (match Headers.get (Streams.requestHeaders req) "content-type" with
              | Some v => String.eqb v "application/dns-message"
              | None => false
              end)
  then (st, textResponse "This is a DNS proxy. Please use a DoT client." 400)
  else
    let '(st, query) := Streams.arrayBuffer st req in
    let '(clientDnsQuery, socketAttempt) :=
      match query with
      | Normal bytes => (Some bytes, exchange server bytes)
      | Throw e => (None, Throw e)
      end in
    match socketAttempt with
    | Normal response => (st, response)
    | Throw socketError =>
        match fetch (fallbackRequest config clientDnsQuery) with
        | Normal response => (st, response)
        | Throw fallbackError =>
            (st, BaseProxy.handleError fallbackError
                   "DoT and subsequent DoH fallback" None)
        end
    end.

End HandleDnsQuery.

End DoTProxy.

(* ================================================================== *)
(** ** proxies/doh.js: [DoHProxy] *)
(* ================================================================== *)

Module DoHProxy.

(** [this.UPSTREAM_DOH_SERVER]. *)
Record Server : Type := mkServer {
  server_hostname : string;
  server_port : Z;
  server_path : string
}.

Definition UPSTREAM_DOH_SERVER (config : Config) : Server :=
  {| server_hostname :=
       if JS.truthy (DOH_SERVER_HOSTNAME config)
       then DOH_SERVER_HOSTNAME config else "dns.google";
     server_port :=
       if (DOH_SERVER_PORT config =? 0)%Z then 443%Z else DOH_SERVER_PORT config;
     server_path :=
       if JS.truthy (DOH_SERVER_PATH config)
       then DOH_SERVER_PATH config else "/dns-query" |}.

(** The headers of the request written to the socket; [byteLength] is
    [clientDnsQuery.byteLength]. *)
Definition upstreamHeaders (config : Config) (inbound : Headers.t) (byteLength : nat)
  : Headers.t :=
  let cleanedHeaders := BaseProxy.filterHeaders inbound in
  let cleanedHeaders :=
    Headers.set cleanedHeaders "Host" (server_hostname (UPSTREAM_DOH_SERVER config)) in
  let cleanedHeaders :=
    Headers.set cleanedHeaders "Content-Type" "application/dns-message" in
  let cleanedHeaders :=
    Headers.set cleanedHeaders "Content-Length" (JS.showZ (Z.of_nat byteLength)) in
  let cleanedHeaders := Headers.set cleanedHeaders "Accept" "application/dns-message" in
  Headers.set cleanedHeaders "Connection" "close".

(** [fullRequest]: the head of the POST request, then the query. *)
Definition fullRequest (config : Config) (inbound : Headers.t)
  (clientDnsQuery : JS.Uint8Array) : JS.Uint8Array :=
  let cleanedHeaders := upstreamHeaders config inbound (List.length clientDnsQuery) in
  let httpHeaders :=
    ("POST " ++ server_path (UPSTREAM_DOH_SERVER config) ++ " HTTP/1.1" ++ CRLF
     ++ JS.join CRLF
          (map (fun kv => fst kv ++ ": " ++ snd kv) (Headers.entries cleanedHeaders))
     ++ CRLF ++ CRLF)%string in
  let requestHeaderBytes := JS.encode httpHeaders in
  requestHeaderBytes ++ clientDnsQuery.

(** The read loop: every chunk is appended to [responseBytes] until the
    stream is done. *)
Fixpoint readAll (reader : Reader) (responseBytes : JS.Uint8Array)
  : Completion JS.Uint8Array :=
  match reader with
  | [] => Normal responseBytes
  | Chunk value :: rest => readAll rest (responseBytes ++ value)
  | ReadError e :: _ => Throw e
  end.

(** The search for the separator: the first [i] with the bytes 13, 10,
    13, 10 at [i]; [None] is [separatorIndex = -1]. *)
Fixpoint findSeparator (responseBytes : JS.Uint8Array) : option nat :=
  match responseBytes with
  | [] => None
  | a :: rest =>
      match rest with
      | b :: c :: d :: _ =>
          if ((a =? 13) && (b =? 10) && (c =? 13) && (d =? 10))%Z then Some 0%nat
          else option_map S (findSeparator rest)
      | _ => None
      end
  end.

(** The part of the [try] block after [req.arrayBuffer()]: the exchange
    over the TLS socket. *)
Definition exchange (server : Net.Peer) (fullRequest : JS.Uint8Array)
  : Completion Response :=
  match Net.connect server with
  | Throw e => Throw e
  | Normal socket =>
      match Net.write fullRequest socket with
      | (_, Throw e) => Throw e
      | (socket, Normal _) =>
          match readAll (Net.pending socket) [] with
          | Throw e => Throw e
          | Normal responseBytes =>
              match Net.close socket with
              | (_, Throw e) => Throw e
              | (_, Normal _) =>
                  match findSeparator responseBytes with
                  | None =>
                      Throw (mkError
                        "Could not find HTTP header/body separator in response.")
                  | Some separatorIndex =>
                      let dnsResponseBody :=
                        JS.slice responseBytes (Z.of_nat separatorIndex + 4) None in
                      Normal {| status := 200;
                                statusText := "";
                                headers := [("content-type", "application/dns-message")];
                                body := Bytes dnsResponseBody |}
                  end
              end
          end
      end
  end.

(** [new Request(req.url, { method: req.method, headers: req.headers,
    body: clientDnsQuery })]: the body is a stream of its own over the
    bytes read before, or none when they were not read. *)
Definition fallbackRequest (st : Streams.Store) (req : Streams.Request)
  (clientDnsQuery : option JS.Uint8Array) : Streams.Store * Streams.Request :=
  match clientDnsQuery with
  | Some bytes =>
      (st ++ [Streams.mkBodyStream [bytes] false],
       Streams.mkRequest (Streams.method req) (Streams.requestHeaders req)
         (Some (List.length st)))
  | None =>
      (st, Streams.mkRequest (Streams.method req) (Streams.requestHeaders req) None)
  end.

Section HandleDnsQuery.

Variable fetch : FetchRequest -> Completion Response.

(** [handleDnsQuery(req)], against the DoH server [server].  The
    fallback is [new FetchProxy(this.config).handleDnsQuery(fallbackRequest)]. *)
Definition handleDnsQuery (config : Config) (server : Net.Peer)
  (st : Streams.Store) (req : Streams.Request) : Streams.Store * Response :=
  if negb (String.eqb (Streams.method req) "POST")
     || negb (match Headers.get (Streams.requestHeaders req) "content-type" with
              | Some v => String.eqb v "application/dns-message"
              | None => false
              end)
  then (st, textResponse "This is a DNS proxy. Please use a DoH client." 400)
  else
    let '(st, query) := Streams.arrayBuffer st req in
    let '(clientDnsQuery, socketAttempt) :=
      match query with
      | Normal bytes =>
          (Some bytes,
           exchange server (fullRequest config (Streams.requestHeaders req) bytes))
      | Throw e => (None, Throw e)
      end in
    match socketAttempt with
    | Normal response => (st, response)
    | Throw error =>
        let '(st, fallbackRequest) := fallbackRequest st req clientDnsQuery in
        let fallback : Completion Response :=
          Normal (FetchProxy.handleDnsQuery fetch config fallbackRequest) in
        match fallback with
        | Normal response => (st, response)
        | Throw fallbackError =>
            (st, BaseProxy.handleError fallbackError "DoH proxying with connect"
                   (Some 502%Z))
        end
    end.

End HandleDnsQuery.

End DoHProxy.

(* ================================================================== *)
(** ** proxy-factory.js: [ProxyFactory] *)
(* ================================================================== *)

Module ProxyFactory.

(** The instance [createProxy] returns, by class.  The constructor of
    [Socks5Proxy] parses the SOCKS5 address. *)
Inductive Proxy : Type :=
| NewSocketProxy (config : Config)
| NewFetchProxy (config : Config)
| NewSocks5Proxy (config : Config) (parsedSocks5Address : Socks5Proxy.Socks5Address)
| NewThirdPartyProxy (config : Config)
| NewCloudProviderProxy (config : Config)
| NewDoHProxy (config : Config)
| NewDoTProxy (config : Config).

(** [static createProxy(config)]. *)
Definition createProxy (config : Config) : Completion Proxy :=
  let strategy :=
    if JS.truthy (PROXY_STRATEGY config) then PROXY_STRATEGY config else "socket" in
  let strategy := JS.toLowerCase strategy in
  if String.eqb strategy "socket" then Normal (NewSocketProxy config)
  else if String.eqb strategy "fetch" then Normal (NewFetchProxy config)
  else if String.eqb strategy "socks5" then
    match Socks5Proxy.new config with
    | Normal parsed => Normal (NewSocks5Proxy config parsed)
    | Throw e => Throw e
    end
  else if String.eqb strategy "thirdparty" then Normal (NewThirdPartyProxy config)
  else if String.eqb strategy "cloudprovider" then Normal (NewCloudProviderProxy config)
  else if String.eqb strategy "doh" then Normal (NewDoHProxy config)
  else if String.eqb strategy "dot" then Normal (NewDoTProxy config)
  else Normal (NewSocketProxy config).

End ProxyFactory.

(* ================================================================== *)
(** ** main.js: [ShadowProxy] *)
(* ================================================================== *)

Module ShadowProxy.

(** [url.pathname.split("/").filter(Boolean)]. *)
Definition pathParts (url : URL) : list string :=
  JS.filter_Boolean (JS.split "/" (pathname url)).

(** [static parseDestinationUrl(req, config)], on [new URL(req.url)].
    The destructuring [const [auth, protocol, ...path] = parts] leaves
    [auth] and [protocol] undefined when the array is too short. *)
Definition parseDestinationUrl (url : URL) (config : Config) : string :=
  let parts := pathParts url in
  let auth := nth_error parts 0 in
  let protocol := nth_error parts 1 in
  let path := skipn 2 parts in
  let isValid :=
    match auth with
    | Some a => String.eqb a (AUTH_TOKEN config)
    | None => false
    end in
  match protocol with
  | Some protocol =>
      if isValid && JS.truthy protocol then
        if JS.endsWithChar protocol ":" then
          protocol ++ "//" ++ JS.join "/" path ++ search url
        else
          protocol ++ "://" ++ JS.join "/" path ++ search url
      else DEFAULT_DST_URL config
  | None => DEFAULT_DST_URL config
  end.

(** [{ ...config, PROXY_STRATEGY: proxyStrategy }]. *)
Definition withStrategy (config : Config) (proxyStrategy : string) : Config :=
  {| AUTH_TOKEN := AUTH_TOKEN config;
     DEFAULT_DST_URL := DEFAULT_DST_URL config;
     DEBUG_MODE := DEBUG_MODE config;
     PROXY_STRATEGY := proxyStrategy;
     FALLBACK_PROXY_STRATEGY := FALLBACK_PROXY_STRATEGY config;
     SOCKS5_ADDRESS := SOCKS5_ADDRESS config;
     THIRD_PARTY_PROXY_URL := THIRD_PARTY_PROXY_URL config;
     CLOUD_PROVIDER_URL := CLOUD_PROVIDER_URL config;
     DOH_SERVER_HOSTNAME := DOH_SERVER_HOSTNAME config;
     DOH_SERVER_PORT := DOH_SERVER_PORT config;
     DOH_SERVER_PATH := DOH_SERVER_PATH config;
     DOT_SERVER_HOSTNAME := DOT_SERVER_HOSTNAME config;
     DOT_SERVER_PORT := DOT_SERVER_PORT config |}.

(** What [handleRequest] does with a request: it returns the result of
    [proxy.handleDnsQuery(req)] or of [proxy.connect(req, dstUrl)], or an
    exception of a constructor reaches its [catch]. *)
Inductive Dispatch : Type :=
| HandleDnsQuery (proxy : ProxyFactory.Proxy)
| Connect (proxy : ProxyFactory.Proxy) (dstUrl : string)
| Caught (response : Response).

(** [static handleRequest(req, env, ctx)] up to the call it hands the
    request to, with [config] the result of
    [ConfigManager.updateConfigFromEnv(env)] and [url = new URL(req.url)]. *)
Definition handleRequest (config : Config) (url : URL) : Dispatch :=
  let parts := pathParts url in
  let dnsConfig :=
    if (3 <=? List.length parts)%nat && String.eqb (nth 1 parts "") "dns" then
      let auth := nth 0 parts "" in
      let dnsType := nth 2 parts "" in
      if String.eqb auth (AUTH_TOKEN config) then
        let proxyStrategy :=
          if String.eqb dnsType "doh" then "doh"
          else if String.eqb dnsType "dot" then "dot"
          else PROXY_STRATEGY config in
        Some (withStrategy config proxyStrategy)
      else None
    else None in
  match dnsConfig with
  | Some dnsConfig =>
      match ProxyFactory.createProxy dnsConfig with
      | Normal proxy => HandleDnsQuery proxy
      | Throw error => Caught (textResponse ("Error: " ++ message error) 500)
      end
  | None =>
      match ProxyFactory.createProxy config with
      | Normal proxy => Connect proxy (parseDestinationUrl url config)
      | Throw error => Caught (textResponse ("Error: " ++ message error) 500)
      end
  end.

End ShadowProxy.

(* ================================================================== *)
(** ** Concrete requests, peers and configurations used in examples *)
(* ================================================================== *)

Module Scenario.

Definition config : Config :=
  mkConfig "TOK" "https://default.example/" false "socket" "fetch"
    "" "" "" "dns.google" 443 "/dns-query" "dns.google" 853.

(** A configuration whose fallback is SOCKS5, with an address whose
    credentials part has no colon. *)
Definition socksFallbackConfig : Config :=
  mkConfig "TOK" "https://default.example/" false "socket" "socks5"
    "user@proxy.example:1080" "" "" "dns.google" 443 "/dns-query"
    "dns.google" 853.

Definition targetUrl : URL := mkURL "http:" "example.com" "" "/submit" "?a=1".

(** A POST request whose body, [hello world], arrives in two chunks. *)
Definition store : Streams.Store :=
  [Streams.mkBodyStream [JS.encode "hello"; JS.encode " world"] false].

Definition post : Streams.Request :=
  Streams.mkRequest "POST" [("Content-Type", "text/plain"); ("CF-Ray", "1")] (Some 0%nat).

(** A DNS query sent by POST. *)
Definition dnsStore : Streams.Store :=
  [Streams.mkBodyStream [[0; 1; 1; 0]%Z] false].

Definition dnsQuery : Streams.Request :=
  Streams.mkRequest "POST" [("Content-Type", "application/dns-message")] (Some 0%nat).

(** A peer whose [connect] throws. *)
Definition refusing (msg : string) : Net.Peer :=
  Net.mkPeer (Some (mkError msg)) (fun _ => None) [] None.

(** A peer that accepts the request head and rejects the next write. *)
Definition breakingAfterHead (msg : string) : Net.Peer :=
  Net.mkPeer None
    (fun n => match n with 1%nat => Some (mkError msg) | _ => None end) [] None.

(** A peer that accepts every write and sends the given chunks back. *)
Definition answering (chunks : list JS.Uint8Array) : Net.Peer :=
  Net.mkPeer None (fun _ => None) (map Chunk chunks) None.

(** A header parser that never finds a complete header block. *)
Definition noHead (buff : JS.Uint8Array) : Completion (option BaseProxy.ParsedHead) :=
  Normal None.

(** A [fetch] that always throws. *)
Definition failingFetch (msg : string) (request : FetchRequest) : Completion Response :=
  Throw (mkError msg).

End Scenario.

(* ================================================================== *)
(** ** Vocabulary of the properties *)
(* ================================================================== *)

(** [sub] occurs in [s]. *)
Definition occurs (sub s : string) : Prop :=
  exists pre post, s = (pre ++ sub ++ post)%string.

(** The nine messages of a network-restricted error. *)
Definition NETWORK_RESTRICTED : list string :=
  ["A network issue was detected"; "Network connection failure";
   "connection failed"; "timed out"; "Stream was cancelled";
   "proxy request failed"; "cannot connect to the specified address";
   "TCP Loop detected"; "Connections to port 25 are prohibited"].

Definition restricted (error : Error) : Prop :=
  exists sub, In sub NETWORK_RESTRICTED /\ occurs sub (message error).

(** A value that fits a [Uint8Array] element. *)
Definition byte (b : Z) : Prop := (0 <= b < 256)%Z.

(** The transports with an HTTP path, and the headers each puts on
    the upstream request for given inbound headers. *)
Inductive HttpTransport : Type :=
| SocketTransport
| FetchTransport
| Socks5Transport
| ThirdPartyTransport
| CloudProviderTransport.

Definition forwardedHeaders (t : HttpTransport) (inbound : Headers.t)
  (targetUrl : URL) : Headers.t :=
  match t with
  | SocketTransport => SocketProxy.upstreamHeaders inbound targetUrl
  | FetchTransport => FetchProxy.upstreamHeaders inbound targetUrl
  | Socks5Transport => Socks5Proxy.upstreamHeaders inbound targetUrl
  | ThirdPartyTransport => ThirdPartyProxy.upstreamHeaders inbound targetUrl
  | CloudProviderTransport => CloudProviderProxy.upstreamHeaders inbound targetUrl
  end.

(** The alternatives of the deny pattern
    [^(host|accept-encoding|cf-|cdn-|referer|referrer)]. *)
Definition DENY_PATTERN : list string :=
  ["host"; "accept-encoding"; "cf-"; "cdn-"; "referer"; "referrer"].

(** A header name matches the deny pattern, case being ignored. *)
Definition denied (name : string) : Prop :=
  exists prefix post,
    In prefix DENY_PATTERN /\ JS.toLowerCase name = (prefix ++ post)%string.

(** No header of the collection has a denied name, [Host] apart. *)
Definition onlyHostDenied (hs : Headers.t) : Prop :=
  forall name,
    Headers.has hs name = true -> denied name ->
    Headers.same_name name "host" = true.



(** The number of bytes in a list of chunks. *)
Definition totalLength (chunks : list JS.Uint8Array) : Z :=
  Z.of_nat (List.length (List.concat chunks)).

(** *** Chunked bodies, as the transfer coding defines them *)

(** The position of a character in a string of digits, counted from
    [i]. *)
Fixpoint position (c : ascii) (digits : string) (i : Z) : option Z :=
  match digits with
  | EmptyString => None
  | String d rest => if Ascii.eqb c d then Some i else position c rest (i + 1)
  end.

(** The value of a hexadecimal digit, in either case. *)
Definition hexDigit (c : ascii) : option Z :=
  match position c "0123456789abcdef" 0 with
  | Some d => Some d
  | None => position c "ABCDEF" 10
  end.

(** The number a string of hexadecimal digits denotes, after [acc]. *)
Fixpoint hexNumber (s : string) (acc : Z) : option Z :=
  match s with
  | EmptyString => Some acc
  | String c rest =>
      match hexDigit c with
      | Some d => hexNumber rest (acc * 16 + d)
      | None => None
      end
  end.

(** [line] is a size line for [n]: hexadecimal digits, at least one,
    denoting [n]. *)
Definition sizeLine (line : string) (n : Z) : Prop :=
  line <> "" /\ hexNumber line 0 = Some n.

(** One chunk on the wire: size line, CRLF, payload, CRLF. *)
Definition encodeChunk (chunk : string * JS.Uint8Array) : JS.Uint8Array :=
  JS.encode (fst chunk) ++ [13; 10]%Z ++ snd chunk ++ [13; 10]%Z.

(** A chunk with a non-empty payload whose size line gives its length. *)
Definition wellFormedChunk (chunk : string * JS.Uint8Array) : Prop :=
  sizeLine (fst chunk) (Z.of_nat (List.length (snd chunk))) /\ snd chunk <> [].

(** A chunked body: the chunks, the zero-size line [last] and, after its
    CRLF, whatever ends the body (trailer fields and the final CRLF). *)
Definition chunkedBody (chunks : list (string * JS.Uint8Array)) (last : string)
  (ending : JS.Uint8Array) : JS.Uint8Array :=
  List.concat (map encodeChunk chunks) ++ JS.encode last ++ [13; 10]%Z ++ ending.

(** *** WebSocket frames, as the protocol defines them *)

(** The payload XORed with the mask, byte [i] with mask byte [i mod 4]. *)
Definition xorMask (mask payload : JS.Uint8Array) : JS.Uint8Array :=
  map (fun ip => Z.lxor (snd ip) (nth (fst ip mod 4) mask 0%Z))
    (combine (seq 0 (List.length payload)) payload).

(** A WebSocket frame on the wire (RFC 6455, payloads below 65536 bytes):
    FIN bit and opcode, MASK bit and length (7 bits, or 126 and two bytes,
    high byte first), the mask if any, the payload, masked if there is a
    mask. *)
Definition encodeFrame (fin : bool) (opcode : Z) (mask : option JS.Uint8Array)
  (payload : JS.Uint8Array) : JS.Uint8Array :=
  let len := Z.of_nat (List.length payload) in
  let maskBit := match mask with Some _ => 128%Z | None => 0%Z end in
  [((if fin then 128 else 0) + opcode)%Z]
  ++ (if (len <? 126)%Z then [(maskBit + len)%Z]
      else [(maskBit + 126)%Z; (len / 256)%Z; (len mod 256)%Z])
  ++ match mask with
     | Some mask => mask ++ xorMask mask payload
     | None => payload
     end.

(** What a frame must satisfy to be encoded that way. *)
Definition frameOk (opcode : Z) (mask : option JS.Uint8Array)
  (payload : JS.Uint8Array) : Prop :=
  (0 <= opcode < 16)%Z
  /\ (Z.of_nat (List.length payload) < 65536)%Z
  /\ Forall byte payload
  /\ match mask with
     | Some mask => List.length mask = 4%nat /\ Forall byte mask
     | None => True
     end.

(** A fragment of a message: its mask, if it is masked, and its part of
    the payload. *)
Definition Fragment : Type := (option JS.Uint8Array * JS.Uint8Array)%type.

Definition fragmentOk (f : Fragment) : Prop := frameOk 0 (fst f) (snd f).

(** The continuation frames of a fragmented message: opcode 0, the FIN bit
    on the last one only. *)
Fixpoint encodeContinuation (middle : list Fragment) (last : Fragment)
  : JS.Uint8Array :=
  match middle with
  | [] => encodeFrame true 0 (fst last) (snd last)
  | f :: middle =>
      encodeFrame false 0 (fst f) (snd f) ++ encodeContinuation middle last
  end.

(** A fragmented message on the wire: a first frame with the opcode and
    no FIN bit, then the continuation frames. *)
Definition encodeFragmented (opcode : Z) (first : Fragment)
  (middle : list Fragment) (last : Fragment) : JS.Uint8Array :=
  encodeFrame false opcode (fst first) (snd first)
  ++ encodeContinuation middle last.

(** An unfragmented frame: opcode, mask, payload. *)
Record WsFrame : Type := mkWsFrame {
  ws_opcode : Z;
  ws_mask : option JS.Uint8Array;
  ws_payload : JS.Uint8Array
}.

Definition wsFrameOk (f : WsFrame) : Prop :=
  frameOk (ws_opcode f) (ws_mask f) (ws_payload f).

Definition encodeWsFrame (f : WsFrame) : JS.Uint8Array :=
  encodeFrame true (ws_opcode f) (ws_mask f) (ws_payload f).

(** Text and binary frames. *)
Definition isData (f : WsFrame) : bool :=
  (ws_opcode f =? 1)%Z || (ws_opcode f =? 2)%Z.

(** Frames that are neither continuation nor close frames. *)
Definition passes (f : WsFrame) : Prop :=
  ws_opcode f <> 0%Z /\ ws_opcode f <> 8%Z.

(** What the relay sends to the client for a sequence of frames. *)
Definition relayed (frames : list WsFrame) : list BaseProxy.RelayAction :=
  map BaseProxy.WsSend (map ws_payload (filter isData frames)).

Definition prepend (actions : list BaseProxy.RelayAction) (r : option (list BaseProxy.RelayAction))
  : option (list BaseProxy.RelayAction) :=
  match r with
  | Some more => Some (actions ++ more)
  | None => None
  end.

(** *** Chunked bodies, as [readChunks] takes them *)

(** A chunk as [readChunks] takes it: a size line, CRLF, the data, and two
    more bytes, which need not be CR and LF. *)
Record WireChunk : Type := mkWireChunk {
  chunk_line : string;
  chunk_data : JS.Uint8Array;
  chunk_end : Z * Z
}.

Definition encodeWireChunk (c : WireChunk) : JS.Uint8Array :=
  JS.encode (chunk_line c) ++ [13; 10]%Z ++ chunk_data c
  ++ [fst (chunk_end c); snd (chunk_end c)].

(** The size line gives the length of the data, which is not empty. *)
Definition wireChunkOk (c : WireChunk) : Prop :=
  sizeLine (chunk_line c) (Z.of_nat (List.length (chunk_data c)))
  /\ chunk_data c <> [].

(** The chunks [payloads], then what [r] yields, ending as [r] does. *)
Definition yielding (payloads : list JS.Uint8Array)
  (r : option (list JS.Uint8Array * StreamEnd))
  : option (list JS.Uint8Array * StreamEnd) :=
  match r with
  | Some (chunks, fin) => Some (payloads ++ chunks, fin)
  | None => None
  end.

(** *** SOCKS5 requests and DNS messages on a stream *)

(** The SOCKS5 request to connect to a domain name: version 5, command
    1, a reserved 0, address type 3, the length of the name, the name, and
    the port, high byte first. *)
Definition socksConnectRequest (name : string) (port : Z) : JS.Uint8Array :=
  [5; 1; 0; 3; Z.of_nat (String.length name)]%Z ++ JS.encode name
  ++ [(port / 256)%Z; (port mod 256)%Z].

(** The request of the username and password method: version 1, then
    each of the two with its length in front. *)
Definition socksAuthRequest (user pass : string) : JS.Uint8Array :=
  [1%Z; Z.of_nat (String.length user)] ++ JS.encode user
  ++ [Z.of_nat (String.length pass)] ++ JS.encode pass.

(** A name and a port that fit their fields. *)
Definition socksDestination (name : string) (port : Z) : Prop :=
  (String.length name < 256)%nat /\ (0 <= port < 65536)%Z.


(** ASCII credentials that fit their fields. *)
Definition socksCredentials (user pass : string) : Prop :=
  JS.isASCII user = true /\ JS.isASCII pass = true
  /\ (0 < String.length user < 256)%nat /\ (0 < String.length pass < 256)%nat.

(** The answers of a SOCKS server up to the connect request, and what
    the client has written by then: either the server selects a method
    other than 2 and 255 (or its answer has no second byte), or it
    selects method 2 and answers the authentication request with
    [01 00]. *)
Inductive methodAccepted (addr : Socks5Proxy.Socks5Address)
  : Reader -> list JS.Uint8Array -> Prop :=
| NoAuthentication (reply1 : JS.Uint8Array) :
    nth_error reply1 0 = Some 5%Z ->
    nth_error reply1 1 <> Some 255%Z -> nth_error reply1 1 <> Some 2%Z ->
    methodAccepted addr [Chunk reply1] [Socks5Proxy.socksGreeting]
| Authenticated (reply1 reply2 : JS.Uint8Array) (user pass : string) :
    nth_error reply1 0 = Some 5%Z -> nth_error reply1 1 = Some 2%Z ->
    Socks5Proxy.username addr = Some user -> Socks5Proxy.password addr = Some pass ->
    socksCredentials user pass ->
    nth_error reply2 0 = Some 1%Z -> nth_error reply2 1 = Some 0%Z ->
    methodAccepted addr [Chunk reply1; Chunk reply2]
      [Socks5Proxy.socksGreeting; socksAuthRequest user pass].

(** A DNS message as it travels over a stream: its length in two bytes,
    high byte first, then the message. *)
Definition lengthPrefixed (msg : JS.Uint8Array) : JS.Uint8Array :=
  [(Z.of_nat (List.length msg) / 256)%Z; (Z.of_nat (List.length msg) mod 256)%Z]
  ++ msg.

(** The response that carries a DNS answer. *)
Definition dnsAnswer (bytes : JS.Uint8Array) : Response :=
  mkResponse 200 "" [("content-type", "application/dns-message")] (Bytes bytes).

(** *** The head of an HTTP message *)

(** A line of the head of an HTTP message with its CRLF. *)
Definition headLineBytes (line : string) : JS.Uint8Array :=
  JS.encode line ++ [13; 10]%Z.

(** The head of an HTTP message: the status line and the header lines,
    each followed by CRLF, then an empty line. *)
Definition httpHead (lines : list string) : JS.Uint8Array :=
  List.concat (map headLineBytes lines) ++ [13; 10]%Z.

(** A line of a head is not empty and holds no carriage return. *)
Definition headLine (line : string) : Prop :=
  line <> "" /\ Forall (fun x => x <> 13%Z) (JS.encode line).

(* ================================================================== *)
(** * Properties *)
(* ================================================================== *)

(** ** Strings *)

Lemma startsWith_spec (s p : string) :
  JS.startsWith s p = true <-> exists post, s = (p ++ post)%string.
Proof.
  revert s; induction p as [|a p IH]; intros s; simpl.
  - split; [intros _; now exists s | intros _; destruct s; reflexivity].
  - destruct s as [|b s].
    + split; [discriminate | intros [post H]; discriminate].
    + simpl. rewrite andb_true_iff, Ascii.eqb_eq, IH. split.
      * intros [-> [post ->]]. now exists post.
      * intros [post H]. injection H as -> ->. split; [reflexivity | now exists post].
Qed.

(** [s.includes(sub)] holds exactly when [sub] occurs in [s]. *)
Lemma includes_spec (s sub : string) :
  JS.includes s sub = true <-> exists pre post, s = (pre ++ sub ++ post)%string.
Proof.
  induction s as [|c s IH].
  - cbn [JS.includes]. rewrite orb_false_r, startsWith_spec. split.
    + intros [post H]. now exists "", post.
    + intros [pre [post H]]. destruct pre; [now exists post | discriminate].
  - cbn [JS.includes]. rewrite orb_true_iff, startsWith_spec, IH. split.
    + intros [[post H] | [pre [post H]]].
      * now exists "", post.
      * exists (String c pre), post. simpl. now rewrite H.
    + intros [pre [post H]]. destruct pre as [|c' pre].
      * left. now exists post.
      * right. injection H as _ H. now exists pre, post.
Qed.

Lemma append_empty_r (s : string) : (s ++ "")%string = s.
Proof. induction s as [|c s IH]; simpl; [reflexivity | now rewrite IH]. Qed.

Lemma append_assoc (a b c : string) :
  ((a ++ b) ++ c)%string = (a ++ b ++ c)%string.
Proof. induction a as [|x a IH]; simpl; [reflexivity | now rewrite IH]. Qed.

(** ** Headers *)

Lemma lower_ascii_idempotent (c : ascii) :
  JS.lower_ascii (JS.lower_ascii c) = JS.lower_ascii c.
Proof. destruct c as [[] [] [] [] [] [] [] []]; reflexivity. Qed.

Lemma toLowerCase_idempotent (s : string) :
  JS.toLowerCase (JS.toLowerCase s) = JS.toLowerCase s.
Proof.
  induction s as [|c s IH]; simpl; [reflexivity|].
  now rewrite lower_ascii_idempotent, IH.
Qed.

Lemma same_name_spec (a b : string) :
  Headers.same_name a b = true <-> JS.toLowerCase a = JS.toLowerCase b.
Proof. unfold Headers.same_name. apply String.eqb_eq. Qed.

Lemma same_name_lower (a b : string) :
  Headers.same_name (JS.toLowerCase a) b = Headers.same_name a b.
Proof. unfold Headers.same_name. now rewrite toLowerCase_idempotent. Qed.

Lemma same_name_trans (a b c : string) :
  Headers.same_name a b = true -> Headers.same_name a c = Headers.same_name b c.
Proof.
  unfold Headers.same_name. intros H. apply String.eqb_eq in H. now rewrite H.
Qed.

Lemma has_spec (h : Headers.t) (name : string) :
  Headers.has h name = true
  <-> exists k v, In (k, v) h /\ JS.toLowerCase k = JS.toLowerCase name.
Proof.
  unfold Headers.has. rewrite existsb_exists. split.
  - intros [[k v] [Hin H]]. exists k, v. split; [exact Hin|]. now apply same_name_spec.
  - intros [k [v [Hin H]]]. exists (k, v). split; [exact Hin|]. now apply same_name_spec.
Qed.

Lemma has_cons (k v : string) (h : Headers.t) (name : string) :
  Headers.has ((k, v) :: h) name = Headers.same_name k name || Headers.has h name.
Proof. reflexivity. Qed.

Lemma values_cons (k v : string) (h : Headers.t) (name : string) :
  Headers.values ((k, v) :: h) name
  = if Headers.same_name k name then v :: Headers.values h name
    else Headers.values h name.
Proof.
  unfold Headers.values. cbn [filter fst].
  destruct (Headers.same_name k name); reflexivity.
Qed.

Lemma same_name_diff (k k' name : string) :
  Headers.same_name k' k = false -> Headers.same_name k name = true ->
  Headers.same_name k' name = false.
Proof.
  unfold Headers.same_name. intros E Ek.
  apply String.eqb_eq in Ek. apply String.eqb_neq in E. apply String.eqb_neq. congruence.
Qed.

Lemma has_filter_other (h : Headers.t) (k name : string) :
  Headers.same_name k name = false ->
  Headers.has (filter (fun kv => negb (Headers.same_name (fst kv) k)) h) name
  = Headers.has h name.
Proof.
  intros Hne. induction h as [|[k' v'] h IH]; [reflexivity|].
  cbn [filter fst]. rewrite has_cons.
  destruct (Headers.same_name k' k) eqn:E; cbn [negb].
  - rewrite IH, (same_name_trans _ _ _ E), Hne. reflexivity.
  - rewrite has_cons, IH. reflexivity.
Qed.

(** [set] adds the name and keeps the others. *)
Lemma has_set (h : Headers.t) (k v name : string) :
  Headers.has (Headers.set h k v) name
  = Headers.has h name || Headers.same_name k name.
Proof.
  induction h as [|[k' v'] h IH].
  - cbn [Headers.set]. rewrite has_cons. now rewrite orb_comm.
  - cbn [Headers.set]. rewrite (has_cons k' v').
    destruct (Headers.same_name k' k) eqn:E.
    + rewrite has_cons, (same_name_trans _ _ _ E).
      destruct (Headers.same_name k name) eqn:Ek; [now rewrite orb_true_r|].
      rewrite has_filter_other by assumption. now rewrite orb_false_r.
    + rewrite has_cons, IH. now rewrite orb_assoc.
Qed.

Lemma values_filter_other (h : Headers.t) (k name : string) :
  Headers.same_name k name = false ->
  Headers.values (filter (fun kv => negb (Headers.same_name (fst kv) k)) h) name
  = Headers.values h name.
Proof.
  intros Hne. induction h as [|[k' v'] h IH]; [reflexivity|].
  cbn [filter fst]. rewrite values_cons.
  destruct (Headers.same_name k' k) eqn:E; cbn [negb].
  - rewrite (same_name_trans _ _ _ E), Hne. exact IH.
  - rewrite values_cons, IH. reflexivity.
Qed.

Lemma values_filter_same (h : Headers.t) (k name : string) :
  Headers.same_name k name = true ->
  Headers.values (filter (fun kv => negb (Headers.same_name (fst kv) k)) h) name = [].
Proof.
  intros He. induction h as [|[k' v'] h IH]; [reflexivity|].
  cbn [filter fst]. destruct (Headers.same_name k' k) eqn:E; cbn [negb].
  - exact IH.
  - rewrite values_cons, (same_name_diff _ _ _ E He). exact IH.
Qed.

Lemma values_set (h : Headers.t) (k v name : string) :
  Headers.values (Headers.set h k v) name
  = if Headers.same_name k name then [v] else Headers.values h name.
Proof.
  induction h as [|[k' v'] h IH].
  - cbn [Headers.set]. rewrite values_cons.
    destruct (Headers.same_name k name); reflexivity.
  - cbn [Headers.set]. rewrite (values_cons k' v').
    destruct (Headers.same_name k' k) eqn:E.
    + rewrite values_cons, (same_name_trans _ _ _ E).
      destruct (Headers.same_name k name) eqn:Ek.
      * now rewrite values_filter_same.
      * now rewrite values_filter_other.
    + rewrite values_cons, IH.
      destruct (Headers.same_name k name) eqn:Ek; [|reflexivity].
      now rewrite (same_name_diff _ _ _ E Ek).
Qed.

(** After [set], [get] of that name is the value just set; other names
    are unchanged. *)
Lemma get_set (h : Headers.t) (k v name : string) :
  Headers.get (Headers.set h k v) name
  = if Headers.same_name k name then Some v else Headers.get h name.
Proof.
  unfold Headers.get. rewrite values_set.
  destruct (Headers.same_name k name); reflexivity.
Qed.

Lemma insert_sorted_In (x y : string) (xs : list string) :
  In y (Headers.insert_sorted x xs) <-> y = x \/ In y xs.
Proof.
  induction xs as [|z xs IH]; simpl.
  - intuition.
  - destruct (String.leb x z); simpl; [intuition|]. rewrite IH. intuition.
Qed.

Lemma sort_In (y : string) (xs : list string) :
  In y (Headers.sort xs) <-> In y xs.
Proof.
  induction xs as [|x xs IH]; simpl; [reflexivity|].
  rewrite insert_sorted_In, IH. intuition.
Qed.

Lemma names_In (h : Headers.t) (n : string) :
  In n (Headers.names h) <-> exists k v, In (k, v) h /\ JS.toLowerCase k = n.
Proof.
  unfold Headers.names. rewrite sort_In, nodup_In, in_map_iff. split.
  - intros [[k v] [E Hin]]. now exists k, v.
  - intros [k [v [Hin E]]]. now exists (k, v).
Qed.

Lemma values_nonempty (h : Headers.t) (n : string) :
  In n (Headers.names h) -> Headers.values h n <> [].
Proof.
  rewrite names_In. intros [k [v [Hin E]]]. unfold Headers.values.
  assert (I : In (k, v) (filter (fun kv => Headers.same_name (fst kv) n) h)).
  { apply filter_In. split; [exact Hin|]. cbn [fst].
    apply same_name_spec. rewrite <- E. now rewrite toLowerCase_idempotent. }
  destruct (filter _ h); [contradiction | discriminate].
Qed.

(** Iteration delivers exactly the lower-cased names of the collection. *)
Lemma entries_names (h : Headers.t) (n : string) :
  (exists v, In (n, v) (Headers.entries h)) <-> In n (Headers.names h).
Proof.
  unfold Headers.entries. split.
  - intros [v Hin]. apply in_flat_map in Hin. destruct Hin as [m [Hm Hin]].
    destruct (String.eqb m "set-cookie").
    + apply in_map_iff in Hin. destruct Hin as [w [E _]]. now inversion E; subst.
    + destruct (Headers.get h m); [|contradiction].
      destruct Hin as [E|[]]. now inversion E; subst.
  - intros Hn. pose proof (values_nonempty h n Hn) as Hv.
    destruct (String.eqb n "set-cookie") eqn:Ec.
    + destruct (Headers.values h n) as [|w ws] eqn:Ev; [contradiction|].
      exists w. apply in_flat_map. exists n. split; [exact Hn|].
      rewrite Ec, Ev. now left.
    + unfold Headers.get in *.
      destruct (Headers.values h n) as [|w ws] eqn:Ev; [contradiction|].
      eexists. apply in_flat_map. exists n. split; [exact Hn|].
      rewrite Ec. unfold Headers.get. rewrite Ev. now left.
Qed.

(** ** proxies/base.js: the header filter *)

Lemma HEADER_FILTER_RE_test_spec (name : string) :
  BaseProxy.HEADER_FILTER_RE_test name = true <-> denied name.
Proof.
  unfold BaseProxy.HEADER_FILTER_RE_test, denied. rewrite existsb_exists. split.
  - intros [p [Hin H]]. apply startsWith_spec in H. destruct H as [post H].
    now exists p, post.
  - intros [p [post [Hin H]]]. exists p. split; [exact Hin|].
    apply startsWith_spec. now exists post.
Qed.

Lemma HEADER_FILTER_RE_test_lower (a b : string) :
  JS.toLowerCase a = JS.toLowerCase b ->
  BaseProxy.HEADER_FILTER_RE_test a = BaseProxy.HEADER_FILTER_RE_test b.
Proof. unfold BaseProxy.HEADER_FILTER_RE_test. now intros ->. Qed.

Lemma filter_step_has (es : list (string * string)) (acc : Headers.t) (name : string) :
  Headers.has
    (fold_left
       (fun cleanedHeaders kv =>
          if negb (BaseProxy.HEADER_FILTER_RE_test (fst kv))
          then Headers.set cleanedHeaders (fst kv) (snd kv)
          else cleanedHeaders) es acc) name
  = Headers.has acc name
    || existsb (fun kv => negb (BaseProxy.HEADER_FILTER_RE_test (fst kv))
                          && Headers.same_name (fst kv) name) es.
Proof.
  revert acc; induction es as [|[k v] es IH]; intros acc.
  - simpl. now rewrite orb_false_r.
  - cbn [fold_left existsb fst snd]. rewrite IH.
    destruct (BaseProxy.HEADER_FILTER_RE_test k); cbn [negb andb].
    + reflexivity.
    + rewrite has_set. now rewrite orb_assoc.
Qed.

(** A header is in the filtered collection exactly when it is in the
    inbound one and its name does not match the deny pattern. *)
Lemma filterHeaders_has (h : Headers.t) (name : string) :
  Headers.has (BaseProxy.filterHeaders h) name = true
  <-> Headers.has h name = true /\ ~ denied name.
Proof.
  unfold BaseProxy.filterHeaders. rewrite filter_step_has.
  cbn [Headers.has existsb orb]. rewrite existsb_exists, has_spec.
  rewrite <- HEADER_FILTER_RE_test_spec. split.
  - intros [[k v] [Hin H]]. cbn [fst] in H. apply andb_true_iff in H.
    destruct H as [Ht Hs]. apply negb_true_iff in Ht. apply same_name_spec in Hs.
    assert (Hn : In k (Headers.names h)) by (apply entries_names; now exists v).
    apply names_In in Hn. destruct Hn as [k0 [v0 [Hin0 E]]]. split.
    + exists k0, v0. split; [exact Hin0|]. rewrite <- Hs, <- E.
      now rewrite toLowerCase_idempotent.
    + rewrite <- (HEADER_FILTER_RE_test_lower k name Hs). now rewrite Ht.
  - intros [[k [v [Hin E]]] Ht].
    assert (Hn : In (JS.toLowerCase k) (Headers.names h))
      by (apply names_In; now exists k, v).
    apply entries_names in Hn. destruct Hn as [w Hw].
    exists (JS.toLowerCase k, w). split; [exact Hw|]. cbn [fst].
    apply andb_true_iff. split.
    + apply negb_true_iff. apply not_true_is_false.
      rewrite (HEADER_FILTER_RE_test_lower (JS.toLowerCase k) name); [exact Ht|].
      now rewrite toLowerCase_idempotent.
    + apply same_name_spec. now rewrite toLowerCase_idempotent.
Qed.

Lemma denied_accept_encoding : denied "accept-encoding".
Proof.
  exists "accept-encoding", "". split; [|reflexivity].
  unfold DENY_PATTERN. simpl. tauto.
Qed.

Lemma denied_same_name (a b : string) :
  Headers.same_name a b = true -> denied a -> denied b.
Proof.
  intros H [p [post [Hin E]]]. apply same_name_spec in H.
  exists p, post. split; [exact Hin|]. now rewrite <- H.
Qed.

(** The fetch transport forwards no denied name but [Host]. *)
Lemma fetch_onlyHostDenied (inbound : Headers.t) (targetUrl : URL) :
  onlyHostDenied (FetchProxy.upstreamHeaders inbound targetUrl).
Proof.
  unfold onlyHostDenied, FetchProxy.upstreamHeaders. intros name Hhas Hden.
  rewrite has_set in Hhas. apply orb_true_iff in Hhas. destruct Hhas as [Hhas|Hhas].
  - apply filterHeaders_has in Hhas. destruct Hhas as [_ Hnot]. contradiction.
  - unfold Headers.same_name in *. now rewrite String.eqb_sym.
Qed.

(** The socket transports forward no denied name but [Host] and the
    [accept-encoding] they set themselves. *)
Lemma socket_denied_names (inbound : Headers.t) (targetUrl : URL) (name : string) :
  Headers.has (SocketProxy.upstreamHeaders inbound targetUrl) name = true ->
  denied name ->
  Headers.same_name name "host" = true
  \/ Headers.same_name name "accept-encoding" = true.
Proof.
  unfold SocketProxy.upstreamHeaders. intros Hhas Hden.
  rewrite !has_set in Hhas. apply orb_true_iff in Hhas.
  destruct Hhas as [Hhas|Hhas]; [apply orb_true_iff in Hhas; destruct Hhas as [Hhas|Hhas]|].
  - apply filterHeaders_has in Hhas. destruct Hhas as [_ Hnot]. contradiction.
  - left. unfold Headers.same_name in *. now rewrite String.eqb_sym.
  - right. unfold Headers.same_name in *. now rewrite String.eqb_sym.
Qed.

(** C2, as amended.  [filterHeaders] keeps a header exactly when its name
    does not match the deny pattern.  Hence the fetch transport forwards
    no matching name except the [Host] it sets to the target host; the
    socket and SOCKS5 transports forward no matching name except [Host]
    and the [accept-encoding: identity] they set themselves; the
    third-party and cloud-provider transports forward the inbound headers
    as they are. *)
Theorem filterHeaders_and_forwarded (inbound : Headers.t) (targetUrl : URL) :
  (forall name,
      Headers.has (BaseProxy.filterHeaders inbound) name = true
      <-> Headers.has inbound name = true /\ ~ denied name)
  /\ (onlyHostDenied (forwardedHeaders FetchTransport inbound targetUrl)
      /\ Headers.get (forwardedHeaders FetchTransport inbound targetUrl) "Host"
         = Some (hostname targetUrl))
  /\ (forall t, t = SocketTransport \/ t = Socks5Transport ->
        (forall name,
            Headers.has (forwardedHeaders t inbound targetUrl) name = true ->
            denied name ->
            Headers.same_name name "host" = true
            \/ Headers.same_name name "accept-encoding" = true)
        /\ Headers.get (forwardedHeaders t inbound targetUrl) "Host"
           = Some (hostname targetUrl)
        /\ Headers.get (forwardedHeaders t inbound targetUrl) "accept-encoding"
           = Some "identity")
  /\ (forall t, t = ThirdPartyTransport \/ t = CloudProviderTransport ->
        forwardedHeaders t inbound targetUrl = inbound).
Proof.
  split; [intros name; apply filterHeaders_has|].
  split.
  { split; [apply fetch_onlyHostDenied|].
    cbn [forwardedHeaders]. unfold FetchProxy.upstreamHeaders. now rewrite get_set. }
  split.
  - intros t [-> | ->]; cbn [forwardedHeaders];
      (split; [intros name; apply socket_denied_names|]);
      unfold SocketProxy.upstreamHeaders, Socks5Proxy.upstreamHeaders;
      rewrite !get_set; split; reflexivity.
  - intros t [-> | ->]; reflexivity.
Qed.

(** C2, as stated, fails for the socket transport: for the inbound
    header [User-Agent: curl] it sends [accept-encoding: identity], a
    name that matches the deny pattern and is not [Host]. *)
Lemma socket_forwards_accept_encoding :
  let hs := forwardedHeaders SocketTransport [("User-Agent", "curl")] Scenario.targetUrl in
  hs = [("user-agent", "curl"); ("Host", "example.com"); ("accept-encoding", "identity")]
  /\ Headers.has hs "accept-encoding" = true
  /\ denied "accept-encoding"
  /\ Headers.same_name "accept-encoding" "host" = false
  /\ ~ onlyHostDenied hs.
Proof.
  cbv zeta. split; [reflexivity|]. split; [reflexivity|].
  split; [exact denied_accept_encoding|]. split; [reflexivity|].
  intros H. specialize (H "accept-encoding" eq_refl denied_accept_encoding).
  discriminate.
Qed.

(** ** proxies/base.js: WebSocket text frames *)

Example packTextFrame_hi :
  BaseProxy.packTextFrame [1; 2; 3; 4]%Z (JS.encode "hi")
  = Normal [129; 130; 1; 2; 3; 4; 105; 107]%Z.
Proof. reflexivity. Qed.

Lemma u8_byte (b : Z) : byte b -> JS.u8 b = b.
Proof. unfold byte, JS.u8. intros H. now apply Z.mod_small. Qed.

Lemma u8_land (x : Z) : JS.u8 x = Z.land x (Z.ones 8).
Proof. unfold JS.u8. rewrite Z.land_ones by lia. reflexivity. Qed.

Lemma lxor_byte (p m : Z) : byte p -> byte m -> byte (Z.lxor p m).
Proof.
  unfold byte. intros Hp Hm. split.
  - apply Z.lxor_nonneg. lia.
  - destruct (Z.eq_dec (Z.lxor p m) 0) as [E|E]; [lia|].
    assert (0 < Z.lxor p m)%Z by (assert (0 <= Z.lxor p m)%Z by (apply Z.lxor_nonneg; lia); lia).
    change 256%Z with (2 ^ 8)%Z. apply Z.log2_lt_pow2; [assumption|].
    pose proof (Z.log2_lxor p m ltac:(lia) ltac:(lia)) as L.
    assert (Z.log2 p < 8)%Z.
    { destruct (Z.eq_dec p 0) as [->|]; [simpl; lia|]. apply Z.log2_lt_pow2; simpl; lia. }
    assert (Z.log2 m < 8)%Z.
    { destruct (Z.eq_dec m 0) as [->|]; [simpl; lia|]. apply Z.log2_lt_pow2; simpl; lia. }
    lia.
Qed.

Lemma unmask (p m : Z) : byte p -> byte m -> Z.lxor (JS.u8 (Z.lxor p m)) m = p.
Proof.
  intros Hp Hm. rewrite u8_byte by now apply lxor_byte.
  rewrite Z.lxor_assoc, Z.lxor_nilpotent, Z.lxor_0_r. reflexivity.
Qed.

Lemma maskFrom_length (i : nat) (mask payload : JS.Uint8Array) :
  List.length (BaseProxy.maskFrom i mask payload) = List.length payload.
Proof. revert i; induction payload as [|p payload IH]; intros i; simpl; [reflexivity | now rewrite IH]. Qed.

Lemma maskFrom_nth (mask payload : JS.Uint8Array) (i j : nat) :
  (j < List.length payload)%nat ->
  nth j (BaseProxy.maskFrom i mask payload) 0%Z
  = JS.u8 (Z.lxor (nth j payload 0%Z) (nth ((i + j) mod 4) mask 0%Z)).
Proof.
  revert i j; induction payload as [|p payload IH]; intros i j Hj; simpl in Hj; [lia|].
  destruct j as [|j].
  - cbn [BaseProxy.maskFrom nth]. now rewrite Nat.add_0_r.
  - cbn [BaseProxy.maskFrom nth]. rewrite IH by lia. now rewrite Nat.add_succ_comm.
Qed.

Lemma mask_byte (mask : JS.Uint8Array) (i : nat) :
  List.length mask = 4%nat -> Forall byte mask -> byte (nth (i mod 4) mask 0%Z).
Proof.
  intros L F. rewrite Forall_forall in F. apply F. apply nth_In. rewrite L.
  apply Nat.mod_upper_bound. lia.
Qed.

Lemma header_mask_bit (len : Z) : Z.testbit (JS.u8 (Z.lor 128 len)) 7 = true.
Proof.
  rewrite u8_land, Z.land_spec, Z.lor_spec. reflexivity.
Qed.

Lemma header_len7 (len : Z) : (0 <= len < 128)%Z -> Z.land (JS.u8 (Z.lor 128 len)) 127 = len.
Proof.
  intros H. rewrite u8_land, <- Z.land_assoc.
  change (Z.land (Z.ones 8) 127) with (Z.ones 7).
  rewrite Z.land_lor_distr_l. change (Z.land 128 (Z.ones 7)) with 0%Z.
  rewrite Z.lor_0_l, Z.land_ones by lia. apply Z.mod_small. simpl. lia.
Qed.

Lemma header_ext (len : Z) : (0 <= len < 65536)%Z ->
  JS.u8 (Z.land (Z.shiftr len 8) 255) = (len / 256)%Z /\ JS.u8 (Z.land len 255) = (len mod 256)%Z.
Proof.
  intros H. rewrite Z.shiftr_div_pow2 by lia. change (2 ^ 8)%Z with 256%Z.
  change 255%Z with (Z.ones 8). rewrite !Z.land_ones by lia. change (2 ^ 8)%Z with 256%Z.
  unfold JS.u8. rewrite !Z.mod_mod by lia. split; [|reflexivity].
  apply Z.mod_small. split; [apply Z.div_pos; lia | apply Z.div_lt_upper_bound; lia].
Qed.

(** C9. For a payload shorter than 65536 bytes, [packTextFrame] returns
    [0x81], a second byte with the MASK bit (bit 7) set, the length in the
    low seven bits of that byte when it is below 126 and otherwise 126
    there followed by the length as two bytes, high byte first; then the
    four mask bytes and the masked payload, with
    [payload[i] = masked[i] XOR mask[i mod 4]] at every index.  From
    65536 bytes on it throws [Payload too large]. *)
Theorem packTextFrame_frame (mask payload : JS.Uint8Array) :
  List.length mask = 4%nat -> Forall byte mask -> Forall byte payload ->
  let len := Z.of_nat (List.length payload) in
  ((len < 65536)%Z ->
   exists b1 ext masked,
     BaseProxy.packTextFrame mask payload = Normal ([129%Z; b1] ++ ext ++ mask ++ masked)
     /\ Z.testbit b1 7 = true
     /\ ((len < 126)%Z -> Z.land b1 127 = len /\ ext = [])
     /\ ((126 <= len)%Z ->
         Z.land b1 127 = 126%Z /\ ext = [(len / 256)%Z; (len mod 256)%Z])
     /\ List.length masked = List.length payload
     /\ forall i, (i < List.length payload)%nat ->
          nth i payload 0%Z = Z.lxor (nth i masked 0%Z) (nth (i mod 4) mask 0%Z))
  /\ ((65536 <= len)%Z ->
      BaseProxy.packTextFrame mask payload = Throw (mkError "Payload too large")).
Proof.
  intros Lm Fm Fp len. unfold BaseProxy.packTextFrame. fold len.
  assert (Hunmask : forall i, (i < List.length payload)%nat ->
            nth i payload 0%Z
            = Z.lxor (nth i (BaseProxy.maskFrom 0 mask payload) 0%Z) (nth (i mod 4) mask 0%Z)).
  { intros i Hi. rewrite maskFrom_nth by assumption. simpl (0 + i)%nat.
    symmetry. apply unmask.
    - rewrite Forall_forall in Fp. apply Fp. now apply nth_In.
    - now apply mask_byte. }
  split.
  - intros Hlen. destruct (len <? 126)%Z eqn:E126.
    + apply Z.ltb_lt in E126.
      exists (JS.u8 (Z.lor 128 len)), [], (BaseProxy.maskFrom 0 mask payload).
      split; [unfold BaseProxy.concatUint8Arrays; simpl; now rewrite app_nil_r|].
      split; [apply header_mask_bit|].
      split; [intros _; split; [apply header_len7; lia | reflexivity]|].
      split; [lia|]. split; [apply maskFrom_length | exact Hunmask].
    + apply Z.ltb_ge in E126. apply Z.ltb_lt in Hlen as Hlt. rewrite Hlt.
      destruct (header_ext len ltac:(lia)) as [Hhi Hlo].
      exists (JS.u8 (Z.lor 128 126)),
        [(len / 256)%Z; (len mod 256)%Z], (BaseProxy.maskFrom 0 mask payload).
      split; [unfold BaseProxy.concatUint8Arrays; simpl; rewrite Hhi, Hlo; now rewrite app_nil_r|].
      split; [reflexivity|].
      split; [lia|]. split; [intros _; split; reflexivity|].
      split; [apply maskFrom_length | exact Hunmask].
  - intros Hlen.
    assert (E1 : (len <? 126)%Z = false) by (apply Z.ltb_ge; lia).
    assert (E2 : (len <? 65536)%Z = false) by (apply Z.ltb_ge; lia).
    now rewrite E1, E2.
Qed.

Lemma packTextFrame_frame_witness :
  let mask := [17; 34; 51; 68]%Z in
  let payload := JS.encode "hi" in
  let len := Z.of_nat (List.length payload) in
  List.length mask = 4%nat /\ Forall byte mask /\ Forall byte payload
  /\ ((len < 65536)%Z ->
      exists b1 ext masked,
        BaseProxy.packTextFrame mask payload = Normal ([129%Z; b1] ++ ext ++ mask ++ masked)
        /\ Z.testbit b1 7 = true
        /\ ((len < 126)%Z -> Z.land b1 127 = len /\ ext = [])
        /\ ((126 <= len)%Z ->
            Z.land b1 127 = 126%Z /\ ext = [(len / 256)%Z; (len mod 256)%Z])
        /\ List.length masked = List.length payload
        /\ forall i, (i < List.length payload)%nat ->
             nth i payload 0%Z = Z.lxor (nth i masked 0%Z) (nth (i mod 4) mask 0%Z))
  /\ ((65536 <= len)%Z ->
      BaseProxy.packTextFrame mask payload = Throw (mkError "Payload too large")).
Proof.
  intros mask payload len.
  assert (H1 : List.length mask = 4%nat) by reflexivity.
  assert (H2 : Forall byte mask) by (repeat constructor; unfold byte; lia).
  assert (H3 : Forall byte payload) by (repeat constructor; unfold byte; simpl; lia).
  split; [exact H1|]. split; [exact H2|]. split; [exact H3|].
  exact (packTextFrame_frame mask payload H1 H2 H3).
Defined.

(** ** proxies/base.js: chunked bodies *)

Lemma slice_prefix (a : JS.Uint8Array) (n : nat) :
  (n <= List.length a)%nat -> JS.slice a 0 (Some (Z.of_nat n)) = firstn n a.
Proof.
  intros H. unfold JS.slice, JS.relativeIndex.
  destruct (Z.of_nat n <? 0)%Z eqn:E; [apply Z.ltb_lt in E; lia|].
  cbn [Z.ltb Z.compare]. rewrite Z.min_l by lia. cbn [Z.to_nat skipn].
  rewrite Z.min_l by lia. rewrite Z.sub_0_r, Nat2Z.id. reflexivity.
Qed.

Lemma slice_from (a : JS.Uint8Array) (n : nat) :
  (n <= List.length a)%nat -> JS.slice a (Z.of_nat n) None = skipn n a.
Proof.
  intros H. unfold JS.slice, JS.relativeIndex.
  destruct (Z.of_nat n <? 0)%Z eqn:E; [apply Z.ltb_lt in E; lia|].
  rewrite Z.min_l by lia. rewrite Nat2Z.id.
  apply firstn_all2. rewrite length_skipn. lia.
Qed.

Lemma findCRLF_step (x y : Z) (b : JS.Uint8Array) :
  BaseProxy.findCRLF (x :: y :: b)
  = if ((x =? 13) && (y =? 10))%Z then Some 0%nat
    else option_map S (BaseProxy.findCRLF (y :: b)).
Proof. reflexivity. Qed.

Lemma findCRLF_bound (b : JS.Uint8Array) (p : nat) :
  BaseProxy.findCRLF b = Some p -> (p + 2 <= List.length b)%nat.
Proof.
  revert p; induction b as [|x b IH]; intros p H; [discriminate|].
  destruct b as [|y b]; [discriminate|].
  rewrite findCRLF_step in H.
  destruct ((x =? 13) && (y =? 10))%Z.
  - injection H as <-. simpl. lia.
  - destruct (BaseProxy.findCRLF (y :: b)) as [q|] eqn:E; [|discriminate].
    injection H as <-. specialize (IH q eq_refl). simpl in *. lia.
Qed.

Lemma findCRLF_app (a b : JS.Uint8Array) (p : nat) :
  BaseProxy.findCRLF a = Some p -> BaseProxy.findCRLF (a ++ b) = Some p.
Proof.
  revert p; induction a as [|x a IH]; intros p H; [discriminate|].
  destruct a as [|y a]; [discriminate|].
  rewrite findCRLF_step in H. cbn [app]. rewrite findCRLF_step.
  destruct ((x =? 13) && (y =? 10))%Z; [exact H|].
  destruct (BaseProxy.findCRLF (y :: a)) as [q|] eqn:E; [|discriminate].
  injection H as <-. change (y :: a ++ b) with ((y :: a) ++ b).
  now rewrite (IH q eq_refl).
Qed.

Lemma findCRLF_line (h rest : JS.Uint8Array) :
  Forall (fun x => x <> 13%Z) h ->
  BaseProxy.findCRLF (h ++ 13%Z :: 10%Z :: rest) = Some (List.length h).
Proof.
  induction 1 as [|x h Hx _ IH]; [reflexivity|].
  cbn [app List.length].
  destruct (h ++ 13%Z :: 10%Z :: rest) as [|y t] eqn:E.
  - destruct h; discriminate.
  - rewrite findCRLF_step. apply Z.eqb_neq in Hx. rewrite Hx. cbn [andb].
    now rewrite IH.
Qed.

Lemma app_split_prefix {A : Type} (a b c d : list A) :
  a ++ b = c ++ d -> (List.length c <= List.length a)%nat ->
  exists tail, a = c ++ tail /\ d = tail ++ b.
Proof.
  revert a; induction c as [|x c IH]; intros a H L.
  - exists a. cbn in *. now subst.
  - destruct a as [|y a]; [simpl in L; lia|].
    cbn in H. injection H as -> H. simpl in L.
    destruct (IH a H ltac:(lia)) as [tail [E1 E2]].
    exists tail. split; [now rewrite E1 | exact E2].
Qed.

Lemma firstn_exact {A : Type} (c tail : list A) (n : nat) :
  n = List.length c -> firstn n (c ++ tail) = c.
Proof.
  intros ->. rewrite firstn_app, Nat.sub_diag, firstn_all. cbn [firstn].
  apply app_nil_r.
Qed.

Lemma skipn_exact {A : Type} (c tail : list A) (n : nat) :
  n = List.length c -> skipn n (c ++ tail) = tail.
Proof.
  intros ->. rewrite skipn_app, Nat.sub_diag, skipn_all. reflexivity.
Qed.

Lemma decode_encode (s : string) : JS.decode (JS.encode s) = s.
Proof.
  unfold JS.decode, JS.encode. rewrite map_map.
  rewrite (map_ext _ (fun c => c)).
  - rewrite map_id. apply string_of_list_ascii_of_string.
  - intros c. rewrite Nat2Z.id. apply ascii_nat_embedding.
Qed.

Lemma encode_length (s : string) : List.length (JS.encode s) = String.length s.
Proof.
  unfold JS.encode. rewrite length_map.
  induction s as [|c s IH]; simpl; [reflexivity | now rewrite IH].
Qed.

(** What the code's digit reader accepts in radix 16 is a hexadecimal
    digit, with the same value. *)
Lemma radix_digit_hex (c : ascii) : JS.radix_digit 16 c = hexDigit c.
Proof. destruct c as [[] [] [] [] [] [] [] []]; reflexivity. Qed.

Lemma hexDigit_plain (c : ascii) (d : Z) :
  hexDigit c = Some d ->
  Z.of_nat (nat_of_ascii c) <> 13%Z
  /\ JS.isWhiteSpace c = false
  /\ c <> "-"%char /\ c <> "+"%char /\ c <> "x"%char /\ c <> "X"%char.
Proof.
  destruct c as [[] [] [] [] [] [] [] []]; cbn; intros H; try discriminate H;
    repeat split; discriminate.
Qed.

Lemma digits_value_hex (s : string) (acc n : Z) :
  hexNumber s acc = Some n -> JS.digits_value 16 (Some acc) s = Some n.
Proof.
  revert acc; induction s as [|c s IH]; intros acc H; cbn in *.
  - exact H.
  - rewrite radix_digit_hex. destruct (hexDigit c) as [d|]; [|discriminate].
    now apply IH.
Qed.

Lemma sizeLine_no_CR (line : string) (n : Z) :
  hexNumber line 0 = Some n -> Forall (fun x => x <> 13%Z) (JS.encode line).
Proof.
  generalize 0%Z. induction line as [|c line IH]; intros acc H.
  - constructor.
  - cbn in H. destruct (hexDigit c) as [d|] eqn:E; [|discriminate].
    unfold JS.encode. cbn. constructor.
    + now destruct (hexDigit_plain c d E).
    + exact (IH _ H).
Qed.

(** [parseInt] reads a size line as the number it denotes. *)
Lemma parseInt_sizeLine (line : string) (n : Z) :
  sizeLine line n -> JS.parseInt line 16 = Some n.
Proof.
  intros [Hne H]. destruct line as [|c line]; [contradiction|].
  cbn in H. destruct (hexDigit c) as [d|] eqn:E; [|discriminate].
  destruct (hexDigit_plain c d E) as [_ [Hws [Hm [Hp [Hx HX]]]]].
  unfold JS.parseInt. cbn [JS.trimStart]. rewrite Hws.
  assert (Hsign : (match String c line with
                   | String "-" rest => ((-1)%Z, rest)
                   | String "+" rest => (1%Z, rest)
                   | _ => (1%Z, String c line)
                   end) = (1%Z, String c line)).
  { destruct c as [[] [] [] [] [] [] [] []]; try reflexivity; contradiction. }
  rewrite Hsign. cbn [Z.eqb Pos.eqb].
  assert (Hprefix : (match String c line with
                     | String "0" (String "x" rest) => rest
                     | String "0" (String "X" rest) => rest
                     | _ => String c line
                     end) = String c line).
  { destruct line as [|c' line]; [destruct c as [[] [] [] [] [] [] [] []]; reflexivity|].
    cbn in H. destruct (hexDigit c') as [d'|] eqn:E'; [|discriminate].
    destruct (hexDigit_plain c' d' E') as [_ [_ [_ [_ [Hx' HX']]]]].
    destruct c as [[] [] [] [] [] [] [] []]; try reflexivity;
      destruct c' as [[] [] [] [] [] [] [] []]; try reflexivity; contradiction. }
  rewrite Hprefix. cbn [JS.digits_value]. rewrite radix_digit_hex, E.
  rewrite (digits_value_hex line d n) by exact H.
  f_equal. lia.
Qed.

Lemma readerWeight_chunks (segments : list JS.Uint8Array) :
  BaseProxy.readerWeight (map Chunk segments)
  = (List.length segments + List.length (List.concat segments))%nat.
Proof.
  induction segments as [|v segments IH]; [reflexivity|].
  cbn [map BaseProxy.readerWeight List.concat List.length].
  rewrite IH, length_app. lia.
Qed.

(** The inner loop, on a stream that still holds [need] bytes: it stops
    with at least that many in the buffer, and no byte is lost. *)
Lemma fillBuffer_enough (segments : list JS.Uint8Array) (b : JS.Uint8Array) (need : Z) :
  (need <= Z.of_nat (List.length (b ++ List.concat segments)))%Z ->
  exists segments' b',
    BaseProxy.fillBuffer (map Chunk segments) b need = (map Chunk segments', Normal b')
    /\ b' ++ List.concat segments' = b ++ List.concat segments
    /\ (need <= Z.of_nat (List.length b'))%Z
    /\ (List.length b' + BaseProxy.readerWeight (map Chunk segments')
        <= List.length b + BaseProxy.readerWeight (map Chunk segments))%nat.
Proof.
  revert b; induction segments as [|v segments IH]; intros b H.
  - cbn [List.concat] in H. rewrite app_nil_r in H.
    exists [], b. cbn [map BaseProxy.fillBuffer].
    rewrite (proj2 (Z.ltb_ge _ _) H). repeat split; auto.
  - cbn [map BaseProxy.fillBuffer].
    destruct (Z.of_nat (List.length b) <? need)%Z eqn:E.
    + cbn [List.concat] in H. rewrite app_assoc in H.
      destruct (IH (b ++ v) H) as [segments' [b' [Hf [Hs [Hn Hw]]]]].
      exists segments', b'. rewrite Hf. repeat split; auto.
      * rewrite Hs. cbn [List.concat]. now rewrite app_assoc.
      * cbn [BaseProxy.readerWeight]. rewrite length_app in Hw. lia.
    + exists (v :: segments), b. apply Z.ltb_ge in E. repeat split; auto.
Qed.

(** Where the buffer stands when the stream starts with a size line. *)
Lemma size_line_found (line : string) (n : Z) (rest : JS.Uint8Array)
  (segments : list JS.Uint8Array) (buff : JS.Uint8Array) :
  hexNumber line 0 = Some n ->
  buff ++ List.concat segments = JS.encode line ++ 13%Z :: 10%Z :: rest ->
  match BaseProxy.findCRLF buff with
  | None => exists v segments', segments = v :: segments'
  | Some pos =>
      pos = List.length (JS.encode line)
      /\ (pos + 2 <= List.length buff)%nat
      /\ firstn pos buff = JS.encode line
      /\ rest = skipn (pos + 2) buff ++ List.concat segments
  end.
Proof.
  intros Hhex Hstream.
  pose proof (findCRLF_line (JS.encode line) rest (sizeLine_no_CR line n Hhex)) as Hline.
  destruct (BaseProxy.findCRLF buff) as [pos|] eqn:E.
  - pose proof (findCRLF_app buff (List.concat segments) pos E) as Happ.
    rewrite Hstream, Hline in Happ. injection Happ as Hpos.
    pose proof (findCRLF_bound buff pos E) as Hbound.
    assert (Hstream' : buff ++ List.concat segments
                       = (JS.encode line ++ [13; 10]%Z) ++ rest)
      by (rewrite Hstream, <- app_assoc; reflexivity).
    destruct (app_split_prefix _ _ _ _ Hstream') as [tail [E1 E2]].
    { rewrite length_app. simpl. lia. }
    subst buff rest. repeat split; auto.
    + rewrite <- app_assoc. now apply firstn_exact.
    + rewrite skipn_exact; [reflexivity|]. rewrite length_app. simpl. lia.
  - destruct segments as [|v segments]; [|now exists v, segments].
    cbn [List.concat] in Hstream. rewrite app_nil_r in Hstream.
    rewrite Hstream, Hline in E. discriminate.
Qed.

Lemma chunkedBody_nil (last : string) (ending : JS.Uint8Array) :
  chunkedBody [] last ending = JS.encode last ++ 13%Z :: 10%Z :: ending.
Proof. reflexivity. Qed.

Lemma chunkedBody_cons (chunk : string * JS.Uint8Array)
  (chunks : list (string * JS.Uint8Array)) (last : string) (ending : JS.Uint8Array) :
  chunkedBody (chunk :: chunks) last ending
  = JS.encode (fst chunk) ++ 13%Z :: 10%Z
      :: (snd chunk ++ 13%Z :: 10%Z :: chunkedBody chunks last ending).
Proof.
  unfold chunkedBody, encodeChunk. cbn [map List.concat].
  rewrite <- ?app_assoc. cbn [app]. rewrite <- ?app_assoc. reflexivity.
Qed.

(** The loop on a well-formed chunked body, however the stream cuts it
    into reads: with fuel above the weight of what is left, it yields the
    payloads and ends normally. *)
Lemma readChunks_loop_wellformed (fuel : nat) :
  forall (chunks : list (string * JS.Uint8Array)) (last : string)
         (ending : JS.Uint8Array) (segments : list JS.Uint8Array)
         (buff : JS.Uint8Array),
    Forall wellFormedChunk chunks ->
    sizeLine last 0 ->
    buff ++ List.concat segments = chunkedBody chunks last ending ->
    (List.length buff + BaseProxy.readerWeight (map Chunk segments) < fuel)%nat ->
    BaseProxy.readChunks_loop fuel (map Chunk segments) buff
    = Some (map snd chunks, Closed).
Proof.
  induction fuel as [|fuel IH]; intros chunks last ending segments buff Hwf Hlast Hs Hfuel;
    [lia|].
  cbn [BaseProxy.readChunks_loop].
  destruct chunks as [|[line payload] chunks].
  - (* the zero-size line *)
    rewrite chunkedBody_nil in Hs.
    pose proof (size_line_found last 0 ending segments buff (proj2 Hlast) Hs) as Hfound.
    destruct (BaseProxy.findCRLF buff) as [pos|].
    + destruct Hfound as [Hpos [Hbound [Hline _]]].
      rewrite slice_prefix by lia. rewrite Hline, decode_encode.
      rewrite (parseInt_sizeLine last 0 Hlast). reflexivity.
    + destruct Hfound as [v [segments' ->]]. cbn [map].
      apply (IH [] last ending segments' (buff ++ v)); auto.
      * rewrite chunkedBody_nil, <- Hs. cbn [List.concat]. now rewrite app_assoc.
      * cbn [map BaseProxy.readerWeight] in Hfuel. rewrite length_app. lia.
  - (* a chunk *)
    rewrite chunkedBody_cons in Hs. cbn [fst snd] in Hs.
    inversion Hwf as [|c cs [Hline Hnonempty] Hwf']; subst c cs. cbn [fst snd] in *.
    pose proof (size_line_found line _ _ segments buff (proj2 Hline) Hs) as Hfound.
    destruct (BaseProxy.findCRLF buff) as [pos|].
    + destruct Hfound as [Hpos [Hbound [Hl Hrest]]].
      rewrite slice_prefix by lia. rewrite Hl, decode_encode.
      rewrite (parseInt_sizeLine line _ Hline).
      assert (Hsize : (Z.of_nat (List.length payload) =? 0)%Z = false).
      { apply Z.eqb_neq. destruct payload; [contradiction | simpl; lia]. }
      rewrite Hsize.
      replace (Z.of_nat pos + 2)%Z with (Z.of_nat (pos + 2)) by lia.
      rewrite slice_from by lia.
      replace (Z.of_nat (List.length payload) + 2)%Z
        with (Z.of_nat (List.length payload + 2)) by lia.
      destruct (fillBuffer_enough segments (skipn (pos + 2) buff)
                  (Z.of_nat (List.length payload + 2)))
        as [segments' [b' [Hf [Hb [Hn Hw]]]]].
      { rewrite <- Hrest, length_app. cbn [List.length]. lia. }
      rewrite Hf.
      assert (Hb' : b' ++ List.concat segments'
                    = (payload ++ [13; 10]%Z) ++ chunkedBody chunks last ending).
      { rewrite Hb, <- Hrest, <- app_assoc. reflexivity. }
      destruct (app_split_prefix _ _ _ _ Hb') as [tail [E1 E2]].
      { rewrite length_app. cbn [List.length]. lia. }
      assert (Hlen : (List.length payload + 2 <= List.length b')%nat).
      { rewrite E1, !length_app. cbn [List.length]. lia. }
      rewrite slice_from by lia. rewrite slice_prefix by lia.
      rewrite (IH chunks last ending segments' (skipn (List.length payload + 2) b'));
        auto.
      * rewrite E1, <- app_assoc. rewrite firstn_exact by reflexivity. reflexivity.
      * rewrite E1, skipn_exact; [now symmetry|]. rewrite length_app. simpl. lia.
      * rewrite length_skipn. rewrite length_skipn in Hw. lia.
    + destruct Hfound as [v [segments' ->]]. cbn [map].
      apply (IH ((line, payload) :: chunks) last ending segments' (buff ++ v)); auto.
      * rewrite chunkedBody_cons. cbn [fst snd]. rewrite <- Hs.
        cbn [List.concat]. now rewrite app_assoc.
      * cbn [map BaseProxy.readerWeight] in Hfuel. rewrite length_app. lia.
Qed.

Lemma slice_length (a : JS.Uint8Array) (start : Z) (stop : option Z) :
  (List.length (JS.slice a start stop) <= List.length a)%nat.
Proof.
  unfold JS.slice. rewrite length_firstn, length_skipn. lia.
Qed.

Lemma fillBuffer_weight (reader reader' : Reader) (b b' : JS.Uint8Array) (need : Z) :
  BaseProxy.fillBuffer reader b need = (reader', Normal b') ->
  (List.length b' + BaseProxy.readerWeight reader'
   <= List.length b + BaseProxy.readerWeight reader)%nat.
Proof.
  revert b; induction reader as [|[v|e] reader IH]; intros b H;
    cbn [BaseProxy.fillBuffer] in H;
    destruct (Z.of_nat (List.length b) <? need)%Z; try discriminate;
    try (injection H as <- <-; lia).
  apply IH in H. rewrite length_app in H. cbn [BaseProxy.readerWeight]. lia.
Qed.

(** The fuel [readChunks] starts with is never used up: the loop ends on
    every input. *)
Lemma readChunks_loop_total (fuel : nat) :
  forall (reader : Reader) (buff : JS.Uint8Array),
    (List.length buff + BaseProxy.readerWeight reader < fuel)%nat ->
    BaseProxy.readChunks_loop fuel reader buff <> None.
Proof.
  induction fuel as [|fuel IH]; intros reader buff Hfuel; [lia|].
  cbn [BaseProxy.readChunks_loop].
  destruct (BaseProxy.findCRLF buff) as [pos|] eqn:E.
  - pose proof (findCRLF_bound buff pos E) as Hbound.
    destruct (JS.parseInt _ 16) as [size|]; [|discriminate].
    destruct (size =? 0)%Z; [discriminate|].
    replace (Z.of_nat pos + 2)%Z with (Z.of_nat (pos + 2)) by lia.
    rewrite slice_from by lia.
    destruct (BaseProxy.fillBuffer reader (skipn (pos + 2) buff) (size + 2))
      as [reader' [b'|e]] eqn:F; [|discriminate].
    apply fillBuffer_weight in F. rewrite length_skipn in F.
    pose proof (slice_length b' (size + 2) None) as Hs.
    specialize (IH reader' (JS.slice b' (size + 2) None) ltac:(lia)).
    destruct (BaseProxy.readChunks_loop fuel reader' (JS.slice b' (size + 2) None))
      as [[chunks fin]|]; [discriminate | contradiction].
  - destruct reader as [|[v|e] reader]; try discriminate.
    apply IH. cbn [BaseProxy.readerWeight] in Hfuel. rewrite length_app. lia.
Qed.

Lemma readChunks_run (reader : Reader) (buff : JS.Uint8Array) :
  BaseProxy.readChunks_loop (S (List.length buff + BaseProxy.readerWeight reader))
    reader buff
  = Some (BaseProxy.readChunks reader buff).
Proof.
  unfold BaseProxy.readChunks.
  pose proof (readChunks_loop_total (S (List.length buff + BaseProxy.readerWeight reader))
                reader buff ltac:(lia)) as H.
  destruct (BaseProxy.readChunks_loop _ reader buff); [reflexivity | contradiction].
Qed.

(** C8. For a well-formed chunked body, however the stream cuts it into
    reads and whatever part of it is already in the buffer, [readChunks]
    yields the chunk payloads, one by one and in order, and ends normally:
    what it yields adds up to the concatenation of the payloads, without
    any of the CRLF that follow them. *)
Theorem readChunks_wellformed (chunks : list (string * JS.Uint8Array))
  (last : string) (ending : JS.Uint8Array) (segments : list JS.Uint8Array)
  (buff : JS.Uint8Array) :
  Forall wellFormedChunk chunks ->
  sizeLine last 0 ->
  buff ++ List.concat segments = chunkedBody chunks last ending ->
  BaseProxy.readChunks (map Chunk segments) buff = (map snd chunks, Closed)
  /\ List.concat (fst (BaseProxy.readChunks (map Chunk segments) buff))
     = List.concat (map snd chunks).
Proof.
  intros Hwf Hlast Hs.
  assert (H : BaseProxy.readChunks (map Chunk segments) buff = (map snd chunks, Closed)).
  { unfold BaseProxy.readChunks.
    rewrite (readChunks_loop_wellformed _ chunks last ending segments buff Hwf Hlast Hs);
      [reflexivity | lia]. }
  split; [exact H | now rewrite H].
Qed.

Example readChunks_hello_world :
  BaseProxy.readChunks
    [Chunk (JS.encode "5" ++ [13; 10]%Z ++ JS.encode "hel");
     Chunk (JS.encode "lo" ++ [13; 10]%Z ++ JS.encode "6");
     Chunk ([13; 10]%Z ++ JS.encode " world" ++ [13; 10]%Z ++ JS.encode "0"
            ++ [13; 10; 13; 10]%Z)]
    []
  = ([JS.encode "hello"; JS.encode " world"], Closed).
Proof. reflexivity. Qed.

Lemma readChunks_wellformed_witness :
  let chunks := [("5", JS.encode "hello"); ("6", JS.encode " world")] in
  let segments :=
    [JS.encode "lo" ++ [13; 10]%Z ++ JS.encode "6";
     [13; 10]%Z ++ JS.encode " world" ++ [13; 10]%Z ++ JS.encode "0"
     ++ [13; 10; 13; 10]%Z] in
  let buff := JS.encode "5" ++ [13; 10]%Z ++ JS.encode "hel" in
  Forall wellFormedChunk chunks
  /\ sizeLine "0" 0
  /\ buff ++ List.concat segments = chunkedBody chunks "0" [13; 10]%Z
  /\ BaseProxy.readChunks (map Chunk segments) buff
     = ([JS.encode "hello"; JS.encode " world"], Closed)
  /\ List.concat (fst (BaseProxy.readChunks (map Chunk segments) buff))
     = JS.encode "hello world".
Proof.
  intros chunks segments buff.
  assert (H1 : Forall wellFormedChunk chunks).
  { repeat constructor; try discriminate. }
  assert (H2 : sizeLine "0" 0) by (split; [discriminate | reflexivity]).
  assert (H3 : buff ++ List.concat segments = chunkedBody chunks "0" [13; 10]%Z)
    by reflexivity.
  split; [exact H1|]. split; [exact H2|]. split; [exact H3|].
  exact (readChunks_wellformed chunks "0" [13; 10]%Z segments buff H1 H2 H3).
Defined.

(** ** proxies/base.js: the body of a parsed response *)

Lemma isChunked_spec (headers : Headers.t) :
  BaseProxy.isChunked headers = true
  <-> exists v, Headers.get headers "transfer-encoding" = Some v /\ occurs "chunked" v.
Proof.
  unfold BaseProxy.isChunked, occurs.
  destruct (Headers.get headers "transfer-encoding") as [v|].
  - rewrite includes_spec. split.
    + intros H. now exists v.
    + intros [w [E H]]. now injection E as ->.
  - split; [discriminate | intros [w [E _]]; discriminate].
Qed.


(** On a reader that delivers [values] and ends, the fixed-length loop
    enqueues the shortest prefix of [values] that brings the byte count
    to [n], or all of them when the stream ends before. *)
Lemma readFixed_prefix (values : list JS.Uint8Array) (received n : Z) :
  exists k,
    BaseProxy.readFixed (map Chunk values) received (Some n) = (firstn k values, Closed)
    /\ (k <= List.length values)%nat
    /\ (k = List.length values \/ (n <= received + totalLength (firstn k values))%Z)
    /\ forall j, (j < k)%nat -> (received + totalLength (firstn j values) < n)%Z.
Proof.
  revert received; induction values as [|v values IH]; intros received.
  - exists 0%nat. cbn [map BaseProxy.readFixed BaseProxy.below].
    destruct (received <? n)%Z; repeat split; auto; intros j Hj; lia.
  - cbn [map BaseProxy.readFixed BaseProxy.below].
    destruct (received <? n)%Z eqn:E.
    + destruct (IH (received + Z.of_nat (List.length v))%Z) as [k [Hk [Hle [Hend Hmin]]]].
      exists (S k). rewrite Hk. cbn [firstn List.length]. unfold totalLength in *.
      cbn [List.concat]. rewrite !length_app, !Nat2Z.inj_add.
      repeat split; [lia| |].
      * destruct Hend as [-> | Hend]; [now left | right; lia].
      * intros [|j] Hj; [cbn; apply Z.ltb_lt in E; lia|].
        cbn [firstn List.concat]. rewrite length_app, Nat2Z.inj_add.
        specialize (Hmin j ltac:(lia)). lia.
    + exists 0%nat. apply Z.ltb_ge in E. cbn [firstn]. unfold totalLength. cbn.
      repeat split; [lia | right; lia | intros j Hj; lia].
Qed.

Example responseBody_content_length :
  BaseProxy.responseBody [("Content-Length", "17")]
    [Chunk (JS.encode "o wor"); Chunk (JS.encode "ld, bye"); Chunk (JS.encode "more")]
    (JS.encode "hello")
  = ([JS.encode "hello"; JS.encode "o wor"; JS.encode "ld, bye"], Closed).
Proof. reflexivity. Qed.

(** [parseResponse] answers as soon as the header block is complete, with
    the body produced by [responseBody] from the parsed headers, when the
    status is one a response with a body can have. *)
Lemma parseResponse_body
  (parseHttpHeaders : JS.Uint8Array -> Completion (option BaseProxy.ParsedHead))
  (value buff : JS.Uint8Array) (reader : Reader) (parsed : BaseProxy.ParsedHead) :
  parseHttpHeaders (buff ++ value) = Normal (Some parsed) ->
  let data := JS.slice (buff ++ value) (BaseProxy.headerEnd parsed + 4) None in
  let produced := BaseProxy.responseBody (BaseProxy.head_headers parsed) reader data in
  BaseProxy.parseResponse_from parseHttpHeaders (Chunk value :: reader) buff
  = newResponse (BaseProxy.head_status parsed)
      (BaseProxy.head_statusText parsed) (BaseProxy.head_headers parsed)
      (Streamed (fst produced) (snd produced)).
Proof.
  intros H data produced. cbn [BaseProxy.parseResponse_from].
  unfold BaseProxy.concatUint8Arrays. cbn [List.concat]. rewrite app_nil_r, H.
  fold data. fold produced. destruct produced as [chunks fin]. reflexivity.
Qed.



(** ** proxies/socket.js *)

(** Whatever port the URL carries, the HTTP path connects to 443 or 80. *)
Lemma httpTarget_port (targetUrl : URL) :
  SocketProxy.target_port (SocketProxy.httpTarget targetUrl)
  = JS.Finite (if String.eqb (protocol targetUrl) "https:" then 443 else 80) 0.
Proof. reflexivity. Qed.

Lemma httpTarget_hostname (targetUrl : URL) :
  SocketProxy.target_hostname (SocketProxy.httpTarget targetUrl) = hostname targetUrl.
Proof. reflexivity. Qed.

(** TLS is on exactly for the [https:] scheme. *)
Lemma httpTarget_secure (targetUrl : URL) :
  SocketProxy.secureTransport (SocketProxy.httpTarget targetUrl) = true
  <-> protocol targetUrl = "https:".
Proof. unfold SocketProxy.httpTarget. simpl. apply String.eqb_eq. Qed.

(** The WebSocket path of the same class and the SOCKS5 HTTP path do use
    the explicit port. *)
Example webSocketTarget_explicit_port :
  SocketProxy.target_port
    (SocketProxy.webSocketTarget (mkURL "ws:" "example.com" "8080" "/" ""))
  = JS.Finite 8080 0.
Proof. reflexivity. Qed.

Example socks5_httpPort_explicit_port :
  Socks5Proxy.httpPort (mkURL "http:" "example.com" "8080" "/" "") = JS.Finite 8080 0.
Proof. reflexivity. Qed.

(** C6. The claim asks for the URL's explicit port when there is one.  At
    [http://example.com:8080/] the HTTP path of the socket transport
    connects to port 80: the explicit port 8080 is not used.  (Host name
    and TLS are as claimed.) *)
Theorem httpTarget_explicit_port_ignored :
  let targetUrl := mkURL "http:" "example.com" "8080" "/" "" in
  SocketProxy.httpTarget targetUrl
  = SocketProxy.mkSocketTarget "example.com" (JS.Finite 80 0) false
  /\ JS.Number (port targetUrl) = JS.Finite 8080 0
  /\ SocketProxy.target_port (SocketProxy.httpTarget targetUrl)
     <> JS.Number (port targetUrl).
Proof. cbv zeta. repeat split. discriminate. Qed.

Lemma isCloudflareNetworkError_existsb (error : Error) :
  SocketProxy.isCloudflareNetworkError error
  = JS.truthy (message error)
    && existsb (JS.includes (message error)) NETWORK_RESTRICTED.
Proof.
  unfold SocketProxy.isCloudflareNetworkError, NETWORK_RESTRICTED.
  cbn [existsb]. rewrite orb_false_r, !orb_assoc. reflexivity.
Qed.

(** An error is classified as network-restricted exactly when its message
    contains one of the nine messages. *)
Lemma isCloudflareNetworkError_spec (error : Error) :
  SocketProxy.isCloudflareNetworkError error = true <-> restricted error.
Proof.
  rewrite isCloudflareNetworkError_existsb, andb_true_iff, existsb_exists.
  unfold restricted, occurs. split.
  - intros [_ [sub [Hin Hinc]]]. exists sub. split; [exact Hin|].
    now apply includes_spec.
  - intros [sub [Hin Hocc]]. split.
    + destruct Hocc as [pre [post E]]. rewrite E.
      destruct pre; [|reflexivity]. simpl.
      unfold NETWORK_RESTRICTED in Hin. simpl in Hin.
      repeat (destruct Hin as [<- | Hin]; [reflexivity|]). contradiction.
    + exists sub. split; [exact Hin|]. now apply includes_spec.
Qed.

Lemma reissue_not_returned (config : Config) (req : Streams.Request)
  (dstUrl : string) (r : Response) :
  SocketProxy.reissue config req dstUrl <> Returned r.
Proof.
  unfold SocketProxy.reissue. destruct (SocketProxy.fallbackProxy config); discriminate.
Qed.

Section SocketConnectHttp.

Variable parseHttpHeaders : JS.Uint8Array -> Completion (option BaseProxy.ParsedHead).
Variable network : SocketProxy.SocketTarget -> Net.Peer.

(** What [connectHttp] does with an error thrown inside its [try]. *)
Lemma connectHttp_on_error (config : Config) (st st1 st2 : Streams.Store)
  (req reqForFallback : Streams.Request) (dstUrl : string) (targetUrl : URL)
  (writes : list JS.Uint8Array) (error : Error) :
  Streams.clone st req = (st1, Normal reqForFallback) ->
  SocketProxy.attempt parseHttpHeaders network st1 req targetUrl
    (SocketProxy.upstreamHeaders (Streams.requestHeaders req) targetUrl)
  = (st2, writes, Throw error) ->
  SocketProxy.connectHttp parseHttpHeaders network config st req dstUrl (Normal targetUrl)
  = SocketProxy.mkResult st2 writes
      (if SocketProxy.isCloudflareNetworkError error
       then SocketProxy.reissue config reqForFallback dstUrl
       else Returned (BaseProxy.handleError error "Socket connection" None)).
Proof.
  intros Hclone Hattempt. unfold SocketProxy.connectHttp.
  rewrite Hclone. cbv zeta. rewrite Hattempt.
  destruct (SocketProxy.isCloudflareNetworkError error); reflexivity.
Qed.

(** The constructor of the fallback transport throws only for the
    strategy [socks5], when the SOCKS5 address does not parse. *)
Lemma fallbackProxy_throws (config : Config) (e : Error) :
  SocketProxy.fallbackProxy config = Throw e
  <-> JS.toLowerCase (SocketProxy.fallbackStrategy config) = "socks5"
      /\ Socks5Proxy.parseSocks5Address (SOCKS5_ADDRESS config) = Throw e.
Proof.
  unfold SocketProxy.fallbackProxy, Socks5Proxy.new.
  cbn [SOCKS5_ADDRESS SocketProxy.fallbackConfig].
  set (strategy := JS.toLowerCase (SocketProxy.fallbackStrategy config)).
  destruct (String.eqb_spec strategy "fetch") as [E|_].
  { rewrite E. split; [discriminate | intros [H _]; discriminate H]. }
  destruct (String.eqb_spec strategy "socks5") as [E|N].
  { destruct (Socks5Proxy.parseSocks5Address (SOCKS5_ADDRESS config)) as [parsed|e'].
    - split; [discriminate | intros [_ H]; discriminate H].
    - split.
      + intros H. injection H as ->. split; [exact E | reflexivity].
      + intros [_ H]. injection H as ->. reflexivity. }
  destruct (String.eqb strategy "thirdparty");
    [split; [discriminate | intros [H _]; contradiction]|].
  destruct (String.eqb strategy "cloudprovider");
    split; try discriminate; intros [H _]; contradiction.
Qed.

(** C4, as amended.  For an error thrown inside the [try] of
    [connectHttp]: the call returns what the fallback transport's
    [connectHttp] returns on the clone exactly when the message of the
    error contains one of the nine messages and the fallback transport
    can be constructed; when the message contains one of them and the
    constructor throws, which it does only for the strategy [socks5] with
    a SOCKS5 address that does not parse, that exception leaves the call
    and nothing is re-issued; any other error is returned as the response
    of status 500 with the text [Error socket connection: ] and the
    message. *)
Theorem connectHttp_error_classification (config : Config)
  (st st1 st2 : Streams.Store) (req reqForFallback : Streams.Request)
  (dstUrl : string) (targetUrl : URL) (writes : list JS.Uint8Array)
  (error : Error) :
  Streams.clone st req = (st1, Normal reqForFallback) ->
  SocketProxy.attempt parseHttpHeaders network st1 req targetUrl
    (SocketProxy.upstreamHeaders (Streams.requestHeaders req) targetUrl)
  = (st2, writes, Throw error) ->
  let r := SocketProxy.connectHttp parseHttpHeaders network config st req dstUrl
             (Normal targetUrl) in
  (forall proxy request url,
      SocketProxy.outcome r = Fallback proxy request url
      <-> restricted error /\ SocketProxy.fallbackProxy config = Normal proxy
          /\ request = reqForFallback /\ url = dstUrl)
  /\ (forall e,
        SocketProxy.outcome r = Thrown e
        <-> restricted error /\ SocketProxy.fallbackProxy config = Throw e)
  /\ (forall response,
        SocketProxy.outcome r = Returned response
        <-> ~ restricted error
            /\ response
               = textResponse ("Error socket connection: " ++ message error) 500)
  /\ (forall e,
        SocketProxy.fallbackProxy config = Throw e
        <-> JS.toLowerCase (SocketProxy.fallbackStrategy config) = "socks5"
            /\ Socks5Proxy.parseSocks5Address (SOCKS5_ADDRESS config) = Throw e).
Proof.
  intros Hclone Hattempt r. subst r.
  rewrite (connectHttp_on_error config st st1 st2 req reqForFallback dstUrl
             targetUrl writes error Hclone Hattempt).
  cbn [SocketProxy.outcome].
  pose proof (isCloudflareNetworkError_spec error) as Hspec.
  unfold SocketProxy.reissue.
  destruct (SocketProxy.isCloudflareNetworkError error).
  - assert (Hr : restricted error) by now apply Hspec.
    split; [|split; [|split]].
    + intros proxy request url.
      destruct (SocketProxy.fallbackProxy config) as [p|e]; split.
      * intros H. injection H as <- <- <-. auto.
      * intros [_ [H [-> ->]]]. now injection H as ->.
      * discriminate.
      * intros [_ [H _]]. discriminate H.
    + intros e.
      destruct (SocketProxy.fallbackProxy config) as [p|e']; split.
      * discriminate.
      * intros [_ H]. discriminate H.
      * intros H. injection H as <-. auto.
      * intros [_ H]. now injection H as ->.
    + intros response. split.
      * destruct (SocketProxy.fallbackProxy config); discriminate.
      * intros [H _]. contradiction.
    + apply fallbackProxy_throws.
  - assert (Hr : ~ restricted error).
    { intros H. apply Hspec in H. discriminate H. }
    split; [|split; [|split]].
    + intros proxy request url. split; [discriminate | intros [H _]; contradiction].
    + intros e. split; [discriminate | intros [H _]; contradiction].
    + intros response. split.
      * intros H. injection H as <-. split; [exact Hr | reflexivity].
      * intros [_ ->]. reflexivity.
    + apply fallbackProxy_throws.
Qed.

End SocketConnectHttp.

Lemma connectHttp_error_classification_witness :
  let parse := Scenario.noHead in
  let network := fun _ : SocketProxy.SocketTarget => Scenario.refusing "connection failed" in
  let error := mkError "connection failed" in
  let st1 := Scenario.store ++ Scenario.store in
  let clone := Streams.mkRequest "POST" [("Content-Type", "text/plain"); ("CF-Ray", "1")] (Some 1%nat) in
  let config := Scenario.config in
  let dstUrl := "http://example.com/submit?a=1" in
  let r := SocketProxy.connectHttp parse network config Scenario.store
             Scenario.post dstUrl (Normal Scenario.targetUrl) in
  Streams.clone Scenario.store Scenario.post = (st1, Normal clone)
  /\ SocketProxy.attempt parse network st1 Scenario.post Scenario.targetUrl
       (SocketProxy.upstreamHeaders (Streams.requestHeaders Scenario.post) Scenario.targetUrl)
     = (st1, [], Throw error)
  /\ restricted error
  /\ SocketProxy.outcome r
     = Fallback (FetchInstance (SocketProxy.fallbackConfig config)) clone dstUrl
  /\ (forall proxy request url,
         SocketProxy.outcome r = Fallback proxy request url
         <-> restricted error /\ SocketProxy.fallbackProxy config = Normal proxy
             /\ request = clone /\ url = dstUrl)
  /\ (forall e,
        SocketProxy.outcome r = Thrown e
        <-> restricted error /\ SocketProxy.fallbackProxy config = Throw e)
  /\ (forall response,
        SocketProxy.outcome r = Returned response
        <-> ~ restricted error
            /\ response
               = textResponse ("Error socket connection: " ++ message error) 500)
  /\ (forall e,
        SocketProxy.fallbackProxy config = Throw e
        <-> JS.toLowerCase (SocketProxy.fallbackStrategy config) = "socks5"
            /\ Socks5Proxy.parseSocks5Address (SOCKS5_ADDRESS config) = Throw e).
Proof.
  intros parse network error st1 clone config dstUrl r.
  assert (H1 : Streams.clone Scenario.store Scenario.post = (st1, Normal clone))
    by reflexivity.
  assert (H2 : SocketProxy.attempt parse network st1 Scenario.post Scenario.targetUrl
                 (SocketProxy.upstreamHeaders (Streams.requestHeaders Scenario.post)
                    Scenario.targetUrl)
               = (st1, [], Throw error)) by reflexivity.
  split; [exact H1|]. split; [exact H2|]. split.
  { exists "connection failed". split.
    - unfold NETWORK_RESTRICTED. simpl. tauto.
    - exists "", "". reflexivity. }
  split; [reflexivity|].
  exact (connectHttp_error_classification parse network config
           Scenario.store st1 st1 Scenario.post clone
           dstUrl Scenario.targetUrl [] error H1 H2).
Defined.

(** C4, as stated, fails for an error whose message is one of the nine
    when the fallback transport cannot be constructed: the strategy is
    [socks5], the credentials of the SOCKS5 address have no colon, the
    constructor throws and nothing is re-issued. *)
Lemma connectHttp_classified_error_not_reissued :
  let parse := Scenario.noHead in
  let network :=
    fun _ : SocketProxy.SocketTarget => Scenario.refusing "Network connection failure" in
  let error := mkError "Network connection failure" in
  let r := SocketProxy.connectHttp parse network Scenario.socksFallbackConfig
             Scenario.store Scenario.post "http://example.com/submit?a=1"
             (Normal Scenario.targetUrl) in
  snd (SocketProxy.attempt parse network
         (fst (Streams.clone Scenario.store Scenario.post))
         Scenario.post Scenario.targetUrl
         (SocketProxy.upstreamHeaders (Streams.requestHeaders Scenario.post)
            Scenario.targetUrl))
  = Throw error
  /\ restricted error
  /\ SocketProxy.outcome r = Thrown (mkError "Invalid SOCKS address format")
  /\ forall proxy reqForFallback dstUrl,
       SocketProxy.outcome r <> Fallback proxy reqForFallback dstUrl.
Proof.
  cbv zeta. repeat split.
  - exists "Network connection failure". split.
    + unfold NETWORK_RESTRICTED. simpl. tauto.
    + exists "", "". reflexivity.
  - intros proxy reqForFallback dstUrl. discriminate.
Qed.

(** *** The clone handed to the fallback *)

Lemma nth_error_update_other (st : Streams.Store) (id j : nat) (s : Streams.BodyStream) :
  id <> j -> nth_error (Streams.update st id s) j = nth_error st j.
Proof.
  revert id j; induction st as [|x st IH]; intros id j Hne.
  - destruct id, j; reflexivity.
  - destruct id as [|id], j as [|j]; simpl; try reflexivity.
    + contradiction.
    + apply IH. congruence.
Qed.

Lemma forwardBody_other (st st' : Streams.Store) (req : Streams.Request)
  (socket socket' : Net.Sock) (c : Completion unit) (j : nat) :
  SocketProxy.forwardBody st req socket = (st', socket', c) ->
  Streams.requestBody req <> Some j ->
  nth_error st' j = nth_error st j.
Proof.
  unfold SocketProxy.forwardBody. intros H Hne.
  destruct (Streams.requestBody req) as [id|].
  - destruct (nth_error st id) as [s|].
    + destruct (SocketProxy.forwardChunks (Streams.remaining s) socket) as [[unread sk] c'].
      injection H as <- _ _. apply nth_error_update_other. congruence.
    + now injection H as <- _ _.
  - now injection H as <- _ _.
Qed.

Section SocketFallback.

Variable parseHttpHeaders : JS.Uint8Array -> Completion (option BaseProxy.ParsedHead).
Variable network : SocketProxy.SocketTarget -> Net.Peer.

(** The [try] block only touches the body stream of the request it was
    given. *)
Lemma attempt_other (st st' : Streams.Store) (req : Streams.Request)
  (targetUrl : URL) (cleanedHeaders : Headers.t) (writes : list JS.Uint8Array)
  (c : Completion Response) (j : nat) :
  SocketProxy.attempt parseHttpHeaders network st req targetUrl cleanedHeaders
  = (st', writes, c) ->
  Streams.requestBody req <> Some j ->
  nth_error st' j = nth_error st j.
Proof.
  unfold SocketProxy.attempt. intros H Hne.
  destruct (Net.connect _) as [socket|e].
  - destruct (Net.write _ socket) as [socket1 [[]|e]].
    + destruct (SocketProxy.forwardBody st req socket1) as [[st1 socket2] [[]|e]] eqn:F;
        injection H as <- _ _; now apply (forwardBody_other _ _ _ _ _ _ _ F).
    + now injection H as <- _ _.
  - now injection H as <- _ _.
Qed.

(** C3, as amended.  For a request whose body was not read yet (any
    method, hence every POST with a non-empty body): when the [try] of
    [connectHttp] throws a network-restricted error and the fallback
    transport can be built, its [connectHttp] is called with the clone
    made on entry, before any read of the body.  The clone has a stream of
    its own, nothing was read from it, and it still delivers the whole
    body of the original request, byte for byte. *)
Theorem connectHttp_fallback_keeps_body (config : Config) (st st2 : Streams.Store)
  (req : Streams.Request) (dstUrl : string) (targetUrl : URL) (id : nat)
  (s : Streams.BodyStream) (writes : list JS.Uint8Array) (error : Error)
  (proxy : ProxyInstance) :
  Streams.requestBody req = Some id ->
  nth_error st id = Some s ->
  Streams.bodyUsed s = false ->
  SocketProxy.attempt parseHttpHeaders network (fst (Streams.clone st req)) req targetUrl
    (SocketProxy.upstreamHeaders (Streams.requestHeaders req) targetUrl)
  = (st2, writes, Throw error) ->
  restricted error ->
  SocketProxy.fallbackProxy config = Normal proxy ->
  let r := SocketProxy.connectHttp parseHttpHeaders network config st req dstUrl
             (Normal targetUrl) in
  exists reqForFallback,
    snd (Streams.clone st req) = Normal reqForFallback
    /\ SocketProxy.outcome r = Fallback proxy reqForFallback dstUrl
    /\ Streams.requestBody reqForFallback <> Streams.requestBody req
    /\ Streams.untouched (SocketProxy.store r) reqForFallback = true
    /\ Streams.content (SocketProxy.store r) reqForFallback
       = Some (List.concat (Streams.remaining s))
    /\ Streams.content st req = Some (List.concat (Streams.remaining s)).
Proof.
  intros Hbody Hs Hfresh Hattempt Hrestricted Hproxy r.
  assert (Hlt : (id < List.length st)%nat)
    by (apply nth_error_Some; rewrite Hs; discriminate).
  set (reqForFallback :=
         Streams.mkRequest (Streams.method req) (Streams.requestHeaders req)
           (Some (List.length st))).
  assert (Hclone : Streams.clone st req = (st ++ [s], Normal reqForFallback)).
  { unfold Streams.clone. now rewrite Hbody, Hs, Hfresh. }
  rewrite Hclone in Hattempt. cbn [fst] in Hattempt.
  assert (Hkept : nth_error st2 (List.length st) = Some s).
  { rewrite (attempt_other _ _ _ _ _ _ _ _ Hattempt).
    - rewrite nth_error_app2, Nat.sub_diag by lia. reflexivity.
    - rewrite Hbody. intros E. injection E as E. lia. }
  exists reqForFallback. subst r.
  rewrite (connectHttp_on_error parseHttpHeaders network config st _ st2 req
             reqForFallback dstUrl targetUrl writes error Hclone Hattempt).
  apply isCloudflareNetworkError_spec in Hrestricted. rewrite Hrestricted.
  unfold SocketProxy.reissue. rewrite Hproxy, Hclone.
  cbn [snd SocketProxy.outcome SocketProxy.store].
  unfold Streams.untouched, Streams.content.
  cbn [Streams.requestBody reqForFallback]. rewrite Hkept, Hbody, Hs, Hfresh.
  repeat split. intros E. injection E as E. lia.
Qed.

End SocketFallback.

(** With the fetch fallback, the body handed to [fetch] is the stream of
    the request [connectHttp] was called with: here, the clone. *)
Lemma fetch_sends_request_body (req : Streams.Request) (dstUrl : string)
  (targetUrl : URL) :
  fetch_body (FetchProxy.fetchRequest req dstUrl targetUrl)
  = streamBody (Streams.requestBody req)
  /\ fetch_method (FetchProxy.fetchRequest req dstUrl targetUrl) = Streams.method req.
Proof. split; reflexivity. Qed.

Lemma connectHttp_fallback_keeps_body_witness :
  let parse := Scenario.noHead in
  let network := fun _ : SocketProxy.SocketTarget =>
                   Scenario.breakingAfterHead "TCP Loop detected" in
  let error := mkError "TCP Loop detected" in
  let s := Streams.mkBodyStream [JS.encode "hello"; JS.encode " world"] false in
  let head :=
    JS.encode (requestHead "POST" Scenario.targetUrl
                 (SocketProxy.upstreamHeaders (Streams.requestHeaders Scenario.post)
                    Scenario.targetUrl)) in
  let st2 := [Streams.mkBodyStream [JS.encode " world"] true; s] in
  let r := SocketProxy.connectHttp parse network Scenario.config Scenario.store
             Scenario.post "http://example.com/submit?a=1" (Normal Scenario.targetUrl) in
  SocketProxy.attempt parse network (fst (Streams.clone Scenario.store Scenario.post))
    Scenario.post Scenario.targetUrl
    (SocketProxy.upstreamHeaders (Streams.requestHeaders Scenario.post) Scenario.targetUrl)
  = (st2, [head], Throw error)
  /\ restricted error
  /\ exists reqForFallback,
       snd (Streams.clone Scenario.store Scenario.post) = Normal reqForFallback
       /\ SocketProxy.outcome r
          = Fallback (FetchInstance (SocketProxy.fallbackConfig Scenario.config))
              reqForFallback "http://example.com/submit?a=1"
       /\ Streams.requestBody reqForFallback <> Streams.requestBody Scenario.post
       /\ Streams.untouched (SocketProxy.store r) reqForFallback = true
       /\ Streams.content (SocketProxy.store r) reqForFallback
          = Some (List.concat (Streams.remaining s))
       /\ Streams.content Scenario.store Scenario.post
          = Some (List.concat (Streams.remaining s)).
Proof.
  intros parse network error s head st2 r.
  assert (H1 : SocketProxy.attempt parse network
                 (fst (Streams.clone Scenario.store Scenario.post))
                 Scenario.post Scenario.targetUrl
                 (SocketProxy.upstreamHeaders (Streams.requestHeaders Scenario.post)
                    Scenario.targetUrl)
               = (st2, [head], Throw error)) by reflexivity.
  assert (H2 : restricted error).
  { exists "TCP Loop detected". split.
    - unfold NETWORK_RESTRICTED. simpl. tauto.
    - exists "", "". reflexivity. }
  split; [exact H1|]. split; [exact H2|].
  exact (connectHttp_fallback_keeps_body parse network Scenario.config
           Scenario.store st2 Scenario.post "http://example.com/submit?a=1"
           Scenario.targetUrl 0%nat s [head] error
           (FetchInstance (SocketProxy.fallbackConfig Scenario.config))
           eq_refl eq_refl eq_refl H1 H2 eq_refl).
Defined.

(** C3, as stated, fails when the fallback transport cannot be built: the
    fallback strategy is [socks5] and [SOCKS5_ADDRESS] is
    [user@proxy.example:1080], whose credentials do not split in two at a
    colon.  The POST body is [hello world], [connect] throws
    [TCP Loop detected], which is network-restricted; the constructor of
    the SOCKS5 transport then throws [Invalid SOCKS address format] out
    of [connectHttp], and no fallback [connectHttp] is called. *)
Lemma connectHttp_fallback_not_built :
  let parse := Scenario.noHead in
  let network := fun _ : SocketProxy.SocketTarget => Scenario.refusing "TCP Loop detected" in
  let error := mkError "TCP Loop detected" in
  let r := SocketProxy.connectHttp parse network Scenario.socksFallbackConfig
             Scenario.store Scenario.post "http://example.com/submit?a=1"
             (Normal Scenario.targetUrl) in
  Streams.method Scenario.post = "POST"
  /\ Streams.content Scenario.store Scenario.post = Some (JS.encode "hello world")
  /\ Streams.untouched Scenario.store Scenario.post = true
  /\ snd (SocketProxy.attempt parse network
            (fst (Streams.clone Scenario.store Scenario.post))
            Scenario.post Scenario.targetUrl
            (SocketProxy.upstreamHeaders (Streams.requestHeaders Scenario.post)
               Scenario.targetUrl))
     = Throw error
  /\ restricted error
  /\ SocketProxy.outcome r = Thrown (mkError "Invalid SOCKS address format")
  /\ forall proxy reqForFallback dstUrl,
       SocketProxy.outcome r <> Fallback proxy reqForFallback dstUrl.
Proof.
  cbv zeta. repeat split.
  - exists "TCP Loop detected". split.
    + unfold NETWORK_RESTRICTED. simpl. tauto.
    + exists "", "". reflexivity.
  - intros proxy reqForFallback dstUrl. discriminate.
Qed.

(** ** proxies/socks5.js *)

Example parseSocks5Address_full :
  Socks5Proxy.parseSocks5Address "user:pw@proxy.example:1080"
  = Normal (Socks5Proxy.mkSocks5Address (Some "user") (Some "pw")
              "proxy.example" (JS.Finite 1080 0)).
Proof. reflexivity. Qed.

Example parseSocks5Address_anonymous :
  Socks5Proxy.parseSocks5Address "[::1]:1080"
  = Normal (Socks5Proxy.mkSocks5Address None None "[::1]" (JS.Finite 1080 0)).
Proof. reflexivity. Qed.

Example parseSocks5Address_empty_user :
  Socks5Proxy.parseSocks5Address ":pw@proxy.example:1080"
  = Normal (Socks5Proxy.mkSocks5Address (Some "") (Some "pw")
              "proxy.example" (JS.Finite 1080 0)).
Proof. reflexivity. Qed.

Example parseSocks5Address_no_colon :
  Socks5Proxy.parseSocks5Address "user@proxy.example:1080"
  = Throw Socks5Proxy.invalidFormat.
Proof. reflexivity. Qed.

Example socks5Connect_domain :
  let server := Scenario.answering [[5; 0]%Z; [5; 0; 0; 1; 0; 0; 0; 0; 0; 0]%Z] in
  Socks5Proxy.socks5Connect
    (Socks5Proxy.mkSocks5Address None None "proxy.example" (JS.Finite 1080 0))
    server 2 "example.com" 443
  = (Net.mkSock server
       [[5; 2; 0; 2]%Z;
        ([5; 1; 0; 3; 11]%Z ++ JS.encode "example.com" ++ [1; 187]%Z)]
       [],
     Normal tt).
Proof. reflexivity. Qed.

(** An address without [@] has no credentials, and credentials come in
    pairs. *)
Lemma parseSocks5Address_credentials (address : string) (addr : Socks5Proxy.Socks5Address) :
  Socks5Proxy.parseSocks5Address address = Normal addr ->
  (Socks5Proxy.username addr = None <-> Socks5Proxy.password addr = None)
  /\ (JS.split "@" address = [address] -> Socks5Proxy.username addr = None).
Proof.
  unfold Socks5Proxy.parseSocks5Address. intros H.
  assert (G : forall (credentials : Completion (option string * option string)),
             match credentials with
             | Throw e => Throw e
             | Normal (username, password) =>
                 let latters := JS.split ":" (nth 0 (rev (JS.split "@" address)) "") in
                 let port := JS.Number (last latters "") in
                 if JS.isNaN port then Throw Socks5Proxy.invalidFormat
                 else
                   let hostname := JS.join ":" (removelast latters) in
                   if JS.includes hostname ":" && negb (Socks5Proxy.bracketed hostname)
                   then Throw Socks5Proxy.invalidFormat
                   else Normal (Socks5Proxy.mkSocks5Address username password hostname port)
             end = Normal addr ->
             exists u p, credentials = Normal (u, p)
                         /\ Socks5Proxy.username addr = u
                         /\ Socks5Proxy.password addr = p).
  { intros [[u p]|e] G; [|discriminate]. cbv zeta in G.
    destruct (JS.isNaN _); [discriminate|].
    destruct (_ && _); [discriminate|].
    injection G as <-. now exists u, p. }
  apply G in H. destruct H as [u [p [Hc [<- <-]]]]. clear G. split.
  - destruct (nth_error (rev (JS.split "@" address)) 1) as [former|].
    + destruct (JS.truthy former).
      * destruct (negb _) eqn:L; [discriminate|].
        apply negb_false_iff, Nat.eqb_eq in L.
        destruct (JS.split ":" former) as [|a [|b [|c rest]]]; try discriminate L.
        injection Hc as <- <-. cbn. split; discriminate.
      * injection Hc as <- <-. tauto.
    + injection Hc as <- <-. tauto.
  - intros Hsplit. rewrite Hsplit in Hc. cbn in Hc. now injection Hc as <- _.
Qed.

(** C10. When the SOCKS server answers the greeting with [05 02] and the
    parsed address has no user name or no password (undefined or empty),
    [socks5Connect] throws [please provide username/password]; the only
    bytes written to the socket are the greeting, so no CONNECT request
    was sent. *)
Theorem socks5Connect_requires_credentials (addr : Socks5Proxy.Socks5Address)
  (server : Net.Peer) (addressType : Z) (addressRemote : string) (portRemote : Z)
  (reply : JS.Uint8Array) (later : Reader) :
  Net.connect_error server = None ->
  Net.write_error server 0 = None ->
  Net.incoming server = Chunk reply :: later ->
  nth_error reply 0 = Some 5%Z ->
  nth_error reply 1 = Some 2%Z ->
  Socks5Proxy.missing (Socks5Proxy.username addr) = true
  \/ Socks5Proxy.missing (Socks5Proxy.password addr) = true ->
  let r := Socks5Proxy.socks5Connect addr server addressType addressRemote portRemote in
  snd r = Throw (mkError "please provide username/password")
  /\ Net.written (fst r) = [Socks5Proxy.socksGreeting].
Proof.
  intros Hc Hw Hin H0 H1 Hmiss r. subst r.
  unfold Socks5Proxy.socks5Connect, Net.connect. rewrite Hc.
  unfold Socks5Proxy.negotiate, Net.bind, Net.write, Net.readValue, Net.at_index.
  cbn [Net.peer Net.written Net.pending List.length]. rewrite Hw, Hin.
  cbn [Net.peer Net.written Net.pending Net.ret app]. rewrite H0, H1.
  cbn [Socks5Proxy.isByte Z.eqb Pos.eqb negb].
  unfold Socks5Proxy.authenticate, Socks5Proxy.missing in *.
  destruct (Socks5Proxy.username addr) as [u|], (Socks5Proxy.password addr) as [p|];
    try (split; reflexivity).
  destruct Hmiss as [Hm | Hm]; apply negb_true_iff in Hm; rewrite Hm;
    [|rewrite orb_true_r]; split; reflexivity.
Qed.

Lemma socks5Connect_requires_credentials_witness :
  let addr := Socks5Proxy.mkSocks5Address None None "proxy.example" (JS.Finite 1080 0) in
  let server := Scenario.answering [[5; 2]%Z] in
  let r := Socks5Proxy.socks5Connect addr server 2 "example.com" 443 in
  Socks5Proxy.parseSocks5Address "proxy.example:1080" = Normal addr
  /\ (Socks5Proxy.missing (Socks5Proxy.username addr) = true
      \/ Socks5Proxy.missing (Socks5Proxy.password addr) = true)
  /\ snd r = Throw (mkError "please provide username/password")
  /\ Net.written (fst r) = [[5; 2; 0; 2]%Z].
Proof.
  intros addr server r.
  assert (H : Socks5Proxy.missing (Socks5Proxy.username addr) = true
              \/ Socks5Proxy.missing (Socks5Proxy.password addr) = true)
    by (left; reflexivity).
  split; [reflexivity|]. split; [exact H|].
  exact (socks5Connect_requires_credentials addr server 2 "example.com" 443
           [5; 2]%Z [] eq_refl eq_refl eq_refl eq_refl eq_refl H).
Defined.

(** ** proxies/dot.js *)

Section DoTHandleDnsQuery.

Variable fetch : FetchRequest -> Completion Response.

(** When the socket exchange and the DoH fallback both throw, the
    response is [handleError(fallbackError, ...)] with no status argument,
    hence of status 500. *)
Lemma handleDnsQuery_double_failure (config : Config) (server : Net.Peer)
  (st st' : Streams.Store) (req : Streams.Request) (query : JS.Uint8Array)
  (socketError fallbackError : Error) :
  Streams.method req = "POST" ->
  Headers.get (Streams.requestHeaders req) "content-type"
  = Some "application/dns-message" ->
  Streams.arrayBuffer st req = (st', Normal query) ->
  DoTProxy.exchange server query = Throw socketError ->
  fetch (DoTProxy.fallbackRequest config (Some query)) = Throw fallbackError ->
  DoTProxy.handleDnsQuery fetch config server st req
  = (st', BaseProxy.handleError fallbackError "DoT and subsequent DoH fallback" None)
  /\ status (snd (DoTProxy.handleDnsQuery fetch config server st req)) = 500%Z.
Proof.
  intros Hm Hct Hq Hx Hf. unfold DoTProxy.handleDnsQuery.
  rewrite Hm, Hct, Hq, Hx, Hf. simpl. split; reflexivity.
Qed.

End DoTHandleDnsQuery.

(** C7. The claim asks for status 502 when the DoT exchange and the DoH
    fallback both fail.  For a well-formed DNS POST whose DoT [connect]
    throws [connection failed] and whose fallback [fetch] throws
    [fetch failed], [handleDnsQuery] returns status 500, with the text
    [Error dot and subsequent doh fallback: fetch failed]. *)
Theorem handleDnsQuery_double_failure_status :
  snd (DoTProxy.handleDnsQuery (Scenario.failingFetch "fetch failed")
         Scenario.config (Scenario.refusing "connection failed")
         Scenario.dnsStore Scenario.dnsQuery)
  = textResponse "Error dot and subsequent doh fallback: fetch failed" 500
  /\ status (snd (DoTProxy.handleDnsQuery (Scenario.failingFetch "fetch failed")
                    Scenario.config (Scenario.refusing "connection failed")
                    Scenario.dnsStore Scenario.dnsQuery)) <> 502%Z.
Proof. split; [reflexivity | discriminate]. Qed.

(** ** main.js *)

Example parseDestinationUrl_valid :
  ShadowProxy.parseDestinationUrl
    (mkURL "https:" "proxy.example" "" "/TOK/https/httpbin.org/get" "?a=1")
    (mkConfig "TOK" "https://default.example/" false "socket" "fetch" "" "" ""
       "dns.google" 443 "/dns-query" "dns.google" 853)
  = "https://httpbin.org/get?a=1".
Proof. reflexivity. Qed.

Example parseDestinationUrl_colon :
  ShadowProxy.parseDestinationUrl
    (mkURL "https:" "proxy.example" "" "//TOK/https:/httpbin.org//get" "")
    (mkConfig "TOK" "https://default.example/" false "socket" "fetch" "" "" ""
       "dns.google" 443 "/dns-query" "dns.google" 853)
  = "https://httpbin.org/get".
Proof. reflexivity. Qed.

(** The segments are the non-empty pieces of the path. *)
Lemma pathParts_nonempty (url : URL) (seg : string) :
  In seg (ShadowProxy.pathParts url) -> seg <> "".
Proof.
  unfold ShadowProxy.pathParts, JS.filter_Boolean. rewrite filter_In.
  intros [_ H] ->. discriminate.
Qed.

(** C1. Token gate: when the path has no segment, or its first segment
    is not [AUTH_TOKEN], [parseDestinationUrl] returns [DEFAULT_DST_URL],
    whatever the other segments and the query string are. *)
Theorem parseDestinationUrl_token_gate (url : URL) (config : Config) :
  ShadowProxy.pathParts url = [] \/
  (exists first rest,
      ShadowProxy.pathParts url = first :: rest /\ first <> AUTH_TOKEN config) ->
  ShadowProxy.parseDestinationUrl url config = DEFAULT_DST_URL config.
Proof.
  unfold ShadowProxy.parseDestinationUrl.
  intros [E | [first [rest [E Hne]]]]; rewrite E; simpl.
  - reflexivity.
  - apply String.eqb_neq in Hne. rewrite Hne.
    destruct rest; reflexivity.
Qed.

Lemma parseDestinationUrl_token_gate_witness :
  let url := mkURL "https:" "proxy.example" "" "/WRONG/https/example.com/x" "?q=1" in
  let config := mkConfig "TOK" "https://default.example/" false "socket" "fetch"
                  "" "" "" "dns.google" 443 "/dns-query" "dns.google" 853 in
  (ShadowProxy.pathParts url = [] \/
   (exists first rest,
       ShadowProxy.pathParts url = first :: rest /\ first <> AUTH_TOKEN config))
  /\ ShadowProxy.parseDestinationUrl url config = "https://default.example/".
Proof.
  intros url config.
  assert (H : ShadowProxy.pathParts url = [] \/
              (exists first rest,
                  ShadowProxy.pathParts url = first :: rest
                  /\ first <> AUTH_TOKEN config)).
  { right. exists "WRONG", ["https"; "example.com"; "x"].
    split; [reflexivity | discriminate]. }
  split; [exact H | exact (parseDestinationUrl_token_gate url config H)].
Defined.

(** ** proxies/base.js: the WebSocket frame reader and the relay *)

Section WebSocketFrames.

Import BaseProxy.

Lemma ensureBuffer_enough (segments : list JS.Uint8Array) (b : JS.Uint8Array) (need : Z) :
  (need <= Z.of_nat (List.length (b ++ List.concat segments)))%Z ->
  exists segments' b',
    SocketFramesReader.ensureBuffer (map Chunk segments) b need
    = (map Chunk segments', b', Normal true)
    /\ b' ++ List.concat segments' = b ++ List.concat segments
    /\ (need <= Z.of_nat (List.length b'))%Z
    /\ (List.length b' + readerWeight (map Chunk segments')
        <= List.length b + readerWeight (map Chunk segments))%nat.
Proof.
  revert b; induction segments as [|v segments IH]; intros b H.
  - cbn [List.concat] in H. rewrite app_nil_r in H.
    exists [], b. cbn [map SocketFramesReader.ensureBuffer].
    rewrite (proj2 (Z.ltb_ge _ _) H). repeat split; auto.
  - cbn [map SocketFramesReader.ensureBuffer].
    destruct (Z.of_nat (List.length b) <? need)%Z eqn:E.
    + cbn [List.concat] in H. rewrite app_assoc in H.
      unfold concatUint8Arrays. cbn [List.concat]. rewrite app_nil_r.
      destruct (IH (b ++ v) H) as [segments' [b' [Hf [Hs [Hn Hw]]]]].
      exists segments', b'. rewrite Hf. repeat split; auto.
      * rewrite Hs. cbn [List.concat]. now rewrite app_assoc.
      * cbn [readerWeight]. rewrite length_app in Hw. lia.
    + exists (v :: segments), b. apply Z.ltb_ge in E. repeat split; auto.
Qed.

(** On a stream that ends too early, [ensureBuffer] answers [false] with
    everything that arrived in the buffer. *)
Lemma ensureBuffer_short (segments : list JS.Uint8Array) (b : JS.Uint8Array) (need : Z) :
  (Z.of_nat (List.length (b ++ List.concat segments)) < need)%Z ->
  SocketFramesReader.ensureBuffer (map Chunk segments) b need
  = ([], b ++ List.concat segments, Normal false).
Proof.
  revert b; induction segments as [|v segments IH]; intros b H.
  - cbn [List.concat] in *. rewrite app_nil_r in *.
    cbn [map SocketFramesReader.ensureBuffer].
    now rewrite (proj2 (Z.ltb_lt _ _) H).
  - cbn [map SocketFramesReader.ensureBuffer].
    assert (E : (Z.of_nat (List.length b) <? need)%Z = true).
    { apply Z.ltb_lt. rewrite length_app in H. lia. }
    rewrite E. unfold concatUint8Arrays. cbn [List.concat]. rewrite app_nil_r.
    cbn [List.concat] in H. rewrite app_assoc in H. rewrite (IH _ H).
    now rewrite <- app_assoc.
Qed.

Lemma prefix_nth (b t S : JS.Uint8Array) (i : nat) :
  b ++ t = S -> (i < List.length b)%nat -> nth i b 0%Z = nth i S 0%Z.
Proof. intros <- H. now rewrite app_nth1. Qed.

Lemma prefix_range (b t S : JS.Uint8Array) (i n : nat) :
  b ++ t = S -> (i + n <= List.length b)%nat ->
  firstn n (skipn i b) = firstn n (skipn i S).
Proof.
  intros <- H. rewrite skipn_app, firstn_app, length_skipn.
  replace (n - (List.length b - i))%nat with 0%nat by lia.
  cbn [firstn]. now rewrite app_nil_r.
Qed.

Lemma prefix_rest (b t S : JS.Uint8Array) (i : nat) :
  b ++ t = S -> (i <= List.length b)%nat -> skipn i b ++ t = skipn i S.
Proof.
  intros <- H. rewrite skipn_app. replace (i - List.length b)%nat with 0%nat by lia.
  reflexivity.
Qed.

Lemma slice_range (a : JS.Uint8Array) (i n : nat) :
  (i + n <= List.length a)%nat ->
  JS.slice a (Z.of_nat i) (Some (Z.of_nat i + Z.of_nat n)%Z) = firstn n (skipn i a).
Proof.
  intros H. unfold JS.slice, JS.relativeIndex.
  destruct (Z.of_nat i <? 0)%Z eqn:E; [apply Z.ltb_lt in E; lia|].
  destruct (Z.of_nat i + Z.of_nat n <? 0)%Z eqn:E'; [apply Z.ltb_lt in E'; lia|].
  rewrite !Z.min_l by lia. rewrite Nat2Z.id.
  replace (Z.to_nat (Z.of_nat i + Z.of_nat n - Z.of_nat i)) with n by lia.
  reflexivity.
Qed.

(** Bits of the two header bytes. *)
Lemma header_first (fin : bool) (opcode : Z) :
  (0 <= opcode < 16)%Z ->
  let first := ((if fin then 128 else 0) + opcode)%Z in
  Z.land (Z.shiftr first 7) 1 = (if fin then 1 else 0)%Z
  /\ Z.land first 15 = opcode.
Proof.
  intros H first. subst first.
  rewrite Z.shiftr_div_pow2 by lia.
  change 1%Z with (Z.ones 1) at 1. change 15%Z with (Z.ones 4).
  rewrite !Z.land_ones by lia.
  change (2 ^ 7)%Z with 128%Z. change (2 ^ 1)%Z with 2%Z. change (2 ^ 4)%Z with 16%Z.
  destruct fin; split; Z.div_mod_to_equations; lia.
Qed.

Lemma header_second (masked : bool) (len7 : Z) :
  (0 <= len7 < 128)%Z ->
  let second := ((if masked then 128 else 0) + len7)%Z in
  Z.land (Z.shiftr second 7) 1 = (if masked then 1 else 0)%Z
  /\ Z.land second 127 = len7.
Proof.
  intros H second. subst second.
  rewrite Z.shiftr_div_pow2 by lia.
  change 1%Z with (Z.ones 1) at 1. change 127%Z with (Z.ones 7).
  rewrite !Z.land_ones by lia.
  change (2 ^ 7)%Z with 128%Z. change (2 ^ 1)%Z with 2%Z.
  destruct masked; split; Z.div_mod_to_equations; lia.
Qed.

Lemma extended_length (len : Z) :
  (0 <= len < 65536)%Z ->
  Z.lor (Z.shiftl (len / 256) 8) (len mod 256) = len.
Proof.
  intros H.
  assert (L : Z.land (Z.shiftl (len / 256) 8) (len mod 256) = 0%Z).
  { apply Z.bits_inj'. intros n Hn. rewrite Z.land_spec, Z.bits_0.
    destruct (Z.lt_ge_cases n 8) as [Hlt|Hge].
    - rewrite Z.shiftl_spec_low by lia. reflexivity.
    - assert (Hm : (0 <= len mod 256 < 256)%Z) by (apply Z.mod_pos_bound; lia).
      destruct (Z.eq_dec (len mod 256) 0) as [->|Hnz].
      + rewrite Z.bits_0. apply andb_false_r.
      + rewrite (Z.bits_above_log2 (len mod 256) n); [apply andb_false_r | lia |].
        assert (Z.log2 (len mod 256) < 8)%Z by (apply Z.log2_lt_pow2; simpl; lia).
        lia. }
  rewrite <- Z.lxor_lor by exact L. rewrite <- Z.add_nocarry_lxor by exact L.
  rewrite Z.shiftl_mul_pow2 by lia. change (2 ^ 8)%Z with 256%Z.
  pose proof (Z.div_mod len 256 ltac:(lia)). lia.
Qed.

Lemma maskFrom_combine (mask payload : JS.Uint8Array) (i : nat) :
  List.length mask = 4%nat -> Forall byte mask -> Forall byte payload ->
  maskFrom i mask payload
  = map (fun ip => Z.lxor (snd ip) (nth (fst ip mod 4) mask 0%Z))
      (combine (seq i (List.length payload)) payload).
Proof.
  intros L Fm Fp. revert i.
  induction Fp as [|p payload Hp Fp IH]; intros i; [reflexivity|].
  cbn [maskFrom List.length seq combine map fst snd].
  rewrite IH. f_equal. apply u8_byte. apply lxor_byte; [exact Hp|].
  now apply mask_byte.
Qed.

Lemma maskFrom_xorMask (mask payload : JS.Uint8Array) :
  List.length mask = 4%nat -> Forall byte mask -> Forall byte payload ->
  maskFrom 0 mask payload = xorMask mask payload.
Proof. intros L Fm Fp. now apply maskFrom_combine. Qed.

Lemma xorMask_length (mask payload : JS.Uint8Array) :
  List.length (xorMask mask payload) = List.length payload.
Proof.
  unfold xorMask. rewrite length_map, length_combine, length_seq. lia.
Qed.

Lemma maskFrom_involutive (mask payload : JS.Uint8Array) (i : nat) :
  List.length mask = 4%nat -> Forall byte mask -> Forall byte payload ->
  maskFrom i mask (maskFrom i mask payload) = payload.
Proof.
  intros L Fm Fp. revert i. induction Fp as [|p payload Hp Fp IH]; intros i; [reflexivity|].
  cbn [maskFrom]. rewrite IH. f_equal.
  rewrite (u8_byte (Z.lxor p _)) by (apply lxor_byte; [exact Hp | now apply mask_byte]).
  rewrite Z.lxor_assoc, Z.lxor_nilpotent, Z.lxor_0_r. now apply u8_byte.
Qed.

Lemma encodeFrame_short (fin : bool) (opcode : Z) (payload : JS.Uint8Array) :
  (Z.of_nat (List.length payload) < 126)%Z ->
  encodeFrame fin opcode None payload
  = ((if fin then 128 else 0) + opcode)%Z
      :: (0 + Z.of_nat (List.length payload))%Z :: payload.
Proof. intros H. unfold encodeFrame. apply Z.ltb_lt in H. now rewrite H. Qed.

Lemma encodeFrame_long (fin : bool) (opcode : Z) (payload : JS.Uint8Array) :
  (126 <= Z.of_nat (List.length payload))%Z ->
  encodeFrame fin opcode None payload
  = ((if fin then 128 else 0) + opcode)%Z :: (0 + 126)%Z
      :: (Z.of_nat (List.length payload) / 256)%Z
      :: (Z.of_nat (List.length payload) mod 256)%Z :: payload.
Proof. intros H. unfold encodeFrame. apply Z.ltb_ge in H. now rewrite H. Qed.

Lemma encodeFrame_short_masked (fin : bool) (opcode : Z) (m0 m1 m2 m3 : Z)
  (payload : JS.Uint8Array) :
  (Z.of_nat (List.length payload) < 126)%Z ->
  encodeFrame fin opcode (Some [m0; m1; m2; m3]) payload
  = ((if fin then 128 else 0) + opcode)%Z
      :: (128 + Z.of_nat (List.length payload))%Z
      :: m0 :: m1 :: m2 :: m3 :: xorMask [m0; m1; m2; m3] payload.
Proof. intros H. unfold encodeFrame. apply Z.ltb_lt in H. now rewrite H. Qed.

Lemma encodeFrame_long_masked (fin : bool) (opcode : Z) (m0 m1 m2 m3 : Z)
  (payload : JS.Uint8Array) :
  (126 <= Z.of_nat (List.length payload))%Z ->
  encodeFrame fin opcode (Some [m0; m1; m2; m3]) payload
  = ((if fin then 128 else 0) + opcode)%Z :: (128 + 126)%Z
      :: (Z.of_nat (List.length payload) / 256)%Z
      :: (Z.of_nat (List.length payload) mod 256)%Z
      :: m0 :: m1 :: m2 :: m3 :: xorMask [m0; m1; m2; m3] payload.
Proof. intros H. unfold encodeFrame. apply Z.ltb_ge in H. now rewrite H. Qed.

Section Layout.

(** A stream that starts with a frame: two header bytes, an optional
    extended length, an optional mask, the body. *)
Variables (first second : Z) (ext : list Z) (mask : option JS.Uint8Array)
  (body rest : JS.Uint8Array).

Let M : JS.Uint8Array := match mask with Some m => m | None => [] end.
Let S : JS.Uint8Array := first :: second :: ext ++ M ++ body ++ rest.

Hypothesis Hmlen : match mask with Some m => List.length m = 4%nat | None => True end.

Lemma layout_mask_length :
  List.length M = match mask with Some _ => 4%nat | None => 0%nat end.
Proof. subst M. destruct mask; [exact Hmlen | reflexivity]. Qed.

Lemma layout_length :
  List.length S
  = (2 + List.length ext + List.length M + List.length body + List.length rest)%nat.
Proof. subst S. cbn [List.length]. rewrite !length_app. lia. Qed.

Lemma layout_readLength_short (sg1 : list JS.Uint8Array) (b1 : JS.Uint8Array) (len : Z) :
  (len < 126)%Z ->
  SocketFramesReader.readLength (map Chunk sg1) b1 len 2
  = (map Chunk sg1, b1, Normal (Some (len, 2%Z))).
Proof.
  intros Hlt. unfold SocketFramesReader.readLength.
  destruct (len =? 126)%Z eqn:A; [apply Z.eqb_eq in A; lia|].
  destruct (len =? 127)%Z eqn:B; [apply Z.eqb_eq in B; lia|]. reflexivity.
Qed.

Lemma layout_readLength_long (sg1 : list JS.Uint8Array) (b1 : JS.Uint8Array)
  (hi lo : Z) :
  ext = [hi; lo] ->
  b1 ++ List.concat sg1 = S ->
  exists sg2 b2,
    SocketFramesReader.readLength (map Chunk sg1) b1 126 2
    = (map Chunk sg2, b2, Normal (Some (Z.lor (Z.shiftl hi 8) lo, 4%Z)))
    /\ b2 ++ List.concat sg2 = S
    /\ (4 <= List.length b2)%nat
    /\ (List.length b2 + readerWeight (map Chunk sg2)
        <= List.length b1 + readerWeight (map Chunk sg1))%nat.
Proof.
  intros Hext S1. unfold SocketFramesReader.readLength. cbn [Z.eqb Pos.eqb].
  destruct (ensureBuffer_enough sg1 b1 (2 + 2)) as [sg2 [b2 [E2 [S2 [N2 W2]]]]].
  { rewrite S1, layout_length, Hext. cbn [List.length]. lia. }
  rewrite E2. rewrite S1 in S2.
  change (Z.to_nat 2) with 2%nat. change (Z.to_nat (2 + 1)) with 3%nat.
  rewrite (prefix_nth b2 _ S 2 S2) by lia.
  rewrite (prefix_nth b2 _ S 3 S2) by lia.
  subst S. rewrite Hext. cbn [nth app].
  exists sg2, b2. rewrite Hext in S2. repeat split; auto; lia.
Qed.

Lemma layout_readMask (sg2 : list JS.Uint8Array) (b2 : JS.Uint8Array) (off : nat) :
  off = (2 + List.length ext)%nat ->
  b2 ++ List.concat sg2 = S ->
  (off <= List.length b2)%nat ->
  exists sg3 b3,
    SocketFramesReader.readMask (map Chunk sg2) b2
      (match mask with Some _ => 1 | None => 0 end) (Z.of_nat off)
    = (map Chunk sg3, b3, Normal (Some (mask, Z.of_nat (off + List.length M))))
    /\ b3 ++ List.concat sg3 = S
    /\ (off + List.length M <= List.length b3)%nat
    /\ (List.length b3 + readerWeight (map Chunk sg3)
        <= List.length b2 + readerWeight (map Chunk sg2))%nat.
Proof.
  intros Hoff S2 N2. unfold SocketFramesReader.readMask.
  pose proof layout_mask_length as HM. pose proof layout_length as HS.
  destruct mask as [m|].
  - cbn [Z.eqb negb].
    destruct (ensureBuffer_enough sg2 b2 (Z.of_nat off + 4)) as [sg3 [b3 [E3 [S3 [N3 W3]]]]].
    { rewrite S2, HS. lia. }
    rewrite E3. rewrite S2 in S3. exists sg3, b3.
    replace (Z.of_nat off + 4)%Z with (Z.of_nat off + Z.of_nat 4)%Z by lia.
    rewrite slice_range by lia.
    rewrite (prefix_range b3 _ S off 4 S3) by lia.
    assert (Hm : firstn 4 (skipn off S) = m).
    { subst S off. cbn [skipn Nat.add]. rewrite skipn_app, Nat.sub_diag, skipn_all.
      cbn [app skipn]. subst M. rewrite firstn_app.
      replace (4 - List.length m)%nat with 0%nat by lia.
      rewrite firstn_O, app_nil_r. apply firstn_all2. lia. }
    rewrite Hm, HM. repeat split; auto; try lia.
    do 4 f_equal. lia.
  - cbn [Z.eqb negb]. exists sg2, b2. rewrite HM, Nat.add_0_r.
    repeat split; auto; lia.
Qed.

Lemma layout_readPayload (sg3 : list JS.Uint8Array) (b3 : JS.Uint8Array) (off3 : nat) :
  off3 = (2 + List.length ext + List.length M)%nat ->
  b3 ++ List.concat sg3 = S ->
  exists sg4 b4,
    SocketFramesReader.readPayload (map Chunk sg3) b3 mask
      (Z.of_nat (List.length body)) (Z.of_nat off3)
    = (map Chunk sg4, b4,
       Normal (Some (match mask with
                     | Some m => SocketFramesReader.unmask m body
                     | None => body
                     end)))
    /\ b4 ++ List.concat sg4 = rest
    /\ (List.length b4 + readerWeight (map Chunk sg4) + off3
        <= List.length b3 + readerWeight (map Chunk sg3))%nat.
Proof.
  intros Hoff S3. unfold SocketFramesReader.readPayload.
  pose proof layout_length as HS.
  destruct (ensureBuffer_enough sg3 b3 (Z.of_nat off3 + Z.of_nat (List.length body)))
    as [sg4 [b4 [E4 [S4 [N4 W4]]]]].
  { rewrite S3, HS. lia. }
  rewrite E4. rewrite S3 in S4.
  exists sg4, (JS.slice b4 (Z.of_nat off3 + Z.of_nat (List.length body)) None).
  rewrite slice_range by lia.
  rewrite (prefix_range b4 _ S off3 (List.length body) S4) by lia.
  replace (Z.of_nat off3 + Z.of_nat (List.length body))%Z
    with (Z.of_nat (off3 + List.length body)) by lia.
  rewrite slice_from by lia.
  assert (Hskip : skipn off3 S = body ++ rest).
  { subst S off3. cbn [skipn Nat.add].
    rewrite app_assoc. rewrite skipn_app.
    rewrite skipn_all2 by (rewrite length_app; lia).
    rewrite length_app. replace (_ - _)%nat with 0%nat by lia. reflexivity. }
  rewrite Hskip. rewrite firstn_app, Nat.sub_diag, firstn_all. cbn [firstn].
  rewrite app_nil_r. split; [reflexivity|]. split.
  - rewrite (prefix_rest b4 _ S _ S4) by lia.
    rewrite Nat.add_comm, <- skipn_skipn, Hskip.
    rewrite skipn_app, Nat.sub_diag, skipn_all. reflexivity.
  - rewrite length_skipn. lia.
Qed.

(** [readFrame] on such a stream, however it is cut into reads. *)
Lemma readFrame_layout (fin opcode : Z) (segments : list JS.Uint8Array)
  (b : JS.Uint8Array) :
  Z.land (Z.shiftr first 7) 1 = fin ->
  Z.land first 15 = opcode ->
  Z.land (Z.shiftr second 7) 1 = (match mask with Some _ => 1 | None => 0 end)%Z ->
  (ext = [] /\ Z.land second 127 = Z.of_nat (List.length body)
   /\ (Z.of_nat (List.length body) < 126)%Z
   \/ exists hi lo, ext = [hi; lo] /\ Z.land second 127 = 126%Z
                    /\ Z.lor (Z.shiftl hi 8) lo = Z.of_nat (List.length body)) ->
  b ++ List.concat segments = S ->
  exists segments' b',
    SocketFramesReader.readFrame (map Chunk segments) b
    = (map Chunk segments', b',
       Normal (Some (SocketFramesReader.mkRawFrame fin opcode
                       (match mask with
                        | Some m => SocketFramesReader.unmask m body
                        | None => body
                        end))))
    /\ b' ++ List.concat segments' = rest
    /\ (List.length b' + readerWeight (map Chunk segments') + 2
        <= List.length b + readerWeight (map Chunk segments))%nat.
Proof.
  intros Hfin Hop Hmbit Hext Hs.
  pose proof layout_length as HS.
  unfold SocketFramesReader.readFrame.
  destruct (ensureBuffer_enough segments b 2) as [sg1 [b1 [E1 [S1 [N1 W1]]]]].
  { rewrite Hs, HS. lia. }
  rewrite E1. rewrite Hs in S1.
  rewrite (prefix_nth b1 _ S 0 S1) by lia.
  rewrite (prefix_nth b1 _ S 1 S1) by lia.
  change (nth 0 S 0%Z) with first. change (nth 1 S 0%Z) with second.
  cbv zeta. rewrite Hfin, Hop, Hmbit.
  assert (Hstage2 : exists sg2 b2 off,
    SocketFramesReader.readLength (map Chunk sg1) b1 (Z.land second 127) 2
    = (map Chunk sg2, b2, Normal (Some (Z.of_nat (List.length body), Z.of_nat off)))
    /\ off = (2 + List.length ext)%nat
    /\ b2 ++ List.concat sg2 = S
    /\ (off <= List.length b2)%nat
    /\ (List.length b2 + readerWeight (map Chunk sg2)
        <= List.length b1 + readerWeight (map Chunk sg1))%nat).
  { destruct Hext as [[He [H7 Hlt]] | [hi [lo [He [H7 Hl]]]]].
    - rewrite H7, layout_readLength_short by exact Hlt.
      exists sg1, b1, 2%nat. rewrite He. cbn [List.length]. repeat split; auto; lia.
    - rewrite H7.
      destruct (layout_readLength_long sg1 b1 hi lo He S1) as [sg2 [b2 [E2 [S2 [N2 W2]]]]].
      rewrite E2, Hl. exists sg2, b2, 4%nat. rewrite He. cbn [List.length].
      repeat split; auto. }
  destruct Hstage2 as [sg2 [b2 [off [E2 [Hoff [S2 [N2 W2]]]]]]]. rewrite E2.
  destruct (layout_readMask sg2 b2 off Hoff S2 N2) as [sg3 [b3 [E3 [S3 [N3 W3]]]]].
  rewrite E3.
  destruct (layout_readPayload sg3 b3 (off + List.length M) ltac:(lia) S3)
    as [sg4 [b4 [E4 [S4 W4]]]].
  rewrite E4. exists sg4, b4. split; [reflexivity|]. split; [exact S4 | lia].
Qed.

End Layout.

(** [readFrame] takes one encoded frame off the stream, however the
    stream is cut into reads, and gives back its FIN bit, its opcode and
    its payload, unmasked. *)
Lemma readFrame_encoded (fin : bool) (opcode : Z) (mask : option JS.Uint8Array)
  (payload rest : JS.Uint8Array) (segments : list JS.Uint8Array) (b : JS.Uint8Array) :
  frameOk opcode mask payload ->
  b ++ List.concat segments = encodeFrame fin opcode mask payload ++ rest ->
  exists segments' b',
    SocketFramesReader.readFrame (map Chunk segments) b
    = (map Chunk segments', b',
       Normal (Some (SocketFramesReader.mkRawFrame (if fin then 1 else 0) opcode payload)))
    /\ b' ++ List.concat segments' = rest
    /\ (List.length b' + readerWeight (map Chunk segments') + 2
        <= List.length b + readerWeight (map Chunk segments))%nat.
Proof.
  intros [Hop [Hlen [Fp Hmask]]] Hs.
  set (len := Z.of_nat (List.length payload)) in *.
  set (body := match mask with Some m => xorMask m payload | None => payload end).
  assert (Hbody : List.length body = List.length payload).
  { subst body. destruct mask; [apply xorMask_length | reflexivity]. }
  assert (Hunmask : match mask with
                    | Some m => SocketFramesReader.unmask m body
                    | None => body
                    end = payload).
  { subst body. destruct mask as [m|]; [|reflexivity]. destruct Hmask as [L Fm].
    unfold SocketFramesReader.unmask. rewrite <- maskFrom_xorMask by assumption.
    now apply maskFrom_involutive. }
  assert (Hmlen : match mask with Some m => List.length m = 4%nat | None => True end)
    by (destruct mask; [apply Hmask | exact I]).
  destruct (header_first fin opcode Hop) as [Hfin Hopc].
  destruct (len <? 126)%Z eqn:E.
  - apply Z.ltb_lt in E.
    destruct (header_second (match mask with Some _ => true | None => false end) len
                ltac:(lia)) as [Hm H7].
    destruct (readFrame_layout
                ((if fin then 128 else 0) + opcode)%Z
                ((if match mask with Some _ => true | None => false end then 128 else 0) + len)%Z
                [] mask body rest Hmlen (if fin then 1 else 0)%Z opcode segments b)
      as [sg [b' [R [Sr W]]]]; auto.
    + rewrite Hm. destruct mask; reflexivity.
    + left. rewrite Hbody. repeat split; auto.
    + rewrite Hs. unfold encodeFrame. fold len. apply Z.ltb_lt in E. rewrite E.
      subst body. destruct mask; cbn [app]; rewrite <- ?app_assoc; reflexivity.
    + exists sg, b'. rewrite Hunmask in R. auto.
  - apply Z.ltb_ge in E.
    destruct (header_second (match mask with Some _ => true | None => false end) 126
                ltac:(lia)) as [Hm H7].
    destruct (readFrame_layout
                ((if fin then 128 else 0) + opcode)%Z
                ((if match mask with Some _ => true | None => false end then 128 else 0) + 126)%Z
                [(len / 256)%Z; (len mod 256)%Z] mask body rest Hmlen
                (if fin then 1 else 0)%Z opcode segments b)
      as [sg [b' [R [Sr W]]]]; auto.
    + rewrite Hm. destruct mask; reflexivity.
    + right. exists (len / 256)%Z, (len mod 256)%Z. rewrite Hbody.
      repeat split; auto. apply extended_length. lia.
    + rewrite Hs. unfold encodeFrame. fold len. apply Z.ltb_ge in E. rewrite E.
      subst body. destruct mask; cbn [app]; rewrite <- ?app_assoc; reflexivity.
    + exists sg, b'. rewrite Hunmask in R. auto.
Qed.

Lemma lor_high_bit (len : Z) :
  (0 <= len < 128)%Z -> Z.lor 128 len = (128 + len)%Z.
Proof.
  intros H.
  assert (L : Z.land 128 len = 0%Z).
  { apply Z.bits_inj'. intros n Hn. rewrite Z.land_spec, Z.bits_0.
    change 128%Z with (2 ^ 7)%Z. rewrite Z.pow2_bits_eqb by lia.
    destruct (Z.eqb_spec 7 n) as [<-|]; [|reflexivity]. cbn [andb].
    rewrite <- (Z.mod_small len (2 ^ 7)) by (simpl; lia).
    apply Z.mod_pow2_bits_high. lia. }
  rewrite <- Z.lxor_lor by exact L. now rewrite <- Z.add_nocarry_lxor by exact L.
Qed.

(** [packTextFrame] gives the encoding of a final, masked text frame. *)
Lemma packTextFrame_encodeFrame (mask payload : JS.Uint8Array) :
  frameOk 1 (Some mask) payload ->
  packTextFrame mask payload = Normal (encodeFrame true 1 (Some mask) payload).
Proof.
  intros [_ [Hlen [Fp [Lm Fm]]]]. unfold packTextFrame, encodeFrame.
  set (len := Z.of_nat (List.length payload)) in *.
  assert (H0 : (0 <= len)%Z) by (subst len; lia).
  rewrite maskFrom_xorMask by assumption.
  unfold concatUint8Arrays. cbn [List.concat]. rewrite app_nil_r.
  change (JS.u8 129) with 129%Z. change (128 + 1)%Z with 129%Z.
  destruct (len <? 126)%Z eqn:E.
  - apply Z.ltb_lt in E. rewrite lor_high_bit by lia.
    rewrite u8_byte by (unfold byte; lia). reflexivity.
  - apply Z.ltb_ge in E. apply Z.ltb_lt in Hlen. rewrite Hlen. apply Z.ltb_lt in Hlen.
    destruct (header_ext len ltac:(lia)) as [A B].
    rewrite A, B. reflexivity.
Qed.

(** ** One turn of [nextFrame] on an encoded frame *)

Section Turn.

Variables (fin : bool) (opcode : Z) (mask : option JS.Uint8Array)
  (payload rest : JS.Uint8Array) (segments : list JS.Uint8Array)
  (b : JS.Uint8Array) (fp : option JS.Uint8Array) (fo : option Z).

Hypothesis Hok : frameOk opcode mask payload.
Hypothesis Hs : b ++ List.concat segments = encodeFrame fin opcode mask payload ++ rest.

Let s : SocketFramesReader.State := SocketFramesReader.mkState (map Chunk segments) b fp fo.

(** A final frame that is no continuation is returned as it is. *)
Lemma nextFrame_loop_final (fuel : nat) :
  fin = true -> opcode <> 0%Z ->
  exists segments' b',
    SocketFramesReader.nextFrame_loop (S fuel) s
    = Some (SocketFramesReader.mkState (map Chunk segments') b' None
              (match fp with Some _ => None | None => fo end),
            Normal (Some (SocketFramesReader.mkFrame (SocketFramesReader.FinBit 1)
                            (Some opcode) payload)))
    /\ b' ++ List.concat segments' = rest
    /\ (List.length b' + readerWeight (map Chunk segments') + 2
        <= List.length b + readerWeight (map Chunk segments))%nat.
Proof.
  intros -> Hop.
  destruct (readFrame_encoded true opcode mask payload rest segments b Hok Hs)
    as [sg [b' [R [Sr W]]]].
  exists sg, b'. split; [|split; assumption].
  cbn [SocketFramesReader.nextFrame_loop]. subst s.
  cbn [SocketFramesReader.reader SocketFramesReader.buffer]. rewrite R.
  cbn [SocketFramesReader.raw_opcode SocketFramesReader.raw_fin
       SocketFramesReader.raw_payload SocketFramesReader.fragmentedPayload
       SocketFramesReader.fragmentedOpcode].
  destruct (opcode =? 0)%Z eqn:E; [apply Z.eqb_eq in E; contradiction|].
  cbn [Z.eqb]. destruct fp; reflexivity.
Qed.

(** A frame without the FIN bit that is no continuation starts a
    fragmented message. *)
Lemma nextFrame_loop_first (fuel : nat) :
  fin = false -> opcode <> 0%Z ->
  exists segments' b',
    SocketFramesReader.nextFrame_loop (S fuel) s
    = SocketFramesReader.nextFrame_loop fuel
        (SocketFramesReader.mkState (map Chunk segments') b' (Some payload) (Some opcode))
    /\ b' ++ List.concat segments' = rest
    /\ (List.length b' + readerWeight (map Chunk segments') + 2
        <= List.length b + readerWeight (map Chunk segments))%nat.
Proof.
  intros -> Hop.
  destruct (readFrame_encoded false opcode mask payload rest segments b Hok Hs)
    as [sg [b' [R [Sr W]]]].
  exists sg, b'. split; [|split; assumption].
  cbn [SocketFramesReader.nextFrame_loop]. subst s.
  cbn [SocketFramesReader.reader SocketFramesReader.buffer]. rewrite R.
  cbn [SocketFramesReader.raw_opcode SocketFramesReader.raw_fin
       SocketFramesReader.raw_payload SocketFramesReader.fragmentedPayload
       SocketFramesReader.fragmentedOpcode].
  destruct (opcode =? 0)%Z eqn:E; [apply Z.eqb_eq in E; contradiction|].
  reflexivity.
Qed.

(** A continuation frame without the FIN bit is appended to the
    fragments. *)
Lemma nextFrame_loop_middle (fuel : nat) (fragments : JS.Uint8Array) :
  fin = false -> opcode = 0%Z -> fp = Some fragments ->
  exists segments' b',
    SocketFramesReader.nextFrame_loop (S fuel) s
    = SocketFramesReader.nextFrame_loop fuel
        (SocketFramesReader.mkState (map Chunk segments') b'
           (Some (fragments ++ payload)) fo)
    /\ b' ++ List.concat segments' = rest
    /\ (List.length b' + readerWeight (map Chunk segments') + 2
        <= List.length b + readerWeight (map Chunk segments))%nat.
Proof.
  intros -> Hop Hfp.
  destruct (readFrame_encoded false opcode mask payload rest segments b Hok Hs)
    as [sg [b' [R [Sr W]]]].
  exists sg, b'. split; [|split; assumption].
  cbn [SocketFramesReader.nextFrame_loop]. subst s.
  cbn [SocketFramesReader.reader SocketFramesReader.buffer]. rewrite R.
  cbn [SocketFramesReader.raw_opcode SocketFramesReader.raw_fin
       SocketFramesReader.raw_payload SocketFramesReader.fragmentedPayload
       SocketFramesReader.fragmentedOpcode].
  rewrite Hop, Hfp. cbn [Z.eqb negb]. unfold concatUint8Arrays.
  cbn [List.concat]. now rewrite app_nil_r.
Qed.

(** The continuation frame with the FIN bit completes the message. *)
Lemma nextFrame_loop_last (fuel : nat) (fragments : JS.Uint8Array) :
  fin = true -> opcode = 0%Z -> fp = Some fragments ->
  exists segments' b',
    SocketFramesReader.nextFrame_loop (S fuel) s
    = Some (SocketFramesReader.mkState (map Chunk segments') b' None None,
            Normal (Some (SocketFramesReader.mkFrame SocketFramesReader.FinTrue fo
                            (fragments ++ payload))))
    /\ b' ++ List.concat segments' = rest
    /\ (List.length b' + readerWeight (map Chunk segments') + 2
        <= List.length b + readerWeight (map Chunk segments))%nat.
Proof.
  intros -> Hop Hfp.
  destruct (readFrame_encoded true opcode mask payload rest segments b Hok Hs)
    as [sg [b' [R [Sr W]]]].
  exists sg, b'. split; [|split; assumption].
  cbn [SocketFramesReader.nextFrame_loop]. subst s.
  cbn [SocketFramesReader.reader SocketFramesReader.buffer]. rewrite R.
  cbn [SocketFramesReader.raw_opcode SocketFramesReader.raw_fin
       SocketFramesReader.raw_payload SocketFramesReader.fragmentedPayload
       SocketFramesReader.fragmentedOpcode].
  rewrite Hop, Hfp. cbn [Z.eqb negb]. unfold concatUint8Arrays.
  cbn [List.concat]. now rewrite app_nil_r.
Qed.

(** A continuation frame when no message was started is an error. *)
Lemma nextFrame_loop_orphan (fuel : nat) :
  opcode = 0%Z -> fp = None ->
  exists s',
    SocketFramesReader.nextFrame_loop (S fuel) s
    = Some (s', Throw (mkError "Received continuation frame without initiation")).
Proof.
  intros Hop Hfp.
  destruct (readFrame_encoded fin opcode mask payload rest segments b Hok Hs)
    as [sg [b' [R [Sr W]]]].
  eexists.
  cbn [SocketFramesReader.nextFrame_loop]. subst s.
  cbn [SocketFramesReader.reader SocketFramesReader.buffer]. rewrite R.
  cbn [SocketFramesReader.raw_opcode SocketFramesReader.raw_fin
       SocketFramesReader.raw_payload SocketFramesReader.fragmentedPayload
       SocketFramesReader.fragmentedOpcode].
  rewrite Hop, Hfp. cbn [Z.eqb]. reflexivity.
Qed.

End Turn.

Lemma weight_create (segments : list JS.Uint8Array) :
  SocketFramesReader.weight (SocketFramesReader.create (map Chunk segments))
  = readerWeight (map Chunk segments).
Proof. reflexivity. Qed.

Lemma nextFrame_of_loop (s : SocketFramesReader.State)
  (r : SocketFramesReader.State * Completion (option SocketFramesReader.Frame)) :
  SocketFramesReader.nextFrame_loop (S (SocketFramesReader.weight s)) s = Some r ->
  SocketFramesReader.nextFrame s = r.
Proof. unfold SocketFramesReader.nextFrame. now intros ->. Qed.

(** X1. The frame reader undoes [packTextFrame]: when the stream starts
    with a packed frame, [nextFrame] returns a final text frame with the
    packed payload, whatever the mask and however the stream is cut into
    reads, and leaves what follows the frame in the stream. *)
Theorem nextFrame_packTextFrame (mask payload frame rest : JS.Uint8Array)
  (segments : list JS.Uint8Array) :
  List.length mask = 4%nat -> Forall byte mask -> Forall byte payload ->
  packTextFrame mask payload = Normal frame ->
  List.concat segments = frame ++ rest ->
  exists segments' b',
    SocketFramesReader.nextFrame (SocketFramesReader.create (map Chunk segments))
    = (SocketFramesReader.mkState (map Chunk segments') b' None None,
       Normal (Some (SocketFramesReader.mkFrame (SocketFramesReader.FinBit 1)
                       (Some 1%Z) payload)))
    /\ b' ++ List.concat segments' = rest.
Proof.
  intros Lm Fm Fp Hpack Hs.
  assert (Hok : frameOk 1 (Some mask) payload).
  { repeat split; auto; try lia.
    unfold packTextFrame in Hpack.
    destruct (Z.of_nat (List.length payload) <? 126)%Z eqn:A; [apply Z.ltb_lt in A; lia|].
    destruct (Z.of_nat (List.length payload) <? 65536)%Z eqn:B;
      [now apply Z.ltb_lt in B | discriminate]. }
  rewrite (packTextFrame_encodeFrame mask payload Hok) in Hpack.
  injection Hpack as <-.
  destruct (nextFrame_loop_final true 1 (Some mask) payload rest segments [] None None
              Hok Hs (SocketFramesReader.weight
                        (SocketFramesReader.create (map Chunk segments)))
              eq_refl ltac:(lia))
    as [sg [b' [R [Sr _]]]].
  exists sg, b'. split; [|exact Sr].
  unfold SocketFramesReader.nextFrame. unfold SocketFramesReader.create at 2.
  now rewrite R.
Qed.

Lemma nextFrame_packTextFrame_witness :
  exists segments' b',
    SocketFramesReader.nextFrame
      (SocketFramesReader.create
         (map Chunk [[129; 130; 17]%Z; [34; 51; 68; 121; 75; 9]%Z]))
    = (SocketFramesReader.mkState (map Chunk segments') b' None None,
       Normal (Some (SocketFramesReader.mkFrame (SocketFramesReader.FinBit 1)
                       (Some 1%Z) (JS.encode "hi"))))
    /\ b' ++ List.concat segments' = [9%Z].
Proof.
  apply (nextFrame_packTextFrame [17; 34; 51; 68]%Z (JS.encode "hi")
           [129; 130; 17; 34; 51; 68; 121; 75]%Z [9%Z]
           [[129; 130; 17]%Z; [34; 51; 68; 121; 75; 9]%Z]).
  - reflexivity.
  - repeat constructor; unfold byte; lia.
  - repeat constructor; unfold byte; simpl; lia.
  - reflexivity.
  - reflexivity.
Defined.

(** The continuation frames of a message, read after [acc] was
    collected. *)
Lemma nextFrame_loop_continuation (middle : list Fragment) (last : Fragment)
  (rest : JS.Uint8Array) (fo : option Z) :
  Forall fragmentOk middle -> fragmentOk last ->
  forall (fuel : nat) (segments : list JS.Uint8Array) (b acc : JS.Uint8Array),
    b ++ List.concat segments = encodeContinuation middle last ++ rest ->
    (List.length b + readerWeight (map Chunk segments) < 2 * fuel)%nat ->
    exists segments' b',
      SocketFramesReader.nextFrame_loop fuel
        (SocketFramesReader.mkState (map Chunk segments) b (Some acc) fo)
      = Some (SocketFramesReader.mkState (map Chunk segments') b' None None,
              Normal (Some (SocketFramesReader.mkFrame SocketFramesReader.FinTrue fo
                              (acc ++ List.concat (map snd middle) ++ snd last))))
      /\ b' ++ List.concat segments' = rest.
Proof.
  intros Hmid Hlast. induction Hmid as [|f middle Hf Hmid IH];
    intros fuel segments b acc Hs Hfuel.
  - cbn [encodeContinuation] in Hs. destruct fuel as [|fuel]; [lia|].
    destruct (nextFrame_loop_last true 0 (fst last) (snd last) rest segments b
                (Some acc) fo Hlast Hs fuel acc eq_refl eq_refl eq_refl)
      as [sg [b' [R [Sr _]]]].
    exists sg, b'. split; [exact R | exact Sr].
  - cbn [encodeContinuation] in Hs. rewrite <- app_assoc in Hs.
    destruct fuel as [|fuel]; [lia|].
    destruct (nextFrame_loop_middle false 0 (fst f) (snd f) _ segments b
                (Some acc) fo Hf Hs fuel acc eq_refl eq_refl eq_refl)
      as [sg [b1 [R [Sr W]]]].
    rewrite R.
    destruct (IH fuel sg b1 (acc ++ snd f) Sr ltac:(lia)) as [sg' [b' [R' Sr']]].
    exists sg', b'. split; [|exact Sr'].
    etransitivity; [exact R'|]. cbn [map List.concat]. now rewrite <- !app_assoc.
Qed.

(** X2. A fragmented message is reassembled: a first frame with opcode
    [opcode] and no FIN bit, continuation frames, and a last continuation
    frame with the FIN bit come back from one call of [nextFrame] as one
    frame with that opcode whose payload is the payloads in order. *)
Theorem nextFrame_reassembles (opcode : Z) (first : Fragment)
  (middle : list Fragment) (last : Fragment) (rest : JS.Uint8Array)
  (segments : list JS.Uint8Array) :
  (0 < opcode < 16)%Z ->
  Forall fragmentOk (first :: middle ++ [last]) ->
  List.concat segments = encodeFragmented opcode first middle last ++ rest ->
  exists segments' b',
    SocketFramesReader.nextFrame (SocketFramesReader.create (map Chunk segments))
    = (SocketFramesReader.mkState (map Chunk segments') b' None None,
       Normal (Some (SocketFramesReader.mkFrame SocketFramesReader.FinTrue
                       (Some opcode)
                       (snd first ++ List.concat (map snd middle) ++ snd last))))
    /\ b' ++ List.concat segments' = rest.
Proof.
  intros Hop Hall Hs.
  apply Forall_cons_iff in Hall. destruct Hall as [Hfirst Hall].
  apply Forall_app in Hall. destruct Hall as [Hmid Hlast].
  apply Forall_cons_iff in Hlast. destruct Hlast as [Hlast _].
  unfold encodeFragmented in Hs. rewrite <- app_assoc in Hs.
  assert (Hok : frameOk opcode (fst first) (snd first)).
  { destruct Hfirst as [_ H]. split; [lia | exact H]. }
  set (w := SocketFramesReader.weight (SocketFramesReader.create (map Chunk segments))).
  destruct (nextFrame_loop_first false opcode (fst first) (snd first) _ segments []
              None None Hok Hs w eq_refl ltac:(lia))
    as [sg [b1 [R [Sr W]]]].
  destruct (nextFrame_loop_continuation middle last rest (Some opcode) Hmid Hlast
              w sg b1 (snd first) Sr) as [sg' [b' [R' Sr']]].
  { subst w. rewrite weight_create. cbn [List.length] in W. lia. }
  exists sg', b'. split; [|exact Sr'].
  apply nextFrame_of_loop. etransitivity; [exact R | exact R'].
Qed.

Lemma nextFrame_reassembles_witness :
  exists segments' b',
    SocketFramesReader.nextFrame
      (SocketFramesReader.create
         (map Chunk [[1; 1; 104; 0]%Z; [129; 1; 2; 3; 4; 100; 128; 1]%Z; [33; 7]%Z]))
    = (SocketFramesReader.mkState (map Chunk segments') b' None None,
       Normal (Some (SocketFramesReader.mkFrame SocketFramesReader.FinTrue
                       (Some 1%Z) (JS.encode "he!"))))
    /\ b' ++ List.concat segments' = [7%Z].
Proof.
  apply (nextFrame_reassembles 1 (None, [104%Z])
           [(Some [1; 2; 3; 4]%Z, [101%Z])] (None, [33%Z]) [7%Z]
           [[1; 1; 104; 0]%Z; [129; 1; 2; 3; 4; 100; 128; 1]%Z; [33; 7]%Z]).
  - lia.
  - repeat constructor; cbn; unfold byte; lia.
  - reflexivity.
Defined.

(** X3. A frame whose seven-bit length is 127 (a 64-bit length follows)
    is refused: [nextFrame] throws whatever the rest of the frame and the
    state of the reader are. *)
Theorem nextFrame_length_127 (first second : Z) (rest b : JS.Uint8Array)
  (segments : list JS.Uint8Array) (fp : option JS.Uint8Array) (fo : option Z) :
  b ++ List.concat segments = first :: second :: rest ->
  Z.land second 127 = 127%Z ->
  snd (SocketFramesReader.nextFrame
         (SocketFramesReader.mkState (map Chunk segments) b fp fo))
  = Throw (mkError "127 length mode is not supported").
Proof.
  intros Hs H7. unfold SocketFramesReader.nextFrame.
  cbn [SocketFramesReader.nextFrame_loop SocketFramesReader.reader
       SocketFramesReader.buffer]. unfold SocketFramesReader.readFrame.
  destruct (ensureBuffer_enough segments b 2) as [sg1 [b1 [E1 [S1 [N1 W1]]]]].
  { rewrite Hs. cbn [List.length]. lia. }
  rewrite E1. rewrite Hs in S1.
  rewrite (prefix_nth b1 _ _ 1 S1) by lia. cbn [nth]. cbv zeta.
  rewrite H7. reflexivity.
Qed.

Lemma nextFrame_length_127_witness :
  snd (SocketFramesReader.nextFrame
         (SocketFramesReader.mkState (map Chunk [[130%Z]; [127; 0; 0]%Z]) [] None None))
  = Throw (mkError "127 length mode is not supported").
Proof.
  apply (nextFrame_length_127 130 127 [0; 0]%Z [] [[130%Z]; [127; 0; 0]%Z] None None).
  - reflexivity.
  - reflexivity.
Defined.

(** X4. A continuation frame that arrives when no fragmented message was
    started makes [nextFrame] throw. *)
Theorem nextFrame_continuation_without_initiation (fin : bool)
  (mask : option JS.Uint8Array) (payload rest : JS.Uint8Array)
  (segments : list JS.Uint8Array) :
  frameOk 0 mask payload ->
  List.concat segments = encodeFrame fin 0 mask payload ++ rest ->
  snd (SocketFramesReader.nextFrame (SocketFramesReader.create (map Chunk segments)))
  = Throw (mkError "Received continuation frame without initiation").
Proof.
  intros Hok Hs. unfold SocketFramesReader.nextFrame.
  set (w := SocketFramesReader.weight _). unfold SocketFramesReader.create.
  destruct (nextFrame_loop_orphan fin 0 mask payload rest segments [] None None
              Hok Hs w eq_refl eq_refl) as [s' R].
  now rewrite R.
Qed.

Lemma nextFrame_continuation_without_initiation_witness :
  snd (SocketFramesReader.nextFrame
         (SocketFramesReader.create (map Chunk [[128; 2; 104]%Z; [105%Z]])))
  = Throw (mkError "Received continuation frame without initiation").
Proof.
  apply (nextFrame_continuation_without_initiation true None [104; 105]%Z []
           [[128; 2; 104]%Z; [105%Z]]).
  - repeat split; try (cbn; lia). repeat constructor; unfold byte; lia.
  - reflexivity.
Defined.

Lemma nextFrame_final (f : WsFrame) (rest b : JS.Uint8Array)
  (segments : list JS.Uint8Array) (fo : option Z) :
  wsFrameOk f -> ws_opcode f <> 0%Z ->
  b ++ List.concat segments = encodeWsFrame f ++ rest ->
  exists segments' b',
    SocketFramesReader.nextFrame
      (SocketFramesReader.mkState (map Chunk segments) b None fo)
    = (SocketFramesReader.mkState (map Chunk segments') b' None fo,
       Normal (Some (SocketFramesReader.mkFrame (SocketFramesReader.FinBit 1)
                       (Some (ws_opcode f)) (ws_payload f))))
    /\ b' ++ List.concat segments' = rest
    /\ (List.length b' + readerWeight (map Chunk segments') + 2
        <= List.length b + readerWeight (map Chunk segments))%nat.
Proof.
  intros Hok Hop Hs.
  destruct (nextFrame_loop_final true (ws_opcode f) (ws_mask f) (ws_payload f) rest
              segments b None fo Hok Hs
              (SocketFramesReader.weight
                 (SocketFramesReader.mkState (map Chunk segments) b None fo))
              eq_refl Hop) as [sg [b' [R [Sr W]]]].
  exists sg, b'. split; [|split; assumption].
  apply nextFrame_of_loop. exact R.
Qed.

Lemma relayFrames_loop_frames (frames : list WsFrame) (tail : JS.Uint8Array) :
  Forall wsFrameOk frames -> Forall passes frames ->
  forall (fuel : nat) (segments : list JS.Uint8Array) (b : JS.Uint8Array),
    b ++ List.concat segments = List.concat (map encodeWsFrame frames) ++ tail ->
    exists segments' b',
      b' ++ List.concat segments' = tail
      /\ (List.length b' + readerWeight (map Chunk segments') + 2 * List.length frames
          <= List.length b + readerWeight (map Chunk segments))%nat
      /\ relayFrames_loop (List.length frames + fuel)
           (SocketFramesReader.mkState (map Chunk segments) b None None)
         = prepend (relayed frames)
             (relayFrames_loop fuel
                (SocketFramesReader.mkState (map Chunk segments') b' None None)).
Proof.
  intros Hok Hpass. induction Hok as [|f frames Hf Hok IH]; intros fuel segments b Hs.
  - exists segments, b. cbn [map List.concat app] in Hs. repeat split; auto.
    + cbn [List.length]. lia.
    + cbn [List.length Nat.add]. unfold relayed. cbn [filter map prepend].
      now destruct (relayFrames_loop _ _).
  - apply Forall_cons_iff in Hpass. destruct Hpass as [[Hn0 Hn8] Hpass].
    cbn [map List.concat] in Hs. rewrite <- app_assoc in Hs.
    destruct (nextFrame_final f _ b segments None Hf Hn0 Hs) as [sg1 [b1 [N [S1 W1]]]].
    destruct (IH Hpass fuel sg1 b1 S1) as [sg' [b' [S' [W' R']]]].
    exists sg', b'. split; [exact S'|]. split; [cbn [List.length]; lia|].
    cbn [List.length Nat.add relayFrames_loop]. rewrite N.
    cbn [SocketFramesReader.opcode SocketFramesReader.payload].
    unfold relayed. cbn [filter]. unfold isData at 1.
    destruct ((ws_opcode f =? 1)%Z || (ws_opcode f =? 2)%Z) eqn:D.
    + rewrite R'. unfold relayed, prepend.
      now destruct (relayFrames_loop fuel _).
    + destruct (ws_opcode f =? 8)%Z eqn:C; [apply Z.eqb_eq in C; contradiction|].
      exact R'.
Qed.

Lemma relayFrames_loop_end (fuel : nat) (segments : list JS.Uint8Array)
  (b : JS.Uint8Array) (fp : option JS.Uint8Array) (fo : option Z) :
  b ++ List.concat segments = [] ->
  relayFrames_loop (S fuel) (SocketFramesReader.mkState (map Chunk segments) b fp fo)
  = Some [].
Proof.
  intros Hs. cbn [relayFrames_loop]. unfold SocketFramesReader.nextFrame.
  cbn [SocketFramesReader.nextFrame_loop SocketFramesReader.reader
       SocketFramesReader.buffer]. unfold SocketFramesReader.readFrame.
  rewrite ensureBuffer_short by (rewrite Hs; cbn [List.length]; lia).
  reflexivity.
Qed.

Lemma relayFrames_loop_close (fuel : nat) (mask : option JS.Uint8Array)
  (payload rest : JS.Uint8Array) (segments : list JS.Uint8Array) (b : JS.Uint8Array) :
  frameOk 8 mask payload ->
  b ++ List.concat segments = encodeFrame true 8 mask payload ++ rest ->
  relayFrames_loop (S fuel) (SocketFramesReader.mkState (map Chunk segments) b None None)
  = Some [WsClose (Some 1000%Z)].
Proof.
  intros Hok Hs.
  destruct (nextFrame_final (mkWsFrame 8 mask payload) rest b segments None Hok
              ltac:(cbn; lia) Hs) as [sg [b' [N _]]].
  cbn [relayFrames_loop]. rewrite N. reflexivity.
Qed.

(** X5. Of a stream of unfragmented frames the relay sends the client
    the payloads of the text and binary frames, in order, and nothing for
    the others (pings and pongs included); at the end of the stream it
    closes the WebSocket, releases the writer and closes the socket. *)
Theorem relayFrames_forwards_data_frames (frames : list WsFrame)
  (segments : list JS.Uint8Array) :
  Forall wsFrameOk frames -> Forall passes frames ->
  List.concat segments = List.concat (map encodeWsFrame frames) ->
  relayFrames (map Chunk segments)
  = relayed frames ++ [WsClose None; WriterReleaseLock; SocketClose].
Proof.
  intros Hok Hpass Hs. unfold relayFrames.
  destruct (relayFrames_loop_frames frames [] Hok Hpass
              (S (readerWeight (map Chunk segments)) - List.length frames)
              segments []) as [sg [b' [S' [W' R']]]].
  { cbn [app]. now rewrite app_nil_r. }
  cbv zeta. rewrite weight_create. unfold SocketFramesReader.create.
  cbn [List.length Nat.add] in W'.
  replace (S (readerWeight (map Chunk segments)))
    with (List.length frames + (S (readerWeight (map Chunk segments)) - List.length frames))%nat
    by lia.
  rewrite R'.
  replace (S (readerWeight (map Chunk segments)) - List.length frames)%nat
    with (S (readerWeight (map Chunk segments) - List.length frames)) by lia.
  rewrite relayFrames_loop_end by exact S'.
  cbn [prepend]. now rewrite app_nil_r.
Qed.

(** X6. A close frame ends the relay: the client WebSocket is closed
    with code 1000 and nothing that follows the close frame in the stream
    is forwarded. *)
Theorem relayFrames_stops_at_close_frame (frames : list WsFrame)
  (mask : option JS.Uint8Array) (payload rest : JS.Uint8Array)
  (segments : list JS.Uint8Array) :
  Forall wsFrameOk frames -> Forall passes frames ->
  frameOk 8 mask payload ->
  List.concat segments
  = List.concat (map encodeWsFrame frames) ++ encodeFrame true 8 mask payload ++ rest ->
  relayFrames (map Chunk segments)
  = relayed frames
    ++ [WsClose (Some 1000%Z); WsClose None; WriterReleaseLock; SocketClose].
Proof.
  intros Hok Hpass Hclose Hs. unfold relayFrames.
  destruct (relayFrames_loop_frames frames _ Hok Hpass
              (S (readerWeight (map Chunk segments)) - List.length frames)
              segments [] Hs) as [sg [b' [S' [W' R']]]].
  cbv zeta. rewrite weight_create. unfold SocketFramesReader.create.
  cbn [List.length Nat.add] in W'.
  replace (S (readerWeight (map Chunk segments)))
    with (List.length frames + (S (readerWeight (map Chunk segments)) - List.length frames))%nat
    by lia.
  rewrite R'.
  replace (S (readerWeight (map Chunk segments)) - List.length frames)%nat
    with (S (readerWeight (map Chunk segments) - List.length frames)) by lia.
  rewrite (relayFrames_loop_close _ mask payload rest sg b' Hclose S').
  cbn [prepend]. now rewrite <- app_assoc.
Qed.

Lemma relayFrames_forwards_data_frames_witness :
  relayFrames (map Chunk [[129; 2; 104]%Z; [105; 137; 0; 130; 129; 1; 2; 3; 4; 6]%Z])
  = [WsSend (JS.encode "hi"); WsSend [7%Z];
     WsClose None; WriterReleaseLock; SocketClose].
Proof.
  apply (relayFrames_forwards_data_frames
           [mkWsFrame 1 None (JS.encode "hi"); mkWsFrame 9 None [];
            mkWsFrame 2 (Some [1; 2; 3; 4]%Z) [7%Z]]
           [[129; 2; 104]%Z; [105; 137; 0; 130; 129; 1; 2; 3; 4; 6]%Z]).
  - repeat constructor; cbn; unfold byte; lia.
  - repeat constructor; cbn; lia.
  - reflexivity.
Defined.

Lemma relayFrames_stops_at_close_frame_witness :
  relayFrames (map Chunk [[129; 2; 104]%Z; [105; 136; 0; 129; 1; 33]%Z])
  = [WsSend (JS.encode "hi"); WsClose (Some 1000%Z);
     WsClose None; WriterReleaseLock; SocketClose].
Proof.
  apply (relayFrames_stops_at_close_frame
           [mkWsFrame 1 None (JS.encode "hi")] None [] [129; 1; 33]%Z
           [[129; 2; 104]%Z; [105; 136; 0; 129; 1; 33]%Z]).
  - repeat constructor; cbn; unfold byte; lia.
  - repeat constructor; cbn; lia.
  - repeat split; try (cbn; lia). constructor.
  - reflexivity.
Defined.

Lemma ensureBuffer_cases (segments : list JS.Uint8Array) (b T : JS.Uint8Array)
  (need : Z) :
  b ++ List.concat segments = T ->
  (exists segments' b',
     SocketFramesReader.ensureBuffer (map Chunk segments) b need
     = (map Chunk segments', b', Normal true)
     /\ b' ++ List.concat segments' = T
     /\ (need <= Z.of_nat (List.length b'))%Z)
  \/ ((Z.of_nat (List.length T) < need)%Z
      /\ SocketFramesReader.ensureBuffer (map Chunk segments) b need
         = ([], T, Normal false)).
Proof.
  intros Hs. destruct (Z_lt_le_dec (Z.of_nat (List.length T)) need) as [H|H].
  - right. split; [exact H|]. rewrite <- Hs. apply ensureBuffer_short. now rewrite Hs.
  - left. destruct (ensureBuffer_enough segments b need) as [sg [b' [E [S' [N _]]]]].
    { now rewrite Hs. }
    exists sg, b'. rewrite <- Hs. auto.
Qed.

Section Truncated.

Variables (first second : Z) (ext : list Z) (mask : option JS.Uint8Array)
  (body : JS.Uint8Array) (k : nat).

Let M : JS.Uint8Array := match mask with Some m => m | None => [] end.
Let S : JS.Uint8Array := first :: second :: ext ++ M ++ body.
Let T : JS.Uint8Array := firstn k S.

Hypothesis Hk : (k < List.length S)%nat.
Hypothesis Hmlen : match mask with Some m => List.length m = 4%nat | None => True end.
Hypothesis Hmbit :
  Z.land (Z.shiftr second 7) 1 = (match mask with Some _ => 1 | None => 0 end)%Z.
Hypothesis Hext :
  ext = [] /\ Z.land second 127 = Z.of_nat (List.length body)
  /\ (Z.of_nat (List.length body) < 126)%Z
  \/ exists hi lo, ext = [hi; lo] /\ Z.land second 127 = 126%Z
                   /\ Z.lor (Z.shiftl hi 8) lo = Z.of_nat (List.length body).

Lemma truncated_length : List.length T = k.
Proof. subst T. rewrite length_firstn. lia. Qed.

Lemma truncated_nth (b t : JS.Uint8Array) (i : nat) :
  b ++ t = T -> (i < List.length b)%nat -> nth i b 0%Z = nth i S 0%Z.
Proof.
  intros Hb Hi. rewrite (prefix_nth b t T i Hb Hi). subst T.
  rewrite <- (firstn_skipn k S) at 2. rewrite app_nth1; [reflexivity|].
  rewrite <- Hb, length_app. lia.
Qed.

Lemma truncated_total :
  List.length S
  = (2 + List.length ext + List.length M + List.length body)%nat.
Proof. subst S. cbn [List.length]. rewrite !length_app. lia. Qed.

(** On a stream that ends inside a frame [readFrame] answers that the
    stream is done. *)
Lemma readFrame_truncated (segments : list JS.Uint8Array) (b : JS.Uint8Array) :
  b ++ List.concat segments = T ->
  exists r' b',
    SocketFramesReader.readFrame (map Chunk segments) b = (r', b', Normal None).
Proof.
  intros Hs. pose proof truncated_length as HT. pose proof truncated_total as HS.
  unfold SocketFramesReader.readFrame.
  destruct (ensureBuffer_cases segments b T 2 Hs)
    as [[sg1 [b1 [E1 [S1 N1]]]] | [_ E1]]; rewrite E1; [|eauto].
  rewrite (truncated_nth b1 _ 1 S1) by lia.
  change (nth 1 S 0%Z) with second. cbv zeta. rewrite Hmbit.
  assert (Hstage2 :
    (exists r' b', SocketFramesReader.readLength (map Chunk sg1) b1 (Z.land second 127) 2
                   = (r', b', Normal None))
    \/ exists sg2 b2,
         SocketFramesReader.readLength (map Chunk sg1) b1 (Z.land second 127) 2
         = (map Chunk sg2, b2,
            Normal (Some (Z.of_nat (List.length body),
                          Z.of_nat (2 + List.length ext))))
         /\ b2 ++ List.concat sg2 = T).
  { destruct Hext as [[He [H7 Hlt]] | [hi [lo [He [H7 Hl]]]]].
    - right. exists sg1, b1. rewrite H7, layout_readLength_short by exact Hlt.
      rewrite He. split; [reflexivity | exact S1].
    - rewrite H7. unfold SocketFramesReader.readLength. cbn [Z.eqb Pos.eqb].
      destruct (ensureBuffer_cases sg1 b1 T (2 + 2) S1)
        as [[sg2 [b2 [E2 [S2 N2]]]] | [_ E2]]; rewrite E2; [|left; eauto].
      right. exists sg2, b2. split; [|exact S2].
      change (Z.to_nat 2) with 2%nat. change (Z.to_nat (2 + 1)) with 3%nat.
      rewrite (truncated_nth b2 _ 2 S2) by lia.
      rewrite (truncated_nth b2 _ 3 S2) by lia.
      subst S. rewrite He. cbn [nth app List.length Nat.add]. now rewrite Hl. }
  destruct Hstage2 as [[r' [b' E2]] | [sg2 [b2 [E2 S2]]]]; rewrite E2; [eauto|].
  assert (Hstage3 :
    (exists r' b', SocketFramesReader.readMask (map Chunk sg2) b2
                     (match mask with Some _ => 1 | None => 0 end)
                     (Z.of_nat (2 + List.length ext))
                   = (r', b', Normal None))
    \/ exists sg3 b3 m,
         SocketFramesReader.readMask (map Chunk sg2) b2
           (match mask with Some _ => 1 | None => 0 end)
           (Z.of_nat (2 + List.length ext))
         = (map Chunk sg3, b3,
            Normal (Some (m, Z.of_nat (2 + List.length ext + List.length M))))
         /\ b3 ++ List.concat sg3 = T).
  { unfold SocketFramesReader.readMask. subst M. destruct mask as [m|].
    - cbn [Z.eqb negb].
      destruct (ensureBuffer_cases sg2 b2 T (Z.of_nat (2 + List.length ext) + 4) S2)
        as [[sg3 [b3 [E3 [S3 N3]]]] | [_ E3]]; rewrite E3; [|left; eauto].
      right. exists sg3, b3. eexists. split; [|exact S3].
      do 4 f_equal. rewrite Hmlen. lia.
    - cbn [Z.eqb negb]. right. exists sg2, b2. eexists. split; [|exact S2].
      do 4 f_equal. cbn [List.length]. lia. }
  destruct Hstage3 as [[r' [b' E3]] | [sg3 [b3 [m [E3 S3]]]]]; rewrite E3; [eauto|].
  unfold SocketFramesReader.readPayload.
  destruct (ensureBuffer_cases sg3 b3 T
              (Z.of_nat (2 + List.length ext + List.length M)
               + Z.of_nat (List.length body)) S3)
    as [[sg4 [b4 [E4 [S4 N4]]]] | [_ E4]]; rewrite E4; [|eauto].
  exfalso. rewrite <- S4, length_app in HT. rewrite HS in Hk. lia.
Qed.

End Truncated.

(** X7. A stream that ends inside a frame: [nextFrame] returns [null]
    and throws nothing. *)
Theorem nextFrame_truncated (fin : bool) (opcode : Z) (mask : option JS.Uint8Array)
  (payload b : JS.Uint8Array) (segments : list JS.Uint8Array) (k : nat)
  (fp : option JS.Uint8Array) (fo : option Z) :
  frameOk opcode mask payload ->
  (k < List.length (encodeFrame fin opcode mask payload))%nat ->
  b ++ List.concat segments = firstn k (encodeFrame fin opcode mask payload) ->
  snd (SocketFramesReader.nextFrame
         (SocketFramesReader.mkState (map Chunk segments) b fp fo))
  = Normal None.
Proof.
  intros [Hop [Hlen [Fp Hmask]]] Hk Hs.
  set (len := Z.of_nat (List.length payload)) in *.
  set (body := match mask with Some m => xorMask m payload | None => payload end).
  assert (Hbody : List.length body = List.length payload).
  { subst body. destruct mask; [apply xorMask_length | reflexivity]. }
  assert (Hmlen : match mask with Some m => List.length m = 4%nat | None => True end)
    by (destruct mask; [apply Hmask | exact I]).
  assert (R : exists r' b',
             SocketFramesReader.readFrame (map Chunk segments) b = (r', b', Normal None)).
  { destruct (len <? 126)%Z eqn:E.
    - apply Z.ltb_lt in E.
      destruct (header_second (match mask with Some _ => true | None => false end) len
                  ltac:(lia)) as [Hm H7].
      apply (readFrame_truncated
               ((if fin then 128 else 0) + opcode)%Z
               ((if match mask with Some _ => true | None => false end
                 then 128 else 0) + len)%Z
               [] mask body k).
      + revert Hk. unfold encodeFrame. fold len. apply Z.ltb_lt in E. rewrite E.
        subst body. destruct mask; cbn [app]; rewrite <- ?app_assoc; auto.
      + exact Hmlen.
      + rewrite Hm. destruct mask; reflexivity.
      + left. rewrite Hbody. repeat split; auto.
      + rewrite Hs. unfold encodeFrame. fold len. apply Z.ltb_lt in E. rewrite E.
        subst body. destruct mask; cbn [app]; rewrite <- ?app_assoc; reflexivity.
    - apply Z.ltb_ge in E.
      destruct (header_second (match mask with Some _ => true | None => false end) 126
                  ltac:(lia)) as [Hm H7].
      apply (readFrame_truncated
               ((if fin then 128 else 0) + opcode)%Z
               ((if match mask with Some _ => true | None => false end
                 then 128 else 0) + 126)%Z
               [(len / 256)%Z; (len mod 256)%Z] mask body k).
      + revert Hk. unfold encodeFrame. fold len. apply Z.ltb_ge in E. rewrite E.
        subst body. destruct mask; cbn [app]; rewrite <- ?app_assoc; auto.
      + exact Hmlen.
      + rewrite Hm. destruct mask; reflexivity.
      + right. exists (len / 256)%Z, (len mod 256)%Z. rewrite Hbody.
        repeat split; auto. apply extended_length. lia.
      + rewrite Hs. unfold encodeFrame. fold len. apply Z.ltb_ge in E. rewrite E.
        subst body. destruct mask; cbn [app]; rewrite <- ?app_assoc; reflexivity. }
  destruct R as [r' [b' R]].
  unfold SocketFramesReader.nextFrame.
  cbn [SocketFramesReader.nextFrame_loop SocketFramesReader.reader
       SocketFramesReader.buffer]. now rewrite R.
Qed.

Lemma nextFrame_truncated_witness :
  snd (SocketFramesReader.nextFrame
         (SocketFramesReader.mkState (map Chunk [[129; 130; 17]%Z; [34; 51; 68; 121]%Z])
            [] None None))
  = Normal None.
Proof.
  apply (nextFrame_truncated true 1 (Some [17; 34; 51; 68]%Z) (JS.encode "hi") []
           [[129; 130; 17]%Z; [34; 51; 68; 121]%Z] 7 None None).
  - repeat split; try (cbn; lia); repeat constructor; unfold byte; cbn; lia.
  - cbn. lia.
  - reflexivity.
Defined.

End WebSocketFrames.

(** ** proxies/base.js: chunked bodies that are cut short or malformed *)

Section ChunkedEdges.

Import BaseProxy.

Lemma yielding_nil (r : option (list JS.Uint8Array * StreamEnd)) : yielding [] r = r.
Proof. now destruct r as [[chunks fin]|]. Qed.

Lemma yielding_cons (p : JS.Uint8Array) (ps : list JS.Uint8Array)
  (r : option (list JS.Uint8Array * StreamEnd)) :
  yielding (p :: ps) r
  = match yielding ps r with
    | None => None
    | Some (chunks, fin) => Some (p :: chunks, fin)
    end.
Proof. now destruct r as [[chunks fin]|]. Qed.

(** Where the buffer stands when the stream starts with a line without
    CR, followed by CRLF. *)
Lemma line_found (line rest : JS.Uint8Array) (segments : list JS.Uint8Array)
  (buff : JS.Uint8Array) :
  Forall (fun x => x <> 13%Z) line ->
  buff ++ List.concat segments = line ++ 13%Z :: 10%Z :: rest ->
  match findCRLF buff with
  | None => exists v segments', segments = v :: segments'
  | Some pos =>
      pos = List.length line
      /\ (pos + 2 <= List.length buff)%nat
      /\ firstn pos buff = line
      /\ rest = skipn (pos + 2) buff ++ List.concat segments
  end.
Proof.
  intros Hno Hstream.
  pose proof (findCRLF_line line rest Hno) as Hline.
  destruct (findCRLF buff) as [pos|] eqn:E.
  - pose proof (findCRLF_app buff (List.concat segments) pos E) as Happ.
    rewrite Hstream, Hline in Happ. injection Happ as Hpos.
    pose proof (findCRLF_bound buff pos E) as Hbound.
    assert (Hstream' : buff ++ List.concat segments = (line ++ [13; 10]%Z) ++ rest)
      by (rewrite Hstream, <- app_assoc; reflexivity).
    destruct (app_split_prefix _ _ _ _ Hstream') as [tail [E1 E2]].
    { rewrite length_app. simpl. lia. }
    subst buff rest. repeat split; auto.
    + rewrite <- app_assoc. now apply firstn_exact.
    + rewrite skipn_exact; [reflexivity|]. rewrite length_app. simpl. lia.
  - destruct segments as [|v segments]; [|now exists v, segments].
    cbn [List.concat] in Hstream. rewrite app_nil_r in Hstream.
    rewrite Hstream, Hline in E. discriminate.
Qed.

Lemma encodeWireChunk_cons (c : WireChunk) (tail : JS.Uint8Array) :
  encodeWireChunk c ++ tail
  = JS.encode (chunk_line c) ++ 13%Z :: 10%Z
      :: ((chunk_data c ++ [fst (chunk_end c); snd (chunk_end c)]) ++ tail).
Proof.
  unfold encodeWireChunk. rewrite <- ?app_assoc. cbn [app].
  rewrite <- ?app_assoc. reflexivity.
Qed.

(** The loop takes well-formed chunks off the stream one by one, yields
    their data and goes on with what follows them. *)
Lemma readChunks_loop_chunks (fuel : nat) :
  forall (chunks : list WireChunk) (tail : JS.Uint8Array)
         (segments : list JS.Uint8Array) (buff : JS.Uint8Array),
    Forall wireChunkOk chunks ->
    buff ++ List.concat segments = List.concat (map encodeWireChunk chunks) ++ tail ->
    (List.length buff + readerWeight (map Chunk segments) < fuel)%nat ->
    exists fuel' segments' buff',
      readChunks_loop fuel (map Chunk segments) buff
      = yielding (map chunk_data chunks)
          (readChunks_loop fuel' (map Chunk segments') buff')
      /\ buff' ++ List.concat segments' = tail
      /\ (List.length buff' + readerWeight (map Chunk segments') < fuel')%nat.
Proof.
  induction fuel as [|fuel IH]; intros chunks tail segments buff Hwf Hs Hfuel; [lia|].
  destruct chunks as [|c chunks].
  - exists (S fuel), segments, buff. cbn [map]. rewrite yielding_nil. auto.
  - pose proof Hs as Hs0.
    cbn [map List.concat] in Hs. rewrite <- app_assoc, encodeWireChunk_cons in Hs.
    inversion Hwf as [|c' cs [Hline Hnonempty] Hwf']; subst c' cs.
    pose proof (line_found _ _ segments buff
                  (sizeLine_no_CR _ _ (proj2 Hline)) Hs) as Hfound.
    cbn [readChunks_loop].
    destruct (findCRLF buff) as [pos|].
    + destruct Hfound as [Hpos [Hbound [Hl Hrest]]].
      rewrite slice_prefix by lia. rewrite Hl, decode_encode.
      rewrite (parseInt_sizeLine _ _ Hline).
      assert (Hsize : (Z.of_nat (List.length (chunk_data c)) =? 0)%Z = false).
      { apply Z.eqb_neq. destruct (chunk_data c); [contradiction | simpl; lia]. }
      rewrite Hsize.
      replace (Z.of_nat pos + 2)%Z with (Z.of_nat (pos + 2)) by lia.
      rewrite slice_from by lia.
      replace (Z.of_nat (List.length (chunk_data c)) + 2)%Z
        with (Z.of_nat (List.length (chunk_data c) + 2)) by lia.
      destruct (fillBuffer_enough segments (skipn (pos + 2) buff)
                  (Z.of_nat (List.length (chunk_data c) + 2)))
        as [segments1 [b1 [Hf [Hb [Hn Hw]]]]].
      { rewrite <- Hrest, !length_app. cbn [List.length]. lia. }
      rewrite Hf. rewrite <- Hrest in Hb.
      destruct (app_split_prefix _ _ _ _ Hb) as [rest1 [E1 E2]].
      { rewrite length_app. cbn [List.length]. lia. }
      assert (Hlen : (List.length (chunk_data c) + 2 <= List.length b1)%nat).
      { rewrite E1, !length_app. cbn [List.length]. lia. }
      rewrite slice_from by lia. rewrite slice_prefix by lia.
      destruct (IH chunks tail segments1 (skipn (List.length (chunk_data c) + 2) b1))
        as [fuel' [segments' [buff' [R [S' W']]]]]; auto.
      * rewrite E1, skipn_exact; [now symmetry|]. rewrite length_app. simpl. lia.
      * rewrite length_skipn. rewrite length_skipn in Hw. lia.
      * exists fuel', segments', buff'. split; [|split; assumption].
        rewrite R. cbn [map]. rewrite yielding_cons.
        rewrite E1, <- app_assoc. rewrite firstn_exact by reflexivity. reflexivity.
    + destruct Hfound as [v [segments1 ->]]. cbn [map].
      destruct (IH (c :: chunks) tail segments1 (buff ++ v))
        as [fuel' [segments' [buff' [R [S' W']]]]]; auto.
      * rewrite <- app_assoc. exact Hs0.
      * cbn [map readerWeight] in Hfuel. rewrite length_app. lia.
      * exists fuel', segments', buff'. auto.
Qed.

(** The result of [readChunks] from the result of the loop with any fuel
    that is enough. *)
Lemma readChunks_loop_mono (fuel : nat) :
  forall (fuel' : nat) (reader : Reader) (buff : JS.Uint8Array)
         (r : list JS.Uint8Array * StreamEnd),
    readChunks_loop fuel reader buff = Some r -> (fuel <= fuel')%nat ->
    readChunks_loop fuel' reader buff = Some r.
Proof.
  induction fuel as [|fuel IH]; intros fuel' reader buff r H Hle; [discriminate|].
  destruct fuel' as [|fuel']; [lia|].
  cbn [readChunks_loop] in *.
  destruct (findCRLF buff) as [pos|].
  - destruct (JS.parseInt _ 16) as [size|]; [|exact H].
    destruct (size =? 0)%Z; [exact H|].
    destruct (fillBuffer reader _ (size + 2)) as [reader' [b'|e]]; [|exact H].
    destruct (readChunks_loop fuel reader' _) as [[chunks fin]|] eqn:E; [|discriminate].
    now rewrite (IH fuel' _ _ _ E ltac:(lia)).
  - destruct reader as [|[v|e] reader]; try exact H.
    apply (IH fuel'); [exact H | lia].
Qed.

(** The result of [readChunks] from a result of the loop. *)
Lemma readChunks_of_loop (fuel : nat) (reader : Reader) (buff : JS.Uint8Array)
  (r : list JS.Uint8Array * StreamEnd) :
  readChunks_loop fuel reader buff = Some r ->
  readChunks reader buff = r.
Proof.
  intros H. pose proof (readChunks_run reader buff) as Hrun.
  destruct (Nat.le_ge_cases fuel (S (List.length buff + readerWeight reader))) as [Hle|Hge].
  - rewrite (readChunks_loop_mono _ _ _ _ _ H Hle) in Hrun. now injection Hrun.
  - rewrite (readChunks_loop_mono _ _ _ _ _ Hrun Hge) in H. now injection H.
Qed.

Lemma findCRLF_prefix (a b : JS.Uint8Array) :
  findCRLF (a ++ b) = None -> findCRLF a = None.
Proof.
  intros H. destruct (findCRLF a) as [p|] eqn:E; [|reflexivity].
  rewrite (findCRLF_app a b p E) in H. discriminate.
Qed.

Lemma findCRLF_no_CR (l : JS.Uint8Array) :
  Forall (fun x => x <> 13%Z) l -> findCRLF l = None.
Proof.
  induction 1 as [|x l Hx _ IH]; [reflexivity|].
  destruct l as [|y l]; [reflexivity|].
  rewrite findCRLF_step. apply Z.eqb_neq in Hx. rewrite Hx. cbn [andb].
  now rewrite IH.
Qed.

(** Without a CRLF in what is left, the loop reads to the end of the
    stream and ends normally. *)
Lemma readChunks_loop_no_line (segments : list JS.Uint8Array) :
  forall (fuel : nat) (buff : JS.Uint8Array),
    findCRLF (buff ++ List.concat segments) = None ->
    (List.length buff + readerWeight (map Chunk segments) < fuel)%nat ->
    readChunks_loop fuel (map Chunk segments) buff = Some ([], Closed).
Proof.
  induction segments as [|v segments IH]; intros fuel buff H Hfuel;
    (destruct fuel as [|fuel]; [lia|]); cbn [map readChunks_loop];
    rewrite (findCRLF_prefix _ _ H); [reflexivity|].
  apply IH.
  - cbn [List.concat] in H. now rewrite <- app_assoc.
  - cbn [map readerWeight] in Hfuel. rewrite length_app. lia.
Qed.

Lemma fillBuffer_short (segments : list JS.Uint8Array) (b : JS.Uint8Array) (need : Z) :
  (Z.of_nat (List.length (b ++ List.concat segments)) < need)%Z ->
  fillBuffer (map Chunk segments) b need
  = ([], Throw (mkError "Unexpected EOF in chunked encoding")).
Proof.
  revert b; induction segments as [|v segments IH]; intros b H;
    cbn [map fillBuffer];
    (assert (E : (Z.of_nat (List.length b) <? need)%Z = true)
       by (apply Z.ltb_lt; rewrite length_app in H; lia));
    rewrite E; [reflexivity|].
  apply IH. cbn [List.concat] in H. now rewrite <- app_assoc.
Qed.

(** A size line followed by fewer bytes than it announces, plus two. *)
Lemma readChunks_loop_eof (line : string) (n : Z) (partial : JS.Uint8Array)
  (fuel : nat) :
  sizeLine line n -> n <> 0%Z ->
  (Z.of_nat (List.length partial) < n + 2)%Z ->
  forall (segments : list JS.Uint8Array) (buff : JS.Uint8Array),
    buff ++ List.concat segments = JS.encode line ++ 13%Z :: 10%Z :: partial ->
    (List.length buff + readerWeight (map Chunk segments) < fuel)%nat ->
    readChunks_loop fuel (map Chunk segments) buff
    = Some ([], Errored (mkError "Unexpected EOF in chunked encoding")).
Proof.
  intros Hline Hn Hshort.
  induction fuel as [|fuel IH]; intros segments buff Hs Hfuel; [lia|].
  pose proof (line_found _ _ segments buff (sizeLine_no_CR _ _ (proj2 Hline)) Hs)
    as Hfound.
  cbn [readChunks_loop].
  destruct (findCRLF buff) as [pos|].
  - destruct Hfound as [Hpos [Hbound [Hl Hrest]]].
    rewrite slice_prefix by lia. rewrite Hl, decode_encode.
    rewrite (parseInt_sizeLine _ _ Hline).
    apply Z.eqb_neq in Hn. rewrite Hn.
    replace (Z.of_nat pos + 2)%Z with (Z.of_nat (pos + 2)) by lia.
    rewrite slice_from by lia.
    rewrite fillBuffer_short; [reflexivity|]. now rewrite <- Hrest.
  - destruct Hfound as [v [segments1 ->]]. cbn [map]. apply IH.
    + rewrite <- app_assoc. exact Hs.
    + cbn [map readerWeight] in Hfuel. rewrite length_app. lia.
Qed.

(** A line before a CRLF that [parseInt] reads as no number, or as 0. *)
Lemma readChunks_loop_stop (line : string) (rest : JS.Uint8Array) (fuel : nat) :
  Forall (fun x => x <> 13%Z) (JS.encode line) ->
  JS.parseInt line 16 = None \/ JS.parseInt line 16 = Some 0%Z ->
  forall (segments : list JS.Uint8Array) (buff : JS.Uint8Array),
    buff ++ List.concat segments = JS.encode line ++ 13%Z :: 10%Z :: rest ->
    (List.length buff + readerWeight (map Chunk segments) < fuel)%nat ->
    readChunks_loop fuel (map Chunk segments) buff = Some ([], Closed).
Proof.
  intros Hno Hparse.
  induction fuel as [|fuel IH]; intros segments buff Hs Hfuel; [lia|].
  pose proof (line_found _ _ segments buff Hno Hs) as Hfound.
  cbn [readChunks_loop].
  destruct (findCRLF buff) as [pos|].
  - destruct Hfound as [Hpos [Hbound [Hl Hrest]]].
    rewrite slice_prefix by lia. rewrite Hl, decode_encode.
    destruct Hparse as [-> | ->]; reflexivity.
  - destruct Hfound as [v [segments1 ->]]. cbn [map]. apply IH.
    + rewrite <- app_assoc. exact Hs.
    + cbn [map readerWeight] in Hfuel. rewrite length_app. lia.
Qed.

(** What [readChunks] gives for chunks followed by a tail on which the
    loop gives [r]. *)
Lemma readChunks_chunks_then (chunks : list WireChunk) (tail : JS.Uint8Array)
  (segments : list JS.Uint8Array) (buff : JS.Uint8Array) (fin : StreamEnd) :
  Forall wireChunkOk chunks ->
  buff ++ List.concat segments = List.concat (map encodeWireChunk chunks) ++ tail ->
  (forall (fuel : nat) (segments' : list JS.Uint8Array) (buff' : JS.Uint8Array),
      buff' ++ List.concat segments' = tail ->
      (List.length buff' + readerWeight (map Chunk segments') < fuel)%nat ->
      readChunks_loop fuel (map Chunk segments') buff' = Some ([], fin)) ->
  readChunks (map Chunk segments) buff = (map chunk_data chunks, fin).
Proof.
  intros Hwf Hs Htail.
  destruct (readChunks_loop_chunks _ chunks tail segments buff Hwf Hs
              (Nat.lt_succ_diag_r _))
    as [fuel' [segments' [buff' [R [S' W']]]]].
  rewrite (Htail fuel' segments' buff' S' W') in R. cbn [yielding] in R.
  rewrite app_nil_r in R. exact (readChunks_of_loop _ _ _ _ R).
Qed.

(** X8. A chunked body that stops inside a chunk: the data of the chunks
    before it is yielded, then the generator throws. *)
Theorem readChunks_unexpected_eof (chunks : list WireChunk) (line : string) (n : Z)
  (partial : JS.Uint8Array) (segments : list JS.Uint8Array) (buff : JS.Uint8Array) :
  Forall wireChunkOk chunks ->
  sizeLine line n -> n <> 0%Z ->
  (Z.of_nat (List.length partial) < n + 2)%Z ->
  buff ++ List.concat segments
  = List.concat (map encodeWireChunk chunks)
    ++ JS.encode line ++ 13%Z :: 10%Z :: partial ->
  readChunks (map Chunk segments) buff
  = (map chunk_data chunks,
     Errored (mkError "Unexpected EOF in chunked encoding")).
Proof.
  intros Hwf Hline Hn Hshort Hs.
  apply (readChunks_chunks_then chunks _ segments buff _ Hwf Hs).
  intros fuel segments' buff' S' W'.
  now apply (readChunks_loop_eof line n partial).
Qed.

Lemma readChunks_unexpected_eof_witness :
  readChunks (map Chunk [JS.encode "2"; [13; 10; 104; 105; 13]%Z; [10; 53; 13; 10; 119]%Z]) []
  = ([JS.encode "hi"], Errored (mkError "Unexpected EOF in chunked encoding")).
Proof.
  apply (readChunks_unexpected_eof [mkWireChunk "2" (JS.encode "hi") (13, 10)%Z]
           "5" 5 [119%Z]
           [JS.encode "2"; [13; 10; 104; 105; 13]%Z; [10; 53; 13; 10; 119]%Z] []).
  - repeat constructor; cbn; discriminate.
  - split; [discriminate | reflexivity].
  - discriminate.
  - cbn. lia.
  - reflexivity.
Defined.

(** X9. A chunked body without its last chunk: when the stream ends after
    the chunks, or inside a size line, the generator ends as if the body
    were complete. *)
Theorem readChunks_missing_last_chunk (chunks : list WireChunk)
  (tail : JS.Uint8Array) (segments : list JS.Uint8Array) (buff : JS.Uint8Array) :
  Forall wireChunkOk chunks ->
  Forall (fun x => x <> 13%Z) tail ->
  buff ++ List.concat segments = List.concat (map encodeWireChunk chunks) ++ tail ->
  readChunks (map Chunk segments) buff = (map chunk_data chunks, Closed).
Proof.
  intros Hwf Htail Hs.
  apply (readChunks_chunks_then chunks _ segments buff _ Hwf Hs).
  intros fuel segments' buff' S' W'.
  apply readChunks_loop_no_line; [|exact W'].
  rewrite S'. now apply findCRLF_no_CR.
Qed.

Lemma readChunks_missing_last_chunk_witness :
  readChunks (map Chunk [JS.encode "2"; [13; 10; 104; 105; 13]%Z; [10; 53]%Z]) []
  = ([JS.encode "hi"], Closed).
Proof.
  apply (readChunks_missing_last_chunk [mkWireChunk "2" (JS.encode "hi") (13, 10)%Z]
           [53%Z]
           [JS.encode "2"; [13; 10; 104; 105; 13]%Z; [10; 53]%Z] []).
  - repeat constructor; cbn; discriminate.
  - repeat constructor. discriminate.
  - reflexivity.
Defined.

(** X10. The two bytes after the data of a chunk are skipped, not
    checked: whatever they are, the data of every chunk is yielded and
    the zero-size line ends the body. *)
Theorem readChunks_chunk_end_unchecked (chunks : list WireChunk) (last : string)
  (ending : JS.Uint8Array) (segments : list JS.Uint8Array) (buff : JS.Uint8Array) :
  Forall wireChunkOk chunks ->
  sizeLine last 0 ->
  buff ++ List.concat segments
  = List.concat (map encodeWireChunk chunks)
    ++ JS.encode last ++ 13%Z :: 10%Z :: ending ->
  readChunks (map Chunk segments) buff = (map chunk_data chunks, Closed).
Proof.
  intros Hwf Hlast Hs.
  apply (readChunks_chunks_then chunks _ segments buff _ Hwf Hs).
  intros fuel segments' buff' S' W'.
  apply (readChunks_loop_stop last ending); auto.
  - exact (sizeLine_no_CR _ _ (proj2 Hlast)).
  - right. now apply parseInt_sizeLine.
Qed.

Lemma readChunks_chunk_end_unchecked_witness :
  readChunks (map Chunk [JS.encode "2"; [13; 10; 104; 105; 120]%Z; [121; 48; 13; 10]%Z]) []
  = ([JS.encode "hi"], Closed).
Proof.
  apply (readChunks_chunk_end_unchecked
           [mkWireChunk "2" (JS.encode "hi") (120, 121)%Z] "0" []
           [JS.encode "2"; [13; 10; 104; 105; 120]%Z; [121; 48; 13; 10]%Z] []).
  - repeat constructor; cbn; discriminate.
  - split; [discriminate | reflexivity].
  - reflexivity.
Defined.

(** X11. A size line of ASCII text that [parseInt] cannot read ends the
    body like the zero-size line does: nothing is thrown and what follows
    is not read as chunks. *)
Theorem readChunks_unreadable_size (chunks : list WireChunk) (line : string)
  (rest : JS.Uint8Array) (segments : list JS.Uint8Array) (buff : JS.Uint8Array) :
  Forall wireChunkOk chunks ->
  JS.isASCII line = true ->
  Forall (fun x => x <> 13%Z) (JS.encode line) ->
  JS.parseInt line 16 = None ->
  buff ++ List.concat segments
  = List.concat (map encodeWireChunk chunks)
    ++ JS.encode line ++ 13%Z :: 10%Z :: rest ->
  readChunks (map Chunk segments) buff = (map chunk_data chunks, Closed).
Proof.
  intros Hwf _ Hno Hparse Hs.
  apply (readChunks_chunks_then chunks _ segments buff _ Hwf Hs).
  intros fuel segments' buff' S' W'.
  apply (readChunks_loop_stop line rest); auto.
Qed.

Lemma readChunks_unreadable_size_witness :
  readChunks
    (map Chunk [JS.encode "2"; [13; 10; 104; 105; 13]%Z;
                10%Z :: JS.encode "xyz" ++ [13; 10; 50; 13; 10; 104; 105; 13; 10]%Z]) []
  = ([JS.encode "hi"], Closed).
Proof.
  apply (readChunks_unreadable_size [mkWireChunk "2" (JS.encode "hi") (13, 10)%Z]
           "xyz" [50; 13; 10; 104; 105; 13; 10]%Z
           [JS.encode "2"; [13; 10; 104; 105; 13]%Z;
            10%Z :: JS.encode "xyz" ++ [13; 10; 50; 13; 10; 104; 105; 13; 10]%Z] []).
  - repeat constructor; cbn; discriminate.
  - reflexivity.
  - repeat constructor; cbn; discriminate.
  - reflexivity.
  - reflexivity.
Defined.

End ChunkedEdges.

(** ** proxies/base.js: bodies with a content length *)

(** X12. A body with a [content-length] and no chunked coding: after the
    bytes that came with the header block, whole reads are enqueued until
    the count reaches the length, so the body can be longer than the
    length; when the stream ends before, the body is closed as if it were
    complete. *)
Theorem responseBody_fixed_length (headers : Headers.t)
  (values : list JS.Uint8Array) (data : JS.Uint8Array) (v : string) (n : Z) :
  ~ (exists t, Headers.get headers "transfer-encoding" = Some t /\ occurs "chunked" t) ->
  Headers.get headers "content-length" = Some v -> v <> "" ->
  JS.parseInt v 10 = Some n ->
  exists k,
    BaseProxy.responseBody headers (map Chunk values) data
    = ((if (0 <? List.length data)%nat then [data] else []) ++ firstn k values, Closed)
    /\ (k <= List.length values)%nat
    /\ (k = List.length values
        \/ (n <= Z.of_nat (List.length data) + totalLength (firstn k values))%Z)
    /\ forall j, (j < k)%nat ->
         (Z.of_nat (List.length data) + totalLength (firstn j values) < n)%Z.
Proof.
  intros Hnot Hget Hne Hparse.
  assert (Hc : BaseProxy.isChunked headers = false).
  { destruct (BaseProxy.isChunked headers) eqn:E; [|reflexivity].
    apply isChunked_spec in E. contradiction. }
  assert (Hl : BaseProxy.contentLength headers = Some n).
  { unfold BaseProxy.contentLength. rewrite Hget.
    destruct v as [|c v]; [contradiction|]. exact Hparse. }
  destruct (readFixed_prefix values (Z.of_nat (List.length data)) n)
    as [k [Hk [Hle [Hend Hmin]]]].
  exists k. unfold BaseProxy.responseBody. rewrite Hc, Hl, Hk. auto.
Qed.

Lemma responseBody_fixed_length_witness :
  exists k,
    BaseProxy.responseBody [("content-length", "7")]
      (map Chunk [JS.encode "lo"; JS.encode ", world"; JS.encode "!"]) (JS.encode "hel")
    = ((if (0 <? List.length (JS.encode "hel"))%nat then [JS.encode "hel"] else [])
       ++ firstn k [JS.encode "lo"; JS.encode ", world"; JS.encode "!"], Closed)
    /\ (k <= List.length [JS.encode "lo"; JS.encode ", world"; JS.encode "!"])%nat
    /\ (k = List.length [JS.encode "lo"; JS.encode ", world"; JS.encode "!"]
        \/ (7 <= Z.of_nat (List.length (JS.encode "hel"))
                 + totalLength (firstn k [JS.encode "lo"; JS.encode ", world"; JS.encode "!"]))%Z)
    /\ forall j, (j < k)%nat ->
         (Z.of_nat (List.length (JS.encode "hel"))
          + totalLength (firstn j [JS.encode "lo"; JS.encode ", world"; JS.encode "!"]) < 7)%Z.
Proof.
  apply (responseBody_fixed_length [("content-length", "7")]
           [JS.encode "lo"; JS.encode ", world"; JS.encode "!"] (JS.encode "hel") "7" 7).
  - intros [t [H _]]. discriminate H.
  - reflexivity.
  - discriminate.
  - reflexivity.
Defined.

(** ** proxies/socks5.js: the negotiation with the SOCKS server *)

Section Socks5Negotiation.

Import Socks5Proxy.

Lemma DSTADDR_domain (name : string) (port : Z) :
  socksDestination name port ->
  match DSTADDR 2 name with
  | Normal dstaddr =>
      [5; 1; 0]%Z ++ dstaddr
      ++ [JS.u8 (Z.shiftr port 8); JS.u8 (Z.land port 255)]
      = socksConnectRequest name port
  | Throw _ => False
  end.
Proof.
  intros [Hn Hp]. unfold DSTADDR. cbn [Z.eqb Pos.eqb]. unfold socksConnectRequest.
  rewrite (u8_byte (Z.of_nat (String.length name))) by (unfold byte; lia).
  rewrite Z.shiftr_div_pow2 by lia. change (2 ^ 8)%Z with 256%Z.
  change 255%Z with (Z.ones 8). rewrite Z.land_ones by lia. change (2 ^ 8)%Z with 256%Z.
  rewrite (u8_byte (port / 256)%Z)
    by (unfold byte; split; [apply Z.div_pos; lia | apply Z.div_lt_upper_bound; lia]).
  rewrite (u8_byte (port mod 256)%Z) by (unfold byte; apply Z.mod_pos_bound; lia).
  cbn [app]. rewrite <- ?app_assoc. reflexivity.
Qed.

Variables (addr : Socks5Address) (server : Net.Peer).

Hypothesis Hconnect : Net.connect_error server = None.
Hypothesis Hwrite : forall n, Net.write_error server n = None.

(** X13. A SOCKS server that selects any method other than 2 and 255 is
    taken to need no authentication: after the greeting the connect
    request for the domain name and port is written, and when the reply
    to it has 0 as its second byte the socket is returned with what the
    server sends afterwards still unread. *)
Lemma socks5Connect_without_auth (name : string) (port method : Z)
  (reply1 reply2 : JS.Uint8Array) (later : Reader) :
  socksDestination name port ->
  Net.incoming server = Chunk reply1 :: Chunk reply2 :: later ->
  nth_error reply1 0 = Some 5%Z ->
  nth_error reply1 1 = Some method -> method <> 255%Z -> method <> 2%Z ->
  nth_error reply2 1 = Some 0%Z ->
  socks5Connect addr server 2 name port
  = (Net.mkSock server [socksGreeting; socksConnectRequest name port] later,
     Normal tt).
Proof.
  intros Hd Hin H0 H1 Hff H2 Hrep.
  pose proof (DSTADDR_domain name port Hd) as Hdst.
  unfold socks5Connect, Net.connect. rewrite Hconnect.
  unfold negotiate, Net.bind, Net.write, Net.readValue, Net.at_index, Net.ret.
  cbn [Net.peer Net.written Net.pending List.length]. rewrite Hwrite, Hin.
  cbn [Net.peer Net.written Net.pending app]. rewrite H0, H1.
  cbn [isByte Z.eqb Pos.eqb negb].
  apply Z.eqb_neq in Hff, H2. rewrite Hff, H2.
  destruct (DSTADDR 2 name) as [dstaddr|e]; [|contradiction]. cbn [app] in Hdst.
  cbn [Net.peer Net.written Net.pending List.length app]. rewrite Hwrite.
  cbn [Net.peer Net.written Net.pending app]. rewrite Hrep, Hdst.
  reflexivity.
Qed.

(** X14. With a user name and a password of ASCII text: when the server
    selects method 2 the greeting is followed by the authentication
    request, and after the answer [01 00] by the connect request for the
    ASCII domain name and the port. *)
Lemma socks5Connect_with_auth (name user pass : string) (port : Z)
  (reply1 reply2 reply3 : JS.Uint8Array) (later : Reader) :
  socksDestination name port -> JS.isASCII name = true ->
  username addr = Some user -> password addr = Some pass ->
  JS.isASCII user = true -> JS.isASCII pass = true ->
  (0 < String.length user < 256)%nat -> (0 < String.length pass < 256)%nat ->
  Net.incoming server = Chunk reply1 :: Chunk reply2 :: Chunk reply3 :: later ->
  nth_error reply1 0 = Some 5%Z -> nth_error reply1 1 = Some 2%Z ->
  nth_error reply2 0 = Some 1%Z -> nth_error reply2 1 = Some 0%Z ->
  nth_error reply3 1 = Some 0%Z ->
  socks5Connect addr server 2 name port
  = (Net.mkSock server
       [socksGreeting; socksAuthRequest user pass; socksConnectRequest name port]
       later,
     Normal tt).
Proof.
  intros Hd _ Hu Hp _ _ Lu Lp Hin H10 H11 H20 H21 H31.
  pose proof (DSTADDR_domain name port Hd) as Hdst.
  unfold socks5Connect, Net.connect. rewrite Hconnect.
  unfold negotiate, authenticate, Net.bind, Net.write, Net.readValue, Net.at_index,
    Net.ret.
  cbn [Net.peer Net.written Net.pending List.length]. rewrite Hwrite, Hin.
  cbn [Net.peer Net.written Net.pending app]. rewrite H10, H11.
  cbn [isByte Z.eqb Pos.eqb negb]. rewrite Hu, Hp.
  assert (Tu : JS.truthy user = true) by (destruct user; [simpl in Lu; lia | reflexivity]).
  assert (Tp : JS.truthy pass = true) by (destruct pass; [simpl in Lp; lia | reflexivity]).
  rewrite Tu, Tp. cbn [negb orb].
  cbn [Net.peer Net.written Net.pending List.length app]. rewrite Hwrite.
  cbn [Net.peer Net.written Net.pending app]. rewrite H20, H21.
  cbn [isByte Z.eqb Pos.eqb negb].
  destruct (DSTADDR 2 name) as [dstaddr|e]; [|contradiction]. cbn [app] in Hdst.
  cbn [Net.peer Net.written Net.pending List.length app]. rewrite Hwrite.
  cbn [Net.peer Net.written Net.pending app]. rewrite H31, Hdst.
  cbn [isByte Z.eqb]. unfold socksAuthRequest.
  rewrite !u8_byte by (unfold byte; lia). reflexivity.
Qed.

(** X15. With a user name and a password of ASCII text: when the server
    answers the authentication request with anything but [01 00],
    [socks5Connect] throws and the connect request is never written. *)
Lemma socks5Connect_auth_rejected (name user pass : string) (port : Z)
  (reply1 reply2 : JS.Uint8Array) (later : Reader) :
  username addr = Some user -> password addr = Some pass ->
  JS.isASCII user = true -> JS.isASCII pass = true ->
  (0 < String.length user < 256)%nat -> (0 < String.length pass < 256)%nat ->
  Net.incoming server = Chunk reply1 :: Chunk reply2 :: later ->
  nth_error reply1 0 = Some 5%Z -> nth_error reply1 1 = Some 2%Z ->
  nth_error reply2 0 <> Some 1%Z \/ nth_error reply2 1 <> Some 0%Z ->
  socks5Connect addr server 2 name port
  = (Net.mkSock server [socksGreeting; socksAuthRequest user pass] later,
     Throw (mkError "fail to auth socks server")).
Proof.
  intros Hu Hp _ _ Lu Lp Hin H10 H11 Hrej.
  unfold socks5Connect, Net.connect. rewrite Hconnect.
  unfold negotiate, authenticate, Net.bind, Net.write, Net.readValue, Net.at_index,
    Net.ret, Net.throw.
  cbn [Net.peer Net.written Net.pending List.length]. rewrite Hwrite, Hin.
  cbn [Net.peer Net.written Net.pending app]. rewrite H10, H11.
  cbn [isByte Z.eqb Pos.eqb negb]. rewrite Hu, Hp.
  assert (Tu : JS.truthy user = true) by (destruct user; [simpl in Lu; lia | reflexivity]).
  assert (Tp : JS.truthy pass = true) by (destruct pass; [simpl in Lp; lia | reflexivity]).
  rewrite Tu, Tp. cbn [negb orb].
  cbn [Net.peer Net.written Net.pending List.length app]. rewrite Hwrite.
  cbn [Net.peer Net.written Net.pending app].
  unfold socksAuthRequest. rewrite !u8_byte by (unfold byte; lia).
  assert (Hcase : isByte (nth_error reply2 0) 1 = false
                  \/ isByte (nth_error reply2 0) 1 = true
                     /\ isByte (nth_error reply2 1) 0 = false).
  { unfold isByte.
    destruct (nth_error reply2 0) as [a|]; [|now left].
    destruct (Z.eqb_spec a 1) as [->|]; [|now left].
    right. split; [reflexivity|].
    destruct (nth_error reply2 1) as [b|]; [|reflexivity].
    destruct (Z.eqb_spec b 0) as [->|]; [|reflexivity].
    destruct Hrej as [H|H]; contradiction. }
  destruct Hcase as [E | [E1 E2]].
  - rewrite E. reflexivity.
  - rewrite E1, E2. reflexivity.
Qed.

(** X16. Once the server has accepted a method, without authentication
    or after the answer [01 00] to the authentication request: when the
    reply to the connect request has anything but 0 as its second byte,
    or no second byte, [socks5Connect] throws after writing the connect
    request. *)
Lemma socks5Connect_refused (name : string) (port : Z)
  (answers : Reader) (writes : list JS.Uint8Array)
  (reply : JS.Uint8Array) (later : Reader) :
  socksDestination name port -> JS.isASCII name = true ->
  methodAccepted addr answers writes ->
  Net.incoming server = answers ++ Chunk reply :: later ->
  nth_error reply 1 <> Some 0%Z ->
  socks5Connect addr server 2 name port
  = (Net.mkSock server (writes ++ [socksConnectRequest name port]) later,
     Throw (mkError "fail to open socks connection")).
Proof.
  intros Hd _ Hacc Hin Hne.
  pose proof (DSTADDR_domain name port Hd) as Hdst.
  assert (Hrep : isByte (nth_error reply 1) 0 = false).
  { unfold isByte. destruct (nth_error reply 1) as [b|]; [|reflexivity].
    apply Z.eqb_neq. intros ->. now apply Hne. }
  unfold socks5Connect, Net.connect. rewrite Hconnect.
  destruct Hacc as [reply1 H0 Hff H2 | reply1 reply2 user pass H10 H11 Hu Hp Hc H20 H21].
  - assert (Eff : isByte (nth_error reply1 1) 255 = false).
    { unfold isByte. destruct (nth_error reply1 1) as [b|]; [|reflexivity].
      apply Z.eqb_neq. intros ->. now apply Hff. }
    assert (E2 : isByte (nth_error reply1 1) 2 = false).
    { unfold isByte. destruct (nth_error reply1 1) as [b|]; [|reflexivity].
      apply Z.eqb_neq. intros ->. now apply H2. }
    unfold negotiate, Net.bind, Net.write, Net.readValue, Net.at_index, Net.ret, Net.throw.
    cbn [Net.peer Net.written Net.pending List.length]. rewrite Hwrite, Hin.
    cbn [Net.peer Net.written Net.pending app]. rewrite H0.
    cbn [isByte Z.eqb Pos.eqb negb]. rewrite Eff, E2.
    destruct (DSTADDR 2 name) as [dstaddr|e]; [|contradiction]. cbn [app] in Hdst.
    cbn [Net.peer Net.written Net.pending List.length app]. rewrite Hwrite.
    cbn [Net.peer Net.written Net.pending app]. rewrite Hrep, Hdst.
    reflexivity.
  - destruct Hc as [_ [_ [Lu Lp]]].
    unfold negotiate, authenticate, Net.bind, Net.write, Net.readValue, Net.at_index,
      Net.ret, Net.throw.
    cbn [Net.peer Net.written Net.pending List.length]. rewrite Hwrite, Hin.
    cbn [Net.peer Net.written Net.pending app]. rewrite H10, H11.
    cbn [isByte Z.eqb Pos.eqb negb]. rewrite Hu, Hp.
    assert (Tu : JS.truthy user = true) by (destruct user; [simpl in Lu; lia | reflexivity]).
    assert (Tp : JS.truthy pass = true) by (destruct pass; [simpl in Lp; lia | reflexivity]).
    rewrite Tu, Tp. cbn [negb orb].
    cbn [Net.peer Net.written Net.pending List.length app]. rewrite Hwrite.
    cbn [Net.peer Net.written Net.pending app]. rewrite H20, H21.
    cbn [isByte Z.eqb Pos.eqb negb].
    destruct (DSTADDR 2 name) as [dstaddr|e]; [|contradiction]. cbn [app] in Hdst.
    cbn [Net.peer Net.written Net.pending List.length app]. rewrite Hwrite.
    cbn [Net.peer Net.written Net.pending app]. rewrite Hrep, Hdst.
    unfold socksAuthRequest.
    rewrite !u8_byte by (unfold byte; lia). reflexivity.
Qed.

End Socks5Negotiation.

Lemma socks5Connect_without_auth_witness :
  Socks5Proxy.socks5Connect
    (Socks5Proxy.mkSocks5Address None None "proxy.example" (JS.Finite 1080 0))
    (Scenario.answering [[5; 1]%Z; [5; 0; 0; 1]%Z; [72%Z]]) 2 "example.com" 443
  = (Net.mkSock (Scenario.answering [[5; 1]%Z; [5; 0; 0; 1]%Z; [72%Z]])
       [Socks5Proxy.socksGreeting; socksConnectRequest "example.com" 443]
       [Chunk [72%Z]],
     Normal tt).
Proof.
  apply (socks5Connect_without_auth
           (Socks5Proxy.mkSocks5Address None None "proxy.example" (JS.Finite 1080 0))
           (Scenario.answering [[5; 1]%Z; [5; 0; 0; 1]%Z; [72%Z]])
           eq_refl (fun _ => eq_refl) "example.com" 443 1 [5; 1]%Z [5; 0; 0; 1]%Z
           [Chunk [72%Z]]).
  - split; [cbn; lia | lia].
  - reflexivity.
  - reflexivity.
  - reflexivity.
  - discriminate.
  - discriminate.
  - reflexivity.
Defined.

Lemma socks5Connect_with_auth_witness :
  Socks5Proxy.socks5Connect
    (Socks5Proxy.mkSocks5Address (Some "user") (Some "pw") "proxy.example"
       (JS.Finite 1080 0))
    (Scenario.answering [[5; 2]%Z; [1; 0]%Z; [5; 0; 0; 1]%Z]) 2 "example.com" 443
  = (Net.mkSock (Scenario.answering [[5; 2]%Z; [1; 0]%Z; [5; 0; 0; 1]%Z])
       [Socks5Proxy.socksGreeting; socksAuthRequest "user" "pw";
        socksConnectRequest "example.com" 443]
       [],
     Normal tt).
Proof.
  apply (socks5Connect_with_auth
           (Socks5Proxy.mkSocks5Address (Some "user") (Some "pw") "proxy.example"
              (JS.Finite 1080 0))
           (Scenario.answering [[5; 2]%Z; [1; 0]%Z; [5; 0; 0; 1]%Z])
           eq_refl (fun _ => eq_refl) "example.com" "user" "pw" 443
           [5; 2]%Z [1; 0]%Z [5; 0; 0; 1]%Z []).
  - split; [cbn; lia | lia].
  - reflexivity.
  - reflexivity.
  - reflexivity.
  - reflexivity.
  - reflexivity.
  - cbn; lia.
  - cbn; lia.
  - reflexivity.
  - reflexivity.
  - reflexivity.
  - reflexivity.
  - reflexivity.
  - reflexivity.
Defined.

Lemma socks5Connect_auth_rejected_witness :
  Socks5Proxy.socks5Connect
    (Socks5Proxy.mkSocks5Address (Some "user") (Some "pw") "proxy.example"
       (JS.Finite 1080 0))
    (Scenario.answering [[5; 2]%Z; [1; 1]%Z]) 2 "example.com" 443
  = (Net.mkSock (Scenario.answering [[5; 2]%Z; [1; 1]%Z])
       [Socks5Proxy.socksGreeting; socksAuthRequest "user" "pw"] [],
     Throw (mkError "fail to auth socks server")).
Proof.
  apply (socks5Connect_auth_rejected
           (Socks5Proxy.mkSocks5Address (Some "user") (Some "pw") "proxy.example"
              (JS.Finite 1080 0))
           (Scenario.answering [[5; 2]%Z; [1; 1]%Z])
           eq_refl (fun _ => eq_refl) "example.com" "user" "pw" 443
           [5; 2]%Z [1; 1]%Z []).
  - reflexivity.
  - reflexivity.
  - reflexivity.
  - reflexivity.
  - cbn; lia.
  - cbn; lia.
  - reflexivity.
  - reflexivity.
  - reflexivity.
  - right. discriminate.
Defined.

Lemma socks5Connect_refused_witness :
  Socks5Proxy.socks5Connect
    (Socks5Proxy.mkSocks5Address (Some "user") (Some "pw") "proxy.example"
       (JS.Finite 1080 0))
    (Scenario.answering [[5; 2]%Z; [1; 0]%Z; [5; 5; 0; 1]%Z; [72%Z]]) 2 "example.com" 443
  = (Net.mkSock (Scenario.answering [[5; 2]%Z; [1; 0]%Z; [5; 5; 0; 1]%Z; [72%Z]])
       [Socks5Proxy.socksGreeting; socksAuthRequest "user" "pw";
        socksConnectRequest "example.com" 443]
       [Chunk [72%Z]],
     Throw (mkError "fail to open socks connection")).
Proof.
  apply (socks5Connect_refused
           (Socks5Proxy.mkSocks5Address (Some "user") (Some "pw") "proxy.example"
              (JS.Finite 1080 0))
           (Scenario.answering [[5; 2]%Z; [1; 0]%Z; [5; 5; 0; 1]%Z; [72%Z]])
           eq_refl (fun _ => eq_refl) "example.com" 443
           [Chunk [5; 2]%Z; Chunk [1; 0]%Z]
           [Socks5Proxy.socksGreeting; socksAuthRequest "user" "pw"]
           [5; 5; 0; 1]%Z [Chunk [72%Z]]).
  - split; [cbn; lia | lia].
  - reflexivity.
  - apply (Authenticated _ [5; 2]%Z [1; 0]%Z "user" "pw"); try reflexivity.
    repeat split; cbn; lia.
  - reflexivity.
  - discriminate.
Defined.

(** ** proxies/dot.js: the exchange and its fallback *)

Section DoTExchange.

Import DoTProxy.

Lemma dotRequest_lengthPrefixed (query : JS.Uint8Array) :
  (Z.of_nat (List.length query) < 65536)%Z -> dotRequest query = lengthPrefixed query.
Proof.
  intros H. unfold dotRequest, lengthPrefixed.
  rewrite (Z.mod_small _ 65536) by lia.
  rewrite Z.shiftr_div_pow2 by lia. change (2 ^ 8)%Z with 256%Z.
  rewrite (u8_byte (_ / 256)%Z)
    by (unfold byte; split; [apply Z.div_pos; lia | apply Z.div_lt_upper_bound; lia]).
  reflexivity.
Qed.

Lemma readAll_chunks (segments : list JS.Uint8Array) :
  readAll (map Chunk segments) = Normal segments.
Proof.
  induction segments as [|v segments IH]; [reflexivity|].
  cbn [map readAll]. now rewrite IH.
Qed.

(** X17. The exchange with the DoT server: the one thing written to the
    socket is the query with its length in front, and of an answer that
    comes with its length in front the response carries exactly the
    announced bytes, whatever the reads cut it into and whatever
    follows. *)
Theorem dot_exchange_length_prefix (server : Net.Peer) (query answer extra : JS.Uint8Array)
  (segments : list JS.Uint8Array) :
  Net.connect_error server = None ->
  Net.write_error server 0 = None ->
  Net.close_error server = None ->
  Net.incoming server = map Chunk segments ->
  (Z.of_nat (List.length query) < 65536)%Z -> (Z.of_nat (List.length answer) < 65536)%Z ->
  List.concat segments = lengthPrefixed answer ++ extra ->
  exchangeOnSocket server query = ([lengthPrefixed query], Normal (dnsAnswer answer))
  /\ exchange server query = Normal (dnsAnswer answer).
Proof.
  intros Hc Hw Hcl Hin Lq La Hs.
  assert (H : exchangeOnSocket server query
              = ([lengthPrefixed query], Normal (dnsAnswer answer))).
  { unfold exchangeOnSocket, Net.connect. rewrite Hc. unfold Net.write, Net.close.
    cbn [Net.peer Net.written Net.pending List.length]. rewrite Hw.
    unfold lengthPrefixed in Hs. cbn [app] in Hs.
    cbn [Net.peer Net.written Net.pending]. rewrite Hin, readAll_chunks, Hcl, Hs.
    cbn [Net.written app]. rewrite dotRequest_lengthPrefixed by exact Lq.
    set (len := Z.of_nat (List.length answer)).
    replace (len / 256 * 256 + len mod 256)%Z with len
      by (pose proof (Z.div_mod len 256 ltac:(lia)); lia).
    change 2%Z with (Z.of_nat 2). subst len.
    rewrite slice_range by (cbn [List.length]; rewrite length_app; lia).
    cbn [skipn]. rewrite firstn_exact by reflexivity. reflexivity. }
  split; [exact H|]. unfold exchange. now rewrite H.
Qed.

Lemma dot_exchange_length_prefix_witness :
  exchangeOnSocket (Scenario.answering [[0%Z]; [3; 7; 8]%Z; [9; 1; 1]%Z]) [0; 1; 1; 0]%Z
  = ([lengthPrefixed [0; 1; 1; 0]%Z], Normal (dnsAnswer [7; 8; 9]%Z))
  /\ exchange (Scenario.answering [[0%Z]; [3; 7; 8]%Z; [9; 1; 1]%Z]) [0; 1; 1; 0]%Z
     = Normal (dnsAnswer [7; 8; 9]%Z).
Proof.
  apply (dot_exchange_length_prefix (Scenario.answering [[0%Z]; [3; 7; 8]%Z; [9; 1; 1]%Z])
           [0; 1; 1; 0]%Z [7; 8; 9]%Z [1; 1]%Z [[0%Z]; [3; 7; 8]%Z; [9; 1; 1]%Z]).
  - reflexivity.
  - reflexivity.
  - reflexivity.
  - reflexivity.
  - cbn; lia.
  - cbn; lia.
  - reflexivity.
Defined.

(** X18. When the exchange with the DoT server fails after the query was
    read, the same query bytes are sent by POST to the DoH server of the
    configuration, and what [fetch] returns is the answer, whatever its
    status. *)
Theorem dot_fallback_same_query
  (fetch : FetchRequest -> Completion Response) (config : Config) (server : Net.Peer)
  (st : Streams.Store) (req : Streams.Request) (id : nat) (s : Streams.BodyStream)
  (e : Error) (response : Response) :
  Streams.method req = "POST" ->
  Headers.get (Streams.requestHeaders req) "content-type"
  = Some "application/dns-message" ->
  Streams.requestBody req = Some id -> nth_error st id = Some s ->
  Streams.bodyUsed s = false ->
  exchange server (List.concat (Streams.remaining s)) = Throw e ->
  fetch (fallbackRequest config (Some (List.concat (Streams.remaining s))))
  = Normal response ->
  snd (handleDnsQuery fetch config server st req) = response
  /\ fetch_body (fallbackRequest config (Some (List.concat (Streams.remaining s))))
     = BufferBody (List.concat (Streams.remaining s))
  /\ fetch_method (fallbackRequest config (Some (List.concat (Streams.remaining s))))
     = "POST".
Proof.
  intros Hm Hct Hb Hs Hu Hex Hf. split; [|split; reflexivity].
  unfold handleDnsQuery. rewrite Hm, Hct. rewrite !String.eqb_refl. cbn [negb orb].
  unfold Streams.arrayBuffer. rewrite Hb, Hs, Hu. cbv beta iota zeta.
  rewrite Hex. cbv beta iota zeta. 
  match goal with
  | |- snd (match ?f with _ => _ end) = _ =>
      replace f with (Normal response) by (symmetry; exact Hf)
  end.
  reflexivity.
Qed.

Lemma dot_fallback_same_query_witness :
  snd (handleDnsQuery (fun _ => Normal (textResponse "upstream says no" 503))
         Scenario.config (Scenario.refusing "connection failed")
         Scenario.dnsStore
         (Streams.mkRequest "POST" [("content-type", "application/dns-message")]
            (Some 0%nat)))
  = textResponse "upstream says no" 503
  /\ fetch_body (fallbackRequest Scenario.config (Some [0; 1; 1; 0]%Z))
     = BufferBody [0; 1; 1; 0]%Z
  /\ fetch_method (fallbackRequest Scenario.config (Some [0; 1; 1; 0]%Z)) = "POST".
Proof.
  apply (dot_fallback_same_query
           (fun _ => Normal (textResponse "upstream says no" 503))
           Scenario.config (Scenario.refusing "connection failed") Scenario.dnsStore
           (Streams.mkRequest "POST" [("content-type", "application/dns-message")]
              (Some 0%nat))
           0 (Streams.mkBodyStream [[0; 1; 1; 0]%Z] false)
           (mkError "connection failed") (textResponse "upstream says no" 503)).
  - reflexivity.
  - reflexivity.
  - reflexivity.
  - reflexivity.
  - reflexivity.
  - reflexivity.
  - reflexivity.
Defined.

End DoTExchange.

(** ** proxies/doh.js: the exchange and its fallback *)

Section DoHExchange.

Import DoHProxy.

Lemma findSeparator_skip (x : Z) (rest : JS.Uint8Array) :
  x <> 13%Z -> findSeparator (x :: rest) = option_map S (findSeparator rest).
Proof.
  intros H. apply Z.eqb_neq in H.
  destruct rest as [|b [|c [|d r]]]; try reflexivity.
  cbn [findSeparator]. now rewrite H.
Qed.

Lemma findSeparator_skip_line (l rest : JS.Uint8Array) :
  Forall (fun x => x <> 13%Z) l ->
  findSeparator (l ++ rest)
  = option_map (Nat.add (List.length l)) (findSeparator rest).
Proof.
  induction 1 as [|x l Hx _ IH]; cbn [app List.length].
  - now destruct (findSeparator rest).
  - rewrite findSeparator_skip by exact Hx. rewrite IH.
    now destruct (findSeparator rest).
Qed.

Lemma findSeparator_found (body : JS.Uint8Array) :
  findSeparator (13 :: 10 :: 13 :: 10 :: body)%Z = Some 0%nat.
Proof. reflexivity. Qed.

Lemma findSeparator_line_end (c : Z) (rest : JS.Uint8Array) :
  c <> 13%Z ->
  findSeparator (13 :: 10 :: c :: rest)%Z
  = option_map (fun n => S (S n)) (findSeparator (c :: rest)).
Proof.
  intros H.
  assert (E : findSeparator (13 :: 10 :: c :: rest)%Z
              = option_map S (findSeparator (10 :: c :: rest)%Z)).
  { destruct rest as [|d r]; [reflexivity|].
    cbn [findSeparator]. apply Z.eqb_neq in H. rewrite H. reflexivity. }
  rewrite E, findSeparator_skip by discriminate.
  now destruct (findSeparator (c :: rest)).
Qed.

Lemma headLineBytes_first (line : string) (rest : JS.Uint8Array) :
  headLine line ->
  exists c tail, headLineBytes line ++ rest = c :: tail /\ c <> 13%Z.
Proof.
  intros [Hne Hno]. destruct line as [|a line]; [contradiction|].
  unfold headLineBytes, JS.encode in *. cbn [list_ascii_of_string map app] in *.
  inversion Hno; subst. eauto.
Qed.

(** The separator of a head is at its end. *)
Lemma findSeparator_head (lines : list string) (body : JS.Uint8Array) :
  lines <> [] -> Forall headLine lines ->
  findSeparator (httpHead lines ++ body)
  = Some (List.length (httpHead lines) - 4)%nat.
Proof.
  intros Hne Hall. unfold httpHead.
  induction Hall as [|line lines Hline Hall IH]; [contradiction|]. clear Hne.
  cbn [map List.concat]. rewrite <- !app_assoc. unfold headLineBytes at 1 3.
  rewrite <- !app_assoc. rewrite findSeparator_skip_line by apply Hline.
  rewrite !length_app. cbn [app].
  destruct lines as [|next lines].
  - cbn [map List.concat app List.length]. rewrite findSeparator_found.
    cbn [option_map]. f_equal. lia.
  - specialize (IH ltac:(discriminate)).
    destruct (headLineBytes_first next
                (List.concat (map headLineBytes lines) ++ 13%Z :: 10%Z :: body))
      as [c [tail [E Hc]]].
    { now inversion Hall. }
    cbn [map List.concat] in IH. rewrite <- !app_assoc in IH. cbn [app] in IH.
    cbn [map List.concat]. rewrite <- !app_assoc.
    rewrite E in IH |- *.
    rewrite findSeparator_line_end by exact Hc. rewrite IH.
    cbn [option_map]. f_equal.
    assert (L : (2 <= List.length (headLineBytes next))%nat)
      by (unfold headLineBytes; rewrite length_app; cbn [List.length]; lia).
    rewrite !length_app in *. cbn [List.length] in *. lia.
Qed.

Lemma readAll_append (segments : list JS.Uint8Array) (responseBytes : JS.Uint8Array) :
  readAll (map Chunk segments) responseBytes
  = Normal (responseBytes ++ List.concat segments).
Proof.
  revert responseBytes; induction segments as [|v segments IH]; intros responseBytes.
  - cbn. now rewrite app_nil_r.
  - cbn [map readAll List.concat]. rewrite IH. now rewrite app_assoc.
Qed.

(** X19. The exchange with the DoH server: the answer is whatever follows
    the first empty line of what the server sent, with status 200 and
    the DNS content type, whatever the status line and the header lines
    of the server are. *)
Theorem doh_exchange_body_after_head (server : Net.Peer) (request body : JS.Uint8Array)
  (lines : list string) (segments : list JS.Uint8Array) :
  Net.connect_error server = None ->
  Net.write_error server 0 = None ->
  Net.close_error server = None ->
  Net.incoming server = map Chunk segments ->
  lines <> [] -> Forall headLine lines ->
  List.concat segments = httpHead lines ++ body ->
  exchange server request = Normal (dnsAnswer body).
Proof.
  intros Hc Hw Hcl Hin Hne Hall Hs.
  unfold exchange, Net.connect. rewrite Hc. unfold Net.write, Net.close.
  cbn [Net.peer Net.written Net.pending List.length]. rewrite Hw.
  cbn [Net.peer Net.written Net.pending]. rewrite Hin, readAll_append, Hcl.
  cbn [app]. rewrite Hs, (findSeparator_head lines body Hne Hall).
  assert (L : (4 <= List.length (httpHead lines))%nat).
  { unfold httpHead. destruct lines as [|l ls]; [contradiction|].
    cbn [map List.concat]. unfold headLineBytes at 1.
    rewrite !length_app. cbn [List.length]. lia. }
  replace (Z.of_nat (List.length (httpHead lines) - 4) + 4)%Z
    with (Z.of_nat (List.length (httpHead lines))) by lia.
  rewrite slice_from by (rewrite length_app; lia).
  rewrite skipn_exact by reflexivity. reflexivity.
Qed.

Lemma doh_exchange_body_after_head_witness :
  exchange (Scenario.answering [JS.encode "HTTP/1.1 500 Oops"; [13; 10]%Z;
                                JS.encode "a: b"; [13; 10; 13; 10; 7; 8]%Z])
    [1; 2; 3]%Z
  = Normal (dnsAnswer [7; 8]%Z).
Proof.
  apply (doh_exchange_body_after_head
           (Scenario.answering [JS.encode "HTTP/1.1 500 Oops"; [13; 10]%Z;
                                JS.encode "a: b"; [13; 10; 13; 10; 7; 8]%Z])
           [1; 2; 3]%Z [7; 8]%Z ["HTTP/1.1 500 Oops"; "a: b"]
           [JS.encode "HTTP/1.1 500 Oops"; [13; 10]%Z;
            JS.encode "a: b"; [13; 10; 13; 10; 7; 8]%Z]).
  - reflexivity.
  - reflexivity.
  - reflexivity.
  - reflexivity.
  - discriminate.
  - repeat constructor; try discriminate.
  - reflexivity.
Defined.

Lemma update_length (st : Streams.Store) (id : nat) (s : Streams.BodyStream) :
  List.length (Streams.update st id s) = List.length st.
Proof.
  revert id; induction st as [|x st IH]; intros [|id]; cbn; auto.
Qed.

(** X20. When the exchange with the DoH server fails after the query was
    read, the answer is the one of [FetchProxy.handleDnsQuery] on a
    request with the method and headers of the original one and a body of
    its own that holds the same query; when [fetch] throws as well the
    status is 502 and the text names the fetch transport. *)
Theorem doh_fetch_fallback
  (fetch : FetchRequest -> Completion Response) (config : Config) (server : Net.Peer)
  (st : Streams.Store) (req : Streams.Request) (id : nat) (s : Streams.BodyStream)
  (e : Error) :
  Streams.method req = "POST" ->
  Headers.get (Streams.requestHeaders req) "content-type"
  = Some "application/dns-message" ->
  Streams.requestBody req = Some id -> nth_error st id = Some s ->
  Streams.bodyUsed s = false ->
  exchange server
    (fullRequest config (Streams.requestHeaders req) (List.concat (Streams.remaining s)))
  = Throw e ->
  let st' := Streams.update st id (Streams.mkBodyStream [] true)
             ++ [Streams.mkBodyStream [List.concat (Streams.remaining s)] false] in
  let fallbackRequest :=
    Streams.mkRequest "POST" (Streams.requestHeaders req) (Some (List.length st)) in
  handleDnsQuery fetch config server st req
  = (st', FetchProxy.handleDnsQuery fetch config fallbackRequest)
  /\ Streams.content st' fallbackRequest = Some (List.concat (Streams.remaining s))
  /\ (forall fallbackError,
        fetch (FetchProxy.dnsRequest config fallbackRequest) = Throw fallbackError ->
        snd (handleDnsQuery fetch config server st req)
        = textResponse
            ("Error fetch dns query handling: " ++ message fallbackError) 502).
Proof.
  intros Hm Hct Hb Hs Hu Hex st' fallbackRequest.
  assert (H : handleDnsQuery fetch config server st req
              = (st', FetchProxy.handleDnsQuery fetch config fallbackRequest)).
  { unfold handleDnsQuery. rewrite Hm, Hct. rewrite !String.eqb_refl. cbn [negb orb].
    unfold Streams.arrayBuffer. rewrite Hb, Hs, Hu. cbv beta iota zeta.
    match goal with
    | |- match ?x with _ => _ end = _ =>
        replace x with (@Throw Response e) by (symmetry; exact Hex)
    end.
    unfold DoHProxy.fallbackRequest. cbv beta iota zeta.
    rewrite update_length, Hm. reflexivity. }
  split; [exact H|]. split.
  - subst st' fallbackRequest. unfold Streams.content. cbn [Streams.requestBody].
    rewrite nth_error_app2 by (rewrite update_length; lia).
    rewrite update_length, Nat.sub_diag. cbn. now rewrite app_nil_r.
  - intros fallbackError Hf. rewrite H. cbn [snd].
    unfold FetchProxy.handleDnsQuery. rewrite Hf. reflexivity.
Qed.

Lemma doh_fetch_fallback_witness :
  let st' := Streams.update Scenario.dnsStore 0 (Streams.mkBodyStream [] true)
             ++ [Streams.mkBodyStream [[0; 1; 1; 0]%Z] false] in
  let fallbackRequest :=
    Streams.mkRequest "POST" [("content-type", "application/dns-message")]
      (Some 1%nat) in
  let req :=
    Streams.mkRequest "POST" [("content-type", "application/dns-message")]
      (Some 0%nat) in
  handleDnsQuery (Scenario.failingFetch "offline") Scenario.config
    (Scenario.refusing "connection failed") Scenario.dnsStore req
  = (st', FetchProxy.handleDnsQuery (Scenario.failingFetch "offline") Scenario.config
            fallbackRequest)
  /\ Streams.content st' fallbackRequest = Some [0; 1; 1; 0]%Z
  /\ (forall fallbackError,
        Scenario.failingFetch "offline"
          (FetchProxy.dnsRequest Scenario.config fallbackRequest)
        = Throw fallbackError ->
        snd (handleDnsQuery (Scenario.failingFetch "offline") Scenario.config
               (Scenario.refusing "connection failed") Scenario.dnsStore req)
        = textResponse
            ("Error fetch dns query handling: " ++ message fallbackError) 502).
Proof.
  apply (doh_fetch_fallback (Scenario.failingFetch "offline")
           Scenario.config (Scenario.refusing "connection failed") Scenario.dnsStore
           (Streams.mkRequest "POST" [("content-type", "application/dns-message")]
              (Some 0%nat))
           0 (Streams.mkBodyStream [[0; 1; 1; 0]%Z] false)
           (mkError "connection failed")).
  - reflexivity.
  - reflexivity.
  - reflexivity.
  - reflexivity.
  - reflexivity.
  - reflexivity.
Defined.

End DoHExchange.

(** ** main.js: destinations and dispatch *)

Section Destination.

Import ShadowProxy.

Lemma split_nonempty (sep : ascii) (s : string) : JS.split sep s <> [].
Proof.
  destruct s as [|c s]; cbn [JS.split]; [discriminate|].
  destruct (Ascii.eqb c sep); [discriminate|].
  destruct (JS.split sep s); discriminate.
Qed.

(** A separator at the end adds one empty piece. *)
Lemma split_trailing (sep : ascii) (s : string) :
  JS.split sep (s ++ String sep "")%string = JS.split sep s ++ [""].
Proof.
  induction s as [|c s IH]; cbn [String.append JS.split].
  - now rewrite Ascii.eqb_refl.
  - destruct (Ascii.eqb c sep); [now rewrite IH|].
    rewrite IH. pose proof (split_nonempty sep s) as H.
    destruct (JS.split sep s) as [|piece pieces]; [contradiction | reflexivity].
Qed.

Lemma pathParts_trailing_slash (url : URL) :
  pathParts (mkURL (protocol url) (hostname url) (port url)
               (pathname url ++ "/")%string (search url))
  = pathParts url.
Proof.
  unfold pathParts, JS.filter_Boolean. cbn [pathname].
  rewrite split_trailing, filter_app. cbn [filter JS.truthy]. apply app_nil_r.
Qed.

(** X21. A slash at the end of the request path is lost: the destination
    is the same with and without it. *)
Theorem parseDestinationUrl_trailing_slash (url : URL) (config : Config) :
  parseDestinationUrl
    (mkURL (protocol url) (hostname url) (port url)
       (pathname url ++ "/")%string (search url)) config
  = parseDestinationUrl url config.
Proof.
  unfold parseDestinationUrl. rewrite pathParts_trailing_slash. reflexivity.
Qed.

Lemma endsWithChar_snoc (s : string) (c : ascii) :
  JS.endsWithChar (s ++ String c "")%string c = true.
Proof.
  induction s as [|a s IH]; cbn [String.append JS.endsWithChar].
  - apply Ascii.eqb_refl.
  - destruct (s ++ String c "")%string eqn:E; [destruct s; discriminate | exact IH].
Qed.

(** X22. With the token in front, the destination is the scheme, [://],
    the remaining segments joined by slashes and the query string; the
    scheme may be written with or without its colon. *)
Theorem parseDestinationUrl_scheme (url url' : URL) (config : Config)
  (scheme : string) (path : list string) :
  scheme <> "" -> JS.endsWithChar scheme ":" = false ->
  pathParts url = AUTH_TOKEN config :: scheme :: path ->
  pathParts url' = AUTH_TOKEN config :: (scheme ++ ":")%string :: path ->
  search url' = search url ->
  parseDestinationUrl url config
  = (scheme ++ "://" ++ JS.join "/" path ++ search url)%string
  /\ parseDestinationUrl url' config = parseDestinationUrl url config.
Proof.
  intros Hne Hend Hp Hp' Hsearch.
  assert (H1 : parseDestinationUrl url config
               = (scheme ++ "://" ++ JS.join "/" path ++ search url)%string).
  { unfold parseDestinationUrl. rewrite Hp. cbn [nth_error skipn].
    rewrite String.eqb_refl, Hend. destruct scheme; [contradiction | reflexivity]. }
  split; [exact H1|]. rewrite H1.
  unfold parseDestinationUrl. rewrite Hp'. cbn [nth_error skipn].
  rewrite String.eqb_refl, endsWithChar_snoc, Hsearch.
  assert (T : JS.truthy (scheme ++ ":")%string = true) by (destruct scheme; reflexivity).
  rewrite T. cbn [andb]. rewrite append_assoc. reflexivity.
Qed.

Lemma parseDestinationUrl_scheme_witness :
  parseDestinationUrl (mkURL "https:" "proxy.example" "" "/TOK/https/example.com/a" "?q=1")
    Scenario.config
  = ("https" ++ "://" ++ JS.join "/" ["example.com"; "a"] ++ "?q=1")%string
  /\ parseDestinationUrl
       (mkURL "https:" "proxy.example" "" "/TOK/https:/example.com/a" "?q=1")
       Scenario.config
     = parseDestinationUrl
         (mkURL "https:" "proxy.example" "" "/TOK/https/example.com/a" "?q=1")
         Scenario.config.
Proof.
  apply (parseDestinationUrl_scheme
           (mkURL "https:" "proxy.example" "" "/TOK/https/example.com/a" "?q=1")
           (mkURL "https:" "proxy.example" "" "/TOK/https:/example.com/a" "?q=1")
           Scenario.config "https" ["example.com"; "a"]).
  - discriminate.
  - reflexivity.
  - reflexivity.
  - reflexivity.
  - reflexivity.
Defined.

(** X23. A DNS path with another first segment than the token is not
    refused: the request goes the way of every other request, to the
    default destination. *)
Theorem handleRequest_dns_wrong_token (config : Config) (url : URL)
  (auth dnsType : string) (rest : list string) :
  pathParts url = auth :: "dns" :: dnsType :: rest ->
  auth <> AUTH_TOKEN config ->
  handleRequest config url
  = match ProxyFactory.createProxy config with
    | Normal proxy => Connect proxy (DEFAULT_DST_URL config)
    | Throw error => Caught (textResponse ("Error: " ++ message error) 500)
    end.
Proof.
  intros Hp Hne. unfold handleRequest, parseDestinationUrl. rewrite Hp.
  cbn [List.length Nat.leb nth nth_error skipn andb].
  apply String.eqb_neq in Hne. rewrite Hne. rewrite andb_false_l.
  cbn [String.eqb Ascii.eqb Bool.eqb andb]. reflexivity.
Qed.

Lemma handleRequest_dns_wrong_token_witness :
  handleRequest Scenario.config
    (mkURL "https:" "proxy.example" "" "/guess/dns/doh" "")
  = match ProxyFactory.createProxy Scenario.config with
    | Normal proxy => Connect proxy (DEFAULT_DST_URL Scenario.config)
    | Throw error => Caught (textResponse ("Error: " ++ message error) 500)
    end.
Proof.
  apply (handleRequest_dns_wrong_token Scenario.config
           (mkURL "https:" "proxy.example" "" "/guess/dns/doh" "") "guess" "doh" []).
  - reflexivity.
  - discriminate.
Defined.

(** X24. With the token, the third segment of a DNS path selects the
    transport whatever the configured strategy is, and the segments
    after it are not used. *)
Theorem handleRequest_dns_type (config : Config) (url : URL) (dnsType : string)
  (rest : list string) :
  pathParts url = AUTH_TOKEN config :: "dns" :: dnsType :: rest ->
  dnsType = "doh" \/ dnsType = "dot" ->
  handleRequest config url
  = HandleDnsQuery
      (if String.eqb dnsType "doh"
       then ProxyFactory.NewDoHProxy (withStrategy config "doh")
       else ProxyFactory.NewDoTProxy (withStrategy config "dot")).
Proof.
  intros Hp [-> | ->]; unfold handleRequest; rewrite Hp;
    cbn [List.length Nat.leb nth andb]; rewrite !String.eqb_refl; reflexivity.
Qed.

Lemma handleRequest_dns_type_witness :
  handleRequest Scenario.config
    (mkURL "https:" "proxy.example" "" "/TOK/dns/dot/dns.example" "")
  = HandleDnsQuery
      (if String.eqb "dot" "doh"
       then ProxyFactory.NewDoHProxy (withStrategy Scenario.config "doh")
       else ProxyFactory.NewDoTProxy (withStrategy Scenario.config "dot")).
Proof.
  apply (handleRequest_dns_type Scenario.config
           (mkURL "https:" "proxy.example" "" "/TOK/dns/dot/dns.example" "")
           "dot" ["dns.example"]).
  - reflexivity.
  - now right.
Defined.

End Destination.

(** ** proxies/socket.js: a request that goes through *)

Section SocketSuccess.

Import SocketProxy.

Variable parseHttpHeaders : JS.Uint8Array -> Completion (option BaseProxy.ParsedHead).
Variable network : SocketTarget -> Net.Peer.





End SocketSuccess.


(** ** proxies/socket.js: the WebSocket handshake *)

Section WebSocketHandshake.

Import SocketProxy.

Variable network : SocketTarget -> Net.Peer.

Lemma decode_app (a b : JS.Uint8Array) :
  JS.decode (a ++ b) = (JS.decode a ++ JS.decode b)%string.
Proof.
  unfold JS.decode. rewrite map_app.
  induction (map _ a) as [|c l IH]; cbn; [reflexivity | now rewrite IH].
Qed.

Lemma occurs_append (sub s t : string) : occurs sub s -> occurs sub (s ++ t)%string.
Proof.
  intros [pre [post ->]]. exists pre, (post ++ t)%string.
  now rewrite !append_assoc.
Qed.

(** X26. Bytes that arrive in the same read as the end of the handshake
    response are dropped: the handshake is accepted when the text read up
    to the first empty line holds [101] and [Switching Protocols]
    anywhere, and the relay starts with the next read, whatever followed
    the response in that read. *)
Theorem connectWebSocket_drops_bytes_after_handshake (key : string)
  (req : Streams.Request) (dstUrl : string) (targetUrl : URL)
  (handshakeResp : string) (extra : JS.Uint8Array) (later : Reader) :
  let server := network (webSocketTarget targetUrl) in
  isWebSocketUrl dstUrl = true ->
  Net.connect_error server = None ->
  Net.write_error server 0 = None ->
  Net.incoming server = Chunk (JS.encode handshakeResp ++ extra) :: later ->
  occurs (CRLF ++ CRLF) handshakeResp ->
  occurs "101" handshakeResp -> occurs "Switching Protocols" handshakeResp ->
  let r := connectWebSocket network key req dstUrl (Normal targetUrl) in
  webSocketOutcome r = WsUpgraded (BaseProxy.relayFrames later)
  /\ handshakeWrites r
     = [JS.encode (requestHead "GET" targetUrl
                     (handshakeHeaders (Streams.requestHeaders req) targetUrl key))].
Proof.
  intros server Hws Hc Hw Hin Hend H101 Hsw r. subst r.
  unfold connectWebSocket. rewrite Hws. cbn [negb].
  unfold Net.connect. fold server. rewrite Hc.
  unfold Net.write. cbn [Net.peer Net.written Net.pending List.length]. rewrite Hw.
  cbn [Net.peer Net.written Net.pending app]. rewrite Hin.
  unfold BaseProxy.readUntilDoubleCRLF. cbn [BaseProxy.readUntilDoubleCRLF_from].
  cbn [String.append]. rewrite decode_app, decode_encode.
  assert (E : JS.includes (handshakeResp ++ JS.decode extra) (CRLF ++ CRLF) = true)
    by (apply includes_spec; now apply occurs_append).
  rewrite E.
  assert (E1 : JS.includes (handshakeResp ++ JS.decode extra) "101" = true)
    by (apply includes_spec; now apply occurs_append).
  assert (E2 : JS.includes (handshakeResp ++ JS.decode extra) "Switching Protocols" = true)
    by (apply includes_spec; now apply occurs_append).
  rewrite E1, E2. cbn [negb orb]. split; reflexivity.
Qed.

End WebSocketHandshake.

Lemma connectWebSocket_drops_bytes_after_handshake_witness :
  let network :=
    fun _ : SocketProxy.SocketTarget =>
      Scenario.answering
        [JS.encode ("HTTP/1.1 101 Switching Protocols" ++ CRLF ++ CRLF)
         ++ [129; 2; 104; 105]%Z;
         [129; 1; 33]%Z] in
  let targetUrl := mkURL "ws:" "example.com" "" "/chat" "" in
  let req := Streams.mkRequest "GET" [("Upgrade", "websocket")] None in
  let r := SocketProxy.connectWebSocket network "a2V5" req "ws://example.com/chat"
             (Normal targetUrl) in
  SocketProxy.webSocketOutcome r
  = SocketProxy.WsUpgraded (BaseProxy.relayFrames [Chunk [129; 1; 33]%Z])
  /\ SocketProxy.handshakeWrites r
     = [JS.encode (requestHead "GET" targetUrl
                     (SocketProxy.handshakeHeaders (Streams.requestHeaders req)
                        targetUrl "a2V5"))].
Proof.
  intros network targetUrl req.
  apply (connectWebSocket_drops_bytes_after_handshake network "a2V5" req
           "ws://example.com/chat" targetUrl
           ("HTTP/1.1 101 Switching Protocols" ++ CRLF ++ CRLF)
           [129; 2; 104; 105]%Z [Chunk [129; 1; 33]%Z]).
  - reflexivity.
  - reflexivity.
  - reflexivity.
  - reflexivity.
  - exists "HTTP/1.1 101 Switching Protocols", "". reflexivity.
  - exists "HTTP/1.1 ", (" Switching Protocols" ++ CRLF ++ CRLF)%string. reflexivity.
  - exists "HTTP/1.1 101 ", (CRLF ++ CRLF)%string. reflexivity.
Defined.

(** ** proxies/base.js: values of the filtered headers *)

Section FilteredValues.

Import BaseProxy.

Variables (h : Headers.t) (name : string).

Let lname : string := JS.toLowerCase name.

(** What the value of [name] becomes when one entry is copied. *)
Let step (vs : list string) (kv : string * string) : list string :=
  if negb (HEADER_FILTER_RE_test (fst kv)) && Headers.same_name (fst kv) name
  then [snd kv] else vs.

Lemma filter_step_values (es : list (string * string)) (acc : Headers.t) :
  Headers.values
    (fold_left
       (fun cleanedHeaders kv =>
          if negb (HEADER_FILTER_RE_test (fst kv))
          then Headers.set cleanedHeaders (fst kv) (snd kv)
          else cleanedHeaders) es acc) name
  = fold_left step es (Headers.values acc name).
Proof.
  revert acc; induction es as [|[k v] es IH]; intros acc; [reflexivity|].
  cbn [fold_left fst snd]. rewrite IH. f_equal. unfold step. cbn [fst snd].
  destruct (HEADER_FILTER_RE_test k); cbn [negb andb]; [reflexivity|].
  apply values_set.
Qed.

Lemma values_lower : Headers.values h lname = Headers.values h name.
Proof.
  unfold Headers.values. f_equal. apply filter_ext. intros [k v]. cbn [fst].
  unfold Headers.same_name, lname. now rewrite toLowerCase_idempotent.
Qed.

Lemma values_absent :
  ~ In lname (Headers.names h) -> Headers.values h name = [].
Proof.
  intros Hn. unfold Headers.values.
  destruct (filter (fun kv => Headers.same_name (fst kv) name) h) as [|[k v] l] eqn:E;
    [reflexivity|].
  exfalso. apply Hn. apply names_In. exists k, v.
  assert (I : In (k, v) (filter (fun kv => Headers.same_name (fst kv) name) h))
    by (rewrite E; now left).
  apply filter_In in I. destruct I as [I S]. split; [exact I|].
  now apply same_name_spec in S.
Qed.

Hypothesis Hallowed : ~ denied name.
Hypothesis Hplain : lname <> "set-cookie".

(** Copying the entries of the names [ns]. *)
Lemma fold_entries (ns : list string) (vs : list string) :
  (forall n, In n ns -> JS.toLowerCase n = n) ->
  fold_left step
    (flat_map
       (fun n =>
          if String.eqb n "set-cookie" then map (fun v => (n, v)) (Headers.values h n)
          else match Headers.get h n with
               | Some v => [(n, v)]
               | None => []
               end) ns) vs
  = if existsb (String.eqb lname) ns
    then match Headers.get h lname with
         | Some v => [v]
         | None => vs
         end
    else vs.
Proof.
  revert vs; induction ns as [|n ns IH]; intros vs Hlow; [reflexivity|].
  cbn [flat_map existsb]. rewrite fold_left_app.
  rewrite IH by (intros m Hm; apply Hlow; now right).
  assert (Hn : JS.toLowerCase n = n) by (apply Hlow; now left).
  destruct (String.eqb_spec lname n) as [<-|Hne].
  - cbn [orb]. apply String.eqb_neq in Hplain. rewrite Hplain.
    destruct (Headers.get h lname) as [v|] eqn:G.
    + cbn [fold_left]. unfold step. cbn [fst snd].
      assert (T : HEADER_FILTER_RE_test lname = false).
      { destruct (HEADER_FILTER_RE_test lname) eqn:T; [|reflexivity].
        exfalso. apply Hallowed. apply HEADER_FILTER_RE_test_spec.
        rewrite <- T. apply HEADER_FILTER_RE_test_lower. unfold lname.
        now rewrite toLowerCase_idempotent. }
      rewrite T.
      assert (S : Headers.same_name lname name = true).
      { apply same_name_spec. unfold lname. apply toLowerCase_idempotent. }
      rewrite S. cbn [negb andb]. now destruct (existsb _ ns).
    + cbn [fold_left]. now destruct (existsb _ ns).
  - cbn [orb].
    assert (Hskip : forall es, (forall kv, In kv es -> fst kv = n) ->
                               fold_left step es vs = vs).
    { induction es as [|kv es IHes]; intros Hes; [reflexivity|].
      cbn [fold_left]. unfold step at 2. rewrite (Hes kv) by now left.
      assert (S : Headers.same_name n name = false).
      { apply not_true_is_false. intros S. apply same_name_spec in S.
        apply Hne. unfold lname. now rewrite <- S. }
      rewrite S, andb_false_r. apply IHes. intros kv' Hin. apply Hes. now right. }
    rewrite Hskip; [reflexivity|].
    intros kv Hin. destruct (String.eqb n "set-cookie").
    + apply in_map_iff in Hin. destruct Hin as [v [<- _]]. reflexivity.
    + destruct (Headers.get h n); [|contradiction].
      destruct Hin as [<-|[]]. reflexivity.
Qed.

Lemma names_lower (n : string) : In n (Headers.names h) -> JS.toLowerCase n = n.
Proof.
  intros Hn. apply names_In in Hn. destruct Hn as [k [v [_ <-]]].
  apply toLowerCase_idempotent.
Qed.

(** X27. Filtering keeps the value of every header whose name does not
    match the deny pattern ([set-cookie] apart, whose values are iterated
    one by one): [get] gives the same for the filtered and for the
    inbound collection. *)
Theorem filterHeaders_keeps_value :
  Headers.get (filterHeaders h) name = Headers.get h name.
Proof.
  unfold Headers.get at 1. unfold filterHeaders. rewrite filter_step_values.
  unfold Headers.entries. rewrite fold_entries by apply names_lower.
  cbn [Headers.values filter map].
  destruct (existsb (String.eqb lname) (Headers.names h)) eqn:E.
  - unfold Headers.get. rewrite values_lower.
    destruct (Headers.values h name) as [|v vs]; reflexivity.
  - unfold Headers.get. rewrite values_absent; [reflexivity|].
    intros Hin. apply not_true_iff_false in E. apply E.
    apply existsb_exists. exists lname. split; [exact Hin | apply String.eqb_refl].
Qed.

End FilteredValues.

Lemma filterHeaders_keeps_value_witness :
  Headers.get
    (BaseProxy.filterHeaders
       [("Accept", "text/html"); ("CF-Ray", "1"); ("accept", "*/*")]) "ACCEPT"
  = Headers.get [("Accept", "text/html"); ("CF-Ray", "1"); ("accept", "*/*")] "ACCEPT".
Proof.
  apply (filterHeaders_keeps_value
           [("Accept", "text/html"); ("CF-Ray", "1"); ("accept", "*/*")] "ACCEPT").
  - intros [prefix [post [Hin E]]]. cbn in Hin, E.
    destruct Hin as [<-|[<-|[<-|[<-|[<-|[<-|[]]]]]]]; discriminate E.
  - discriminate.
Defined.

(** ** proxies/base.js: a control frame inside a fragmented message *)

Section Interleaved.

Import BaseProxy.

(** X28. A final frame between the fragments of a message (a ping, for
    instance) is returned and resets the fragments collected so far, so
    the continuation frame that follows makes the next call throw: the
    message is lost. *)
Theorem nextFrame_control_between_fragments (opcode control : Z) (fin : bool)
  (first between next : Fragment) (rest : JS.Uint8Array)
  (segments : list JS.Uint8Array) :
  (0 < opcode < 16)%Z -> (0 < control < 16)%Z ->
  fragmentOk first -> fragmentOk between -> fragmentOk next ->
  List.concat segments
  = encodeFrame false opcode (fst first) (snd first)
    ++ encodeFrame true control (fst between) (snd between)
    ++ encodeFrame fin 0 (fst next) (snd next) ++ rest ->
  exists s,
    SocketFramesReader.nextFrame (SocketFramesReader.create (map Chunk segments))
    = (s, Normal (Some (SocketFramesReader.mkFrame (SocketFramesReader.FinBit 1)
                          (Some control) (snd between))))
    /\ snd (SocketFramesReader.nextFrame s)
       = Throw (mkError "Received continuation frame without initiation").
Proof.
  intros Hop Hctl Hfirst Hbetween Hnext Hs.
  assert (Hok1 : frameOk opcode (fst first) (snd first))
    by (destruct Hfirst as [_ H]; split; [lia | exact H]).
  assert (Hok2 : frameOk control (fst between) (snd between))
    by (destruct Hbetween as [_ H]; split; [lia | exact H]).
  set (w := SocketFramesReader.weight (SocketFramesReader.create (map Chunk segments))).
  destruct (nextFrame_loop_first false opcode (fst first) (snd first) _ segments []
              None None Hok1 Hs w eq_refl ltac:(lia))
    as [sg1 [b1 [R1 [S1 W1]]]].
  destruct w as [|w'] eqn:Ew.
  { subst w. rewrite weight_create in Ew. cbn [List.length] in W1. lia. }
  destruct (nextFrame_loop_final true control (fst between) (snd between) _ sg1 b1
              (Some (snd first)) (Some opcode) Hok2 S1 w' eq_refl ltac:(lia))
    as [sg2 [b2 [R2 [S2 W2]]]].
  exists (SocketFramesReader.mkState (map Chunk sg2) b2 None None). split.
  - apply nextFrame_of_loop. fold w. rewrite Ew.
    etransitivity; [exact R1 | exact R2].
  - unfold SocketFramesReader.nextFrame.
    destruct (nextFrame_loop_orphan fin 0 (fst next) (snd next) rest sg2 b2 None None
                Hnext S2
                (SocketFramesReader.weight
                   (SocketFramesReader.mkState (map Chunk sg2) b2 None None))
                eq_refl eq_refl) as [s' R3].
    now rewrite R3.
Qed.

Lemma nextFrame_control_between_fragments_witness :
  exists s,
    SocketFramesReader.nextFrame
      (SocketFramesReader.create
         (map Chunk [[1; 1; 104; 137]%Z; [0; 128; 1; 105]%Z]))
    = (s, Normal (Some (SocketFramesReader.mkFrame (SocketFramesReader.FinBit 1)
                          (Some 9%Z) [])))
    /\ snd (SocketFramesReader.nextFrame s)
       = Throw (mkError "Received continuation frame without initiation").
Proof.
  apply (nextFrame_control_between_fragments 1 9 true (None, [104%Z]) (None, [])
           (None, [105%Z]) [] [[1; 1; 104; 137]%Z; [0; 128; 1; 105]%Z]).
  - lia.
  - lia.
  - repeat split; try (cbn; lia); repeat constructor; unfold byte; lia.
  - repeat split; try (cbn; lia); repeat constructor.
  - repeat split; try (cbn; lia); repeat constructor; unfold byte; lia.
  - reflexivity.
Defined.

End Interleaved.

(** ** proxies/base.js: a response without a complete head *)

Section IncompleteHead.

Import BaseProxy.

Variable parseHttpHeaders : JS.Uint8Array -> Completion (option ParsedHead).

Lemma parseResponse_from_incomplete (values : list JS.Uint8Array) :
  forall buff : JS.Uint8Array,
    (forall k, (0 < k <= List.length values)%nat ->
               parseHttpHeaders (buff ++ List.concat (firstn k values)) = Normal None) ->
    parseResponse_from parseHttpHeaders (map Chunk values) buff
    = Throw (mkError "Unable to parse response headers").
Proof.
  induction values as [|value values IH]; intros buff H; [reflexivity|].
  cbn [map parseResponse_from]. unfold concatUint8Arrays. cbn [List.concat].
  rewrite app_nil_r.
  pose proof (H 1%nat ltac:(cbn [List.length]; lia)) as H1.
  cbn [firstn List.concat] in H1. rewrite app_nil_r in H1. rewrite H1.
  apply IH. intros k Hk.
  specialize (H (S k) ltac:(cbn [List.length]; lia)).
  cbn [firstn List.concat] in H. now rewrite <- app_assoc.
Qed.

(** X29. A response whose header block is never complete: the header
    parser is tried on everything received after each read, and when the
    stream ends [parseResponse] throws. *)
Theorem parseResponse_incomplete_head (values : list JS.Uint8Array) :
  (forall k, (0 < k <= List.length values)%nat ->
             parseHttpHeaders (List.concat (firstn k values)) = Normal None) ->
  parseResponse parseHttpHeaders (map Chunk values)
  = Throw (mkError "Unable to parse response headers").
Proof.
  intros H. unfold parseResponse. now apply parseResponse_from_incomplete.
Qed.

End IncompleteHead.

Lemma parseResponse_incomplete_head_witness :
  BaseProxy.parseResponse Scenario.noHead
    (map Chunk [JS.encode "HTTP/1.1 200 OK"; JS.encode "x: y"])
  = Throw (mkError "Unable to parse response headers").
Proof.
  apply (parseResponse_incomplete_head Scenario.noHead
           [JS.encode "HTTP/1.1 200 OK"; JS.encode "x: y"]).
  intros k Hk. reflexivity.
Defined.
